(** * Alchemical factory (openmm/alchemy.py): a heap-level model and its properties

    The Python module builds, from one reference OpenMM [System], a family of
    alchemically modified copies.  OpenMM objects are mutable and are passed
    around by reference, so the model keeps an explicit object store: systems,
    forces, the ligand list, the ligand set and the factory are objects at
    locations of a heap, and every method is a computation in a state and
    exception monad over that heap.  Python floats are IEEE binary64 numbers
    and are modelled by Rocq's primitive floats. *)

From Stdlib Require Import ZArith Floats Reals Lra Lia Ascii.
From stdpp Require Import base list gmap strings.

Set Warnings "-inexact-float,-clear-no-such-hyp".

(** ** Binary64 facts used by the development *)

Module Float64.

Definition sf_one : spec_float := S754_finite false 4503599627370496 (-52).

Lemma Prim2SF_one : Prim2SF 1%float = sf_one.
Proof. reflexivity. Qed.

Lemma shr_fexp_canonical (m e : Z) :
  fexp prec emax (Zdigits2 m + e) = e ->
  shr_fexp prec emax m e loc_Exact = (Build_shr_record m false false, e).
Proof.
  intros Hc. unfold shr_fexp. rewrite Hc, Z.sub_diag. reflexivity.
Qed.

(** Multiplying a valid binary64 number by 1.0 is exact: the product of the
    mantissa with 2^52 is shifted back by 52 places with no bit lost. *)
Lemma SF64mul_one_r (x : spec_float) :
  valid_binary x = true -> SF64mul x sf_one = x.
Proof.
  unfold SF64mul.
  destruct x as [s|s| |s m e]; simpl; intros Hv;
    try (destruct s; reflexivity); try reflexivity.
  unfold bounded, canonical_mantissa in Hv.
  apply andb_prop in Hv. destruct Hv as [Hc Hb].
  apply Z.eqb_eq in Hc.
  rewrite Bool.xorb_false_r, Pos.mul_comm.
  change (4503599627370496 * m)%positive with (Pos.iter xO m 52%positive).
  unfold binary_round_aux.
  set (M := Zpos (Pos.iter xO m 52)).
  assert (HD : Zdigits2 M = (Zpos (digits2_pos m) + 52)%Z).
  { unfold M. cbn. lia. }
  assert (Hs : shr_fexp prec emax M (e + -52) loc_Exact
               = (Build_shr_record (Zpos m) false false, e)).
  { unfold shr_fexp. rewrite HD.
    replace (Z.pos (digits2_pos m) + 52 + (e + -52))%Z
      with (Z.pos (digits2_pos m) + e)%Z by lia.
    rewrite Hc.
    replace (e - (e + -52))%Z with 52%Z by lia.
    unfold shr. replace (e + -52 + 52)%Z with e by lia.
    unfold M. reflexivity. }
  rewrite Hs. cbn [shr_m loc_of_shr_record round_nearest_even].
  rewrite shr_fexp_canonical by exact Hc.
  cbn [shr_m]. rewrite Hb. reflexivity.
Qed.

Lemma mul_1_r (x : float) : (x * 1)%float = x.
Proof.
  rewrite <- (SF2Prim_Prim2SF (x * 1)%float), mul_spec, Prim2SF_one.
  rewrite SF64mul_one_r by apply Prim2SF_valid.
  apply SF2Prim_Prim2SF.
Qed.

(** [numpy.float32(x)] read back as a Python float: round to nearest even in
    binary32 (24-bit mantissa, emax 128); every binary32 number is a binary64
    number. *)
Definition to_float32 (x : float) : float :=
  match Prim2SF x with
  | S754_finite s m e => SF2Prim (binary_round 24 128 s m e)
  | _ => x
  end.

End Float64.

(** ** Data model *)

Abbreviation loc := nat.
Definition Vec3 : Type := float * float * float.

(** An OpenMM [System]: periodic box vectors, particle masses, constraints
    [(iatom, jatom, r0)] and the forces it owns.  The system object on the heap
    holds the locations of its forces ([F := loc]); a snapshot holds their
    values ([F := Force]). *)
Record System (F : Type) := mkSystem {
  boxVectors : Vec3 * Vec3 * Vec3;
  particleMasses : list float;
  constraints : list (Z * Z * float);
  forces : list F
}.
Arguments mkSystem {F}.
Arguments boxVectors {F}.
Arguments particleMasses {F}.
Arguments constraints {F}.
Arguments forces {F}.

(** [NonbondedForce.NoCutoff .. PME] (the integer tags 0..4). *)
Inductive NonbondedMethod :=
  NoCutoff | CutoffNonPeriodic | CutoffPeriodic | Ewald | PME.

Definition Torsion : Type := Z * Z * Z * Z * Z * float * float.

Record NonbondedForce_t := mkNonbonded {
  nb_particles : list (float * float * float);          (* charge, sigma, epsilon *)
  nb_exceptions : list (Z * Z * float * float * float); (* i, j, chargeprod, sigma, epsilon *)
  nb_method : NonbondedMethod;
  nb_cutoff : float;
  nb_useDispersionCorrection : bool
}.

Record GBSAOBCForce_t := mkGBSAOBC {
  gb_particles : list (float * float * float);          (* charge, radius, scale *)
  gb_method : NonbondedMethod;
  gb_cutoff : float;
  gb_solventDielectric : float;
  gb_soluteDielectric : float
}.

Record CustomExternalForce_t := mkCustomExternal {
  cef_energy : string;
  cef_globals : list (string * float);
  cef_perParticle : list string;
  cef_particles : list (Z * list float)
}.

Record CustomBondForce_t := mkCustomBond {
  cbf_energy : string;
  cbf_globals : list (string * float);
  cbf_perBond : list string;
  cbf_bonds : list (Z * Z * list float)
}.

Record CustomNonbondedForce_t := mkCustomNonbonded {
  cnf_energy : string;
  cnf_globals : list (string * float);
  cnf_perParticle : list string;
  cnf_particles : list (list float);
  cnf_exclusions : list (Z * Z);
  cnf_method : NonbondedMethod;
  cnf_cutoff : float
}.

Inductive ComputationType := SingleParticle | ParticlePair | ParticlePairNoExclusions.

Record CustomGBForce_t := mkCustomGB {
  cgb_perParticle : list string;
  cgb_method : NonbondedMethod;
  cgb_cutoff : float;
  cgb_globals : list (string * float);
  cgb_computedValues : list (string * string * ComputationType);
  cgb_energyTerms : list (string * ComputationType);
  cgb_particles : list (list float)
}.

(** The force classes.  [OtherForce] stands for every class the module does not
    name (bond and angle forces, barostats, ...): its class name and its
    serialized state. *)
Inductive Force :=
  | PeriodicTorsionForce (torsions : list Torsion)
  | NonbondedForce (f : NonbondedForce_t)
  | GBSAOBCForce (f : GBSAOBCForce_t)
  | CustomExternalForce (f : CustomExternalForce_t)
  | CustomBondForce (f : CustomBondForce_t)
  | CustomNonbondedForce (f : CustomNonbondedForce_t)
  | CustomGBForce (f : CustomGBForce_t)
  | OtherForce (class_name : string) (state : string).

(** [class AlchemicalState]: the two flags set by [__init__] and the four
    factors. *)
Record AlchemicalState := mkAlchemicalState {
  annihilateElectrostatics : bool;
  annihilateLennardJones : bool;
  relativeRestraints : float;
  ligandElectrostatics : float;
  ligandLennardJones : float;
  ligandTorsions : float
}.

(** [AlchemicalState.__init__] *)
Definition AlchemicalState_init
    (relativeRestraints ligandElectrostatics ligandLennardJones ligandTorsions : float)
    : AlchemicalState :=
  {| annihilateElectrostatics := true;
     annihilateLennardJones := false;
     relativeRestraints := relativeRestraints;
     ligandElectrostatics := ligandElectrostatics;
     ligandLennardJones := ligandLennardJones;
     ligandTorsions := ligandTorsions |}.

(** The attributes of an [AbsoluteAlchemicalFactory] object. *)
Record Factory := mkFactory {
  reference_system : loc;
  ligand_atoms : loc;
  ligand_atomset : loc
}.

(** ** The object store *)

Inductive obj :=
  | OSystem (s : System loc)
  | OForce (f : Force)
  | OList (l : list Z)
  | OSet (s : gset Z)
  | OFactory (f : Factory).

Abbreviation heap := (list obj).

Inductive exn := IndexError | TypeError | OverflowError.

Inductive result (A : Type) :=
  | Ok (a : A)
  | Raise (e : exn).
Arguments Ok {A}.
Arguments Raise {A}.

(** A computation takes the heap and returns the heap it leaves behind together
    with a value or the exception that ended it. *)
Definition M (A : Type) : Type := heap -> heap * result A.

Definition ret {A} (a : A) : M A := fun h => (h, Ok a).
Definition raise {A} (e : exn) : M A := fun h => (h, Raise e).
Definition bind {A B} (m : M A) (k : A -> M B) : M B :=
  fun h => match m h with
           | (h', Ok a) => k a h'
           | (h', Raise e) => (h', Raise e)
           end.

Declare Scope py_scope.
Delimit Scope py_scope with py.
Notation "'do' x <- m ; k" := (bind m (fun x => k))
  (at level 10, x name, m at level 100, k at level 200, only parsing) : py_scope.
Notation "'do' '_' <- m ; k" := (bind m (fun _ => k))
  (at level 10, m at level 100, k at level 200, only parsing) : py_scope.
Open Scope py_scope.

Definition lift {A} (r : result A) : M A := fun h => (h, r).

Definition alloc (o : obj) : M loc := fun h => (h ++ [o], Ok (length h)).

Definition readSystem (l : loc) : M (System loc) := fun h =>
  match h !! l with
  | Some (OSystem s) => (h, Ok s)
  | _ => (h, Raise TypeError)
  end.

Definition updateSystem (l : loc) (g : System loc -> System loc) : M unit := fun h =>
  match h !! l with
  | Some (OSystem s) => (<[l := OSystem (g s)]> h, Ok tt)
  | _ => (h, Raise TypeError)
  end.

Definition readForce (l : loc) : M Force := fun h =>
  match h !! l with
  | Some (OForce f) => (h, Ok f)
  | _ => (h, Raise TypeError)
  end.

(** In-place update of the force object at [l] by a method [g], which may
    raise (and then leaves the object as it was). *)
Definition updateForce (l : loc) (g : Force -> result Force) : M unit := fun h =>
  match h !! l with
  | Some (OForce f) =>
      match g f with
      | Ok f' => (<[l := OForce f']> h, Ok tt)
      | Raise e => (h, Raise e)
      end
  | _ => (h, Raise TypeError)
  end.

(** In-place update of the force object at [l] by a method [g] that can raise
    after it has changed the object: what it has done by then stays. *)
Definition mutateForce (l : loc) (g : Force -> Force * result unit) : M unit := fun h =>
  match h !! l with
  | Some (OForce f) => let '(f', r) := g f in (<[l := OForce f']> h, r)
  | _ => (h, Raise TypeError)
  end.

Definition readList (l : loc) : M (list Z) := fun h =>
  match h !! l with
  | Some (OList xs) => (h, Ok xs)
  | _ => (h, Raise TypeError)
  end.

Definition readSet (l : loc) : M (gset Z) := fun h =>
  match h !! l with
  | Some (OSet s) => (h, Ok s)
  | _ => (h, Raise TypeError)
  end.

Definition readFactory (l : loc) : M Factory := fun h =>
  match h !! l with
  | Some (OFactory f) => (h, Ok f)
  | _ => (h, Raise TypeError)
  end.

(** [for x in xs: body(x)] *)
Fixpoint forM_ {A} (xs : list A) (body : A -> M unit) : M unit :=
  match xs with
  | [] => ret tt
  | x :: xs' => do _ <- body x; forM_ xs' body
  end.

(** [[f(x) for x in xs]] with effects *)
Fixpoint forM {A B} (f : A -> M B) (xs : list A) : M (list B) :=
  match xs with
  | [] => ret []
  | x :: xs' => do y <- f x; do ys <- forM f xs'; ret (y :: ys)
  end.

Definition range (n : nat) : list nat := seq 0 n.

(** ** The OpenMM methods the module calls *)

(** [openmm.System()] *)
Definition new_System : System loc :=
  mkSystem ((2, 0, 0), (0, 2, 0), (0, 0, 2))%float [] [] [].

Definition setDefaultPeriodicBoxVectors {F} (box : Vec3 * Vec3 * Vec3) (s : System F) : System F :=
  mkSystem box (particleMasses s) (constraints s) (forces s).

Definition addParticle {F} (mass : float) (s : System F) : System F :=
  mkSystem (boxVectors s) (particleMasses s ++ [mass]) (constraints s) (forces s).

Definition addConstraint {F} (c : Z * Z * float) (s : System F) : System F :=
  mkSystem (boxVectors s) (particleMasses s) (constraints s ++ [c]) (forces s).

(** [system.addForce(force)]: the system keeps a reference to the force object,
    so later changes made through [force] are changes of the system's force. *)
Definition addForce (system force : loc) : M unit :=
  updateSystem system
    (fun s => mkSystem (boxVectors s) (particleMasses s) (constraints s) (forces s ++ [force])).

(** Methods of one force class applied to an object of another raise. *)
Definition onTorsion (g : list Torsion -> list Torsion) (f : Force) : result Force :=
  match f with PeriodicTorsionForce ts => Ok (PeriodicTorsionForce (g ts)) | _ => Raise TypeError end.
Definition onNonbonded (g : NonbondedForce_t -> NonbondedForce_t) (f : Force) : result Force :=
  match f with NonbondedForce x => Ok (NonbondedForce (g x)) | _ => Raise TypeError end.
Definition onNonbonded_partial (g : NonbondedForce_t -> NonbondedForce_t * result unit)
    (f : Force) : Force * result unit :=
  match f with
  | NonbondedForce x => let '(x', r) := g x in (NonbondedForce x', r)
  | _ => (f, Raise TypeError)
  end.
Definition onCustomExternal (g : CustomExternalForce_t -> CustomExternalForce_t) (f : Force) : result Force :=
  match f with CustomExternalForce x => Ok (CustomExternalForce (g x)) | _ => Raise TypeError end.
Definition onCustomBond (g : CustomBondForce_t -> CustomBondForce_t) (f : Force) : result Force :=
  match f with CustomBondForce x => Ok (CustomBondForce (g x)) | _ => Raise TypeError end.
Definition onCustomNonbonded (g : CustomNonbondedForce_t -> CustomNonbondedForce_t) (f : Force) : result Force :=
  match f with CustomNonbondedForce x => Ok (CustomNonbondedForce (g x)) | _ => Raise TypeError end.
Definition onCustomGB (g : CustomGBForce_t -> CustomGBForce_t) (f : Force) : result Force :=
  match f with CustomGBForce x => Ok (CustomGBForce (g x)) | _ => Raise TypeError end.

Definition readNonbonded (l : loc) : M NonbondedForce_t :=
  do f <- readForce l;
  match f with NonbondedForce x => ret x | _ => raise TypeError end.
Definition readCustomNonbonded (l : loc) : M CustomNonbondedForce_t :=
  do f <- readForce l;
  match f with CustomNonbondedForce x => ret x | _ => raise TypeError end.
Definition readCustomBond (l : loc) : M CustomBondForce_t :=
  do f <- readForce l;
  match f with CustomBondForce x => ret x | _ => raise TypeError end.

(** NonbondedForce *)
Definition nb_setParticleParameters (f : NonbondedForce_t) (i : nat) (p : float * float * float) :=
  mkNonbonded (<[i := p]> (nb_particles f)) (nb_exceptions f) (nb_method f) (nb_cutoff f)
              (nb_useDispersionCorrection f).
Definition nb_setExceptionParameters (f : NonbondedForce_t) (i : nat)
    (e : Z * Z * float * float * float) :=
  mkNonbonded (nb_particles f) (<[i := e]> (nb_exceptions f)) (nb_method f) (nb_cutoff f)
              (nb_useDispersionCorrection f).

(** CustomExternalForce *)
Definition new_CustomExternalForce (energy : string) : CustomExternalForce_t :=
  mkCustomExternal energy [] [] [].
Definition cef_addGlobalParameter (name : string) (v : float) (f : CustomExternalForce_t) :=
  mkCustomExternal (cef_energy f) (cef_globals f ++ [(name, v)]) (cef_perParticle f) (cef_particles f).
Definition cef_addPerParticleParameter (name : string) (f : CustomExternalForce_t) :=
  mkCustomExternal (cef_energy f) (cef_globals f) (cef_perParticle f ++ [name]) (cef_particles f).
Definition cef_addParticle (p : Z * list float) (f : CustomExternalForce_t) :=
  mkCustomExternal (cef_energy f) (cef_globals f) (cef_perParticle f) (cef_particles f ++ [p]).

(** CustomBondForce *)
Definition new_CustomBondForce (energy : string) : CustomBondForce_t :=
  mkCustomBond energy [] [] [].
Definition cbf_addGlobalParameter (name : string) (v : float) (f : CustomBondForce_t) :=
  mkCustomBond (cbf_energy f) (cbf_globals f ++ [(name, v)]) (cbf_perBond f) (cbf_bonds f).
Definition cbf_addPerBondParameter (name : string) (f : CustomBondForce_t) :=
  mkCustomBond (cbf_energy f) (cbf_globals f) (cbf_perBond f ++ [name]) (cbf_bonds f).
Definition cbf_addBond (b : Z * Z * list float) (f : CustomBondForce_t) :=
  mkCustomBond (cbf_energy f) (cbf_globals f) (cbf_perBond f) (cbf_bonds f ++ [b]).

(** CustomNonbondedForce *)
Definition new_CustomNonbondedForce (energy : string) : CustomNonbondedForce_t :=
  mkCustomNonbonded energy [] [] [] [] NoCutoff 1%float.
Definition cnf_addGlobalParameter (name : string) (v : float) (f : CustomNonbondedForce_t) :=
  mkCustomNonbonded (cnf_energy f) (cnf_globals f ++ [(name, v)]) (cnf_perParticle f)
    (cnf_particles f) (cnf_exclusions f) (cnf_method f) (cnf_cutoff f).
Definition cnf_addPerParticleParameter (name : string) (f : CustomNonbondedForce_t) :=
  mkCustomNonbonded (cnf_energy f) (cnf_globals f) (cnf_perParticle f ++ [name])
    (cnf_particles f) (cnf_exclusions f) (cnf_method f) (cnf_cutoff f).
Definition cnf_addParticle (p : list float) (f : CustomNonbondedForce_t) :=
  mkCustomNonbonded (cnf_energy f) (cnf_globals f) (cnf_perParticle f)
    (cnf_particles f ++ [p]) (cnf_exclusions f) (cnf_method f) (cnf_cutoff f).
Definition cnf_addExclusion (i j : Z) (f : CustomNonbondedForce_t) :=
  mkCustomNonbonded (cnf_energy f) (cnf_globals f) (cnf_perParticle f)
    (cnf_particles f) (cnf_exclusions f ++ [(i, j)]) (cnf_method f) (cnf_cutoff f).
Definition cnf_setNonbondedMethod (m : NonbondedMethod) (f : CustomNonbondedForce_t) :=
  mkCustomNonbonded (cnf_energy f) (cnf_globals f) (cnf_perParticle f)
    (cnf_particles f) (cnf_exclusions f) m (cnf_cutoff f).
Definition cnf_setCutoffDistance (d : float) (f : CustomNonbondedForce_t) :=
  mkCustomNonbonded (cnf_energy f) (cnf_globals f) (cnf_perParticle f)
    (cnf_particles f) (cnf_exclusions f) (cnf_method f) d.

(** CustomGBForce *)
Definition new_CustomGBForce : CustomGBForce_t :=
  mkCustomGB [] NoCutoff 1%float [] [] [] [].
Definition cgb_addPerParticleParameter (name : string) (f : CustomGBForce_t) :=
  mkCustomGB (cgb_perParticle f ++ [name]) (cgb_method f) (cgb_cutoff f) (cgb_globals f)
    (cgb_computedValues f) (cgb_energyTerms f) (cgb_particles f).
Definition cgb_setNonbondedMethod (m : NonbondedMethod) (f : CustomGBForce_t) :=
  mkCustomGB (cgb_perParticle f) m (cgb_cutoff f) (cgb_globals f)
    (cgb_computedValues f) (cgb_energyTerms f) (cgb_particles f).
Definition cgb_setCutoffDistance (d : float) (f : CustomGBForce_t) :=
  mkCustomGB (cgb_perParticle f) (cgb_method f) d (cgb_globals f)
    (cgb_computedValues f) (cgb_energyTerms f) (cgb_particles f).
Definition cgb_addGlobalParameter (name : string) (v : float) (f : CustomGBForce_t) :=
  mkCustomGB (cgb_perParticle f) (cgb_method f) (cgb_cutoff f) (cgb_globals f ++ [(name, v)])
    (cgb_computedValues f) (cgb_energyTerms f) (cgb_particles f).
Definition cgb_addComputedValue (name expr : string) (t : ComputationType) (f : CustomGBForce_t) :=
  mkCustomGB (cgb_perParticle f) (cgb_method f) (cgb_cutoff f) (cgb_globals f)
    (cgb_computedValues f ++ [(name, expr, t)]) (cgb_energyTerms f) (cgb_particles f).
Definition cgb_addEnergyTerm (expr : string) (t : ComputationType) (f : CustomGBForce_t) :=
  mkCustomGB (cgb_perParticle f) (cgb_method f) (cgb_cutoff f) (cgb_globals f)
    (cgb_computedValues f) (cgb_energyTerms f ++ [(expr, t)]) (cgb_particles f).
Definition cgb_addParticle (p : list float) (f : CustomGBForce_t) :=
  mkCustomGB (cgb_perParticle f) (cgb_method f) (cgb_cutoff f) (cgb_globals f)
    (cgb_computedValues f) (cgb_energyTerms f) (cgb_particles f ++ [p]).

(** numpy: [a[i]] for one integer index; a negative index counts from the end. *)
Definition numpy_index (n : nat) (i : Z) : result nat :=
  if ((0 <=? i) && (i <? Z.of_nat n))%Z then Ok (Z.to_nat i)
  else if ((- Z.of_nat n <=? i) && (i <? 0))%Z then Ok (Z.to_nat (Z.of_nat n + i))
  else Raise IndexError.

(** numpy: [a[indices] = v] for a list of integer indices. *)
Definition numpy_setitem (a : list float) (indices : list Z) (v : float) : result (list float) :=
  foldl (fun acc i =>
           match acc with
           | Ok a => match numpy_index (length a) i with
                     | Ok j => Ok (<[j := v]> a)
                     | Raise e => Raise e
                     end
           | Raise e => Raise e
           end) (Ok a) indices.

(** ** AbsoluteAlchemicalFactory *)

(** [copy.deepcopy(system)]: a new system object owning new copies of the forces. *)
Definition deepcopy_System (l : loc) : M loc :=
  do s <- readSystem l;
  do fs <- forM (fun fl => do f <- readForce fl; alloc (OForce f)) (forces s);
  alloc (OSystem (mkSystem (boxVectors s) (particleMasses s) (constraints s) fs)).

(** [AbsoluteAlchemicalFactory.__init__(self, reference_system, ligand_atoms)]
    (lines 143-163); the result is the location of the new factory object. *)
Definition AbsoluteAlchemicalFactory_init (reference_system : loc) (ligand_atoms : list Z)
    : M loc :=
  do reference_system <- deepcopy_System reference_system;
  do ligand_atoms_copy <- alloc (OList ligand_atoms);
  do ligand_atomset <- alloc (OSet (list_to_set ligand_atoms));
  alloc (OFactory (mkFactory reference_system ligand_atoms_copy ligand_atomset)).

(** [defaultComplexProtocolImplicit] (lines 165-207) *)
Definition defaultComplexProtocolImplicit : list AlchemicalState :=
  [ AlchemicalState_init 0.00 1.00 1.00 1.0;
    AlchemicalState_init 0.00 0.75 1.00 1.0;
    AlchemicalState_init 0.00 0.50 1.00 1.0;
    AlchemicalState_init 0.00 0.25 1.00 1.0;
    AlchemicalState_init 0.00 0.00 1.00 1.0;
    AlchemicalState_init 0.00 0.00 0.95 1.0;
    AlchemicalState_init 0.00 0.00 0.90 1.0;
    AlchemicalState_init 0.00 0.00 0.80 1.0;
    AlchemicalState_init 0.00 0.00 0.75 1.0;
    AlchemicalState_init 0.00 0.00 0.70 1.0;
    AlchemicalState_init 0.00 0.00 0.65 1.0;
    AlchemicalState_init 0.00 0.00 0.60 1.0;
    AlchemicalState_init 0.00 0.00 0.55 1.0;
    AlchemicalState_init 0.00 0.00 0.50 1.0;
    AlchemicalState_init 0.00 0.00 0.45 1.0;
    AlchemicalState_init 0.00 0.00 0.40 1.0;
    AlchemicalState_init 0.00 0.00 0.35 1.0;
    AlchemicalState_init 0.00 0.00 0.30 1.0;
    AlchemicalState_init 0.00 0.00 0.25 1.0;
    AlchemicalState_init 0.00 0.00 0.20 1.0;
    AlchemicalState_init 0.00 0.00 0.15 1.0;
    AlchemicalState_init 0.00 0.00 0.10 1.0;
    AlchemicalState_init 0.00 0.00 0.05 1.0;
    AlchemicalState_init 0.00 0.00 0.00 1.0 ]%float.

(** *** Softcore Lennard-Jones (lines 321-417) *)

(** The energy expression of the [CustomNonbondedForce] (lines 348-360).  The
    optional arguments [alpha], [a], [b], [c] keep their defaults 0.50, 1, 1, 1
    at the only call site, which ["%f"] prints as below. *)
Definition softcore_energy_expression (annihilate : bool) : string :=
  "4*epsilon*(lambda^a)*x*(x-1.0);"
  +:+ "x = (1.0/(alpha*(1.0-lambda)^b + (r/sigma)^c))^(6/c);"
  +:+ "epsilon = sqrt(epsilon1*epsilon2);"
  +:+ "sigma = 0.5*(sigma1 + sigma2);"
  +:+ (if annihilate
       then "lambda = lennard_jones_lambda*(alchemical1*(1-alchemical2) + alchemical2*(1-alchemical1) + alchemical1*alchemical2);"
       else "lambda = lennard_jones_lambda*(alchemical1*(1-alchemical2) + alchemical2*(1-alchemical1)) + alchemical1*alchemical2;")
  +:+ "alpha = 0.500000;"
  +:+ "a = 1.000000; b = 1.000000; c = 1.000000;".

(** The energy expression of the [CustomBondForce] (lines 371-375). *)
Definition softcore_bond_energy_expression : string :=
  "4*epsilon*(lambda^a)*x*(x-1.0);"
  +:+ "x = (1.0/(alpha*(1.0-lambda)^b + (r/sigma)^c))^(6/c);"
  +:+ "alpha = 0.500000;"
  +:+ "a = 1.000000; b = 1.000000; c = 1.000000;"
  +:+ "lambda = lennard_jones_lambda;".

(** Lines 382-393: copy the Lennard-Jones particle parameters.  The loop state
    is the pair of force objects it updates. *)
Definition copyLennardJonesParticles (alchemical_atom_indices : list Z)
    (st : NonbondedForce_t * CustomNonbondedForce_t)
    : NonbondedForce_t * CustomNonbondedForce_t :=
  foldl (fun '(nonbonded_force, custom_nonbonded_force) particle_index =>
           match nb_particles nonbonded_force !! particle_index with
           | Some (charge, sigma, epsilon) =>
               if bool_decide (Z.of_nat particle_index ∈ alchemical_atom_indices) then
                 (nb_setParticleParameters nonbonded_force particle_index
                    (charge, sigma, epsilon * 0.0)%float,
                  cnf_addParticle [sigma; epsilon; 1%float] custom_nonbonded_force)
               else
                 (nonbonded_force,
                  cnf_addParticle [sigma; epsilon; 0%float] custom_nonbonded_force)
           | None => (nonbonded_force, custom_nonbonded_force)
           end)
        st (range (length (nb_particles (fst st)))).

(** Lines 395-407: one exclusion per exception; under annihilation the
    ligand-ligand exceptions move to the [CustomBondForce]. *)
Definition excludeExceptions (alchemical_atom_indices : list Z)
    (alchemical_state : AlchemicalState)
    (st : NonbondedForce_t * CustomNonbondedForce_t * option CustomBondForce_t)
    : NonbondedForce_t * CustomNonbondedForce_t * option CustomBondForce_t :=
  foldl (fun '(nonbonded_force, custom_nonbonded_force, custom_bond_force) exception_index =>
           match nb_exceptions nonbonded_force !! exception_index with
           | Some (iatom, jatom, chargeprod, sigma, epsilon) =>
               let custom_nonbonded_force :=
                 cnf_addExclusion iatom jatom custom_nonbonded_force in
               if annihilateLennardJones alchemical_state
                  && bool_decide (iatom ∈ alchemical_atom_indices)
                  && bool_decide (jatom ∈ alchemical_atom_indices)
               then
                 (nb_setExceptionParameters nonbonded_force exception_index
                    (iatom, jatom, chargeprod, sigma, epsilon * 0.0)%float,
                  custom_nonbonded_force,
                  cbf_addBond (iatom, jatom, [sigma; epsilon]) <$> custom_bond_force)
               else (nonbonded_force, custom_nonbonded_force, custom_bond_force)
           | None => (nonbonded_force, custom_nonbonded_force, custom_bond_force)
           end)
        st (range (length (nb_exceptions (fst (fst st))))).

(** Lines 409-415 *)
Definition copyNonbondedMethod (nonbonded_force : NonbondedForce_t)
    (custom_nonbonded_force : CustomNonbondedForce_t) : CustomNonbondedForce_t :=
  let custom_nonbonded_force :=
    match nb_method nonbonded_force with
    | Ewald | PME => cnf_setNonbondedMethod CutoffPeriodic custom_nonbonded_force
    | m => cnf_setNonbondedMethod m custom_nonbonded_force
    end in
  cnf_setCutoffDistance (nb_cutoff nonbonded_force) custom_nonbonded_force.

Definition writeForce (l : loc) (f : Force) : M unit := updateForce l (fun _ => Ok f).

(** [_alchemicallyModifyLennardJones(system, nonbonded_force,
    alchemical_atom_indices, alchemical_state)]: [system] and
    [nonbonded_force] are references to objects that the method changes in
    place; [nonbonded_force] is already owned by [system]. *)
Definition _alchemicallyModifyLennardJones (system nonbonded_force : loc)
    (alchemical_atom_indices : list Z) (alchemical_state : AlchemicalState) : M unit :=
  let energy_expression :=
    softcore_energy_expression (annihilateLennardJones alchemical_state) in
  do custom_nonbonded_force <-
    alloc (OForce (CustomNonbondedForce (new_CustomNonbondedForce energy_expression)));
  do _ <- updateForce custom_nonbonded_force
            (onCustomNonbonded (cnf_addGlobalParameter "lennard_jones_lambda"
                                  (ligandLennardJones alchemical_state)));
  do _ <- updateForce custom_nonbonded_force
            (onCustomNonbonded (cnf_addPerParticleParameter "sigma"));
  do _ <- updateForce custom_nonbonded_force
            (onCustomNonbonded (cnf_addPerParticleParameter "epsilon"));
  do _ <- updateForce custom_nonbonded_force
            (onCustomNonbonded (cnf_addPerParticleParameter "alchemical"));
  do _ <- addForce system custom_nonbonded_force;
  do custom_bond_force <-
    (if annihilateLennardJones alchemical_state then
       do custom_bond_force <-
         alloc (OForce (CustomBondForce (new_CustomBondForce softcore_bond_energy_expression)));
       do _ <- updateForce custom_bond_force
                 (onCustomBond (cbf_addGlobalParameter "lennard_jones_lambda"
                                  (ligandLennardJones alchemical_state)));
       do _ <- updateForce custom_bond_force (onCustomBond (cbf_addPerBondParameter "sigma"));
       do _ <- updateForce custom_bond_force (onCustomBond (cbf_addPerBondParameter "epsilon"));
       do _ <- addForce system custom_bond_force;
       ret (Some custom_bond_force)
     else ret None);
  (* the two loops run on the three distinct objects and store them back *)
  do nb <- readNonbonded nonbonded_force;
  do cn <- readCustomNonbonded custom_nonbonded_force;
  do cb <- match custom_bond_force with
           | Some l => do b <- readCustomBond l; ret (Some b)
           | None => ret None
           end;
  let '(nb, cn) := copyLennardJonesParticles alchemical_atom_indices (nb, cn) in
  let '(nb, cn, cb) := excludeExceptions alchemical_atom_indices alchemical_state (nb, cn, cb) in
  let cn := copyNonbondedMethod nb cn in
  do _ <- writeForce nonbonded_force (NonbondedForce nb);
  do _ <- writeForce custom_nonbonded_force (CustomNonbondedForce cn);
  match custom_bond_force, cb with
  | Some l, Some b => writeForce l (CustomBondForce b)
  | _, _ => ret tt
  end.

(** *** Softcore GB/OBC (lines 419-487) *)

(** Lines 477-485: the particle loop; [particle_lambdas[particle_index]] raises
    when the array is shorter than the reference force. *)
Definition addSoftcoreGBParticles (reference_force : GBSAOBCForce_t)
    (particle_lambdas : list float) (custom : CustomGBForce_t) : result CustomGBForce_t :=
  foldl (fun acc particle_index =>
           match acc with
           | Ok custom =>
               match gb_particles reference_force !! particle_index with
               | Some (charge, radius, scaling_factor) =>
                   match particle_lambdas !! particle_index with
                   | Some lambda_factor =>
                       let parameters :=
                         [charge * lambda_factor; radius; scaling_factor; lambda_factor]%float in
                       Ok (cgb_addParticle parameters custom)
                   | None => Raise IndexError
                   end
               | None => Ok custom
               end
           | Raise e => Raise e
           end)
        (Ok custom) (range (length (gb_particles reference_force))).

Definition onCustomGB_fallible (g : CustomGBForce_t -> result CustomGBForce_t) (f : Force)
    : result Force :=
  match f with
  | CustomGBForce x => match g x with Ok x' => Ok (CustomGBForce x') | Raise e => Raise e end
  | _ => Raise TypeError
  end.

(** [_createCustomSoftcoreGBOBC(reference_force, particle_lambdas, sasa_model)];
    the reference force is only read. *)
Definition _createCustomSoftcoreGBOBC (reference_force : GBSAOBCForce_t)
    (particle_lambdas : list float) (sasa_model : string) : M loc :=
  do custom <- alloc (OForce (CustomGBForce new_CustomGBForce));
  do _ <- updateForce custom (onCustomGB (cgb_addPerParticleParameter "q"));
  do _ <- updateForce custom (onCustomGB (cgb_addPerParticleParameter "radius"));
  do _ <- updateForce custom (onCustomGB (cgb_addPerParticleParameter "scale"));
  do _ <- updateForce custom (onCustomGB (cgb_addPerParticleParameter "lambda"));
  do _ <- updateForce custom (onCustomGB (cgb_setNonbondedMethod (gb_method reference_force)));
  do _ <- updateForce custom (onCustomGB (cgb_setCutoffDistance (gb_cutoff reference_force)));
  do _ <- updateForce custom
            (onCustomGB (cgb_addGlobalParameter "solventDielectric"
                           (gb_solventDielectric reference_force)));
  do _ <- updateForce custom
            (onCustomGB (cgb_addGlobalParameter "soluteDielectric"
                           (gb_soluteDielectric reference_force)));
  do _ <- updateForce custom (onCustomGB (cgb_addGlobalParameter "offset" 0.009%float));
  do _ <- updateForce custom
            (onCustomGB (cgb_addComputedValue "I"
               ("lambda2*step(r+sr2-or1)*0.5*(1/L-1/U+0.25*(r-sr2^2/r)*(1/(U^2)-1/(L^2))+0.5*log(L/U)/r);"
                +:+ "U=r+sr2;"
                +:+ "L=max(or1, D);"
                +:+ "D=abs(r-sr2);"
                +:+ "sr2 = scale2*or2;"
                +:+ "or1 = radius1-offset; or2 = radius2-offset")
               ParticlePairNoExclusions));
  do _ <- updateForce custom
            (onCustomGB (cgb_addComputedValue "B"
               ("1/(1/or-tanh(psi-0.8*psi^2+4.85*psi^3)/radius);"
                +:+ "psi=I*or; or=radius-offset")
               SingleParticle));
  do _ <- updateForce custom
            (onCustomGB (cgb_addEnergyTerm
               "-0.5*138.935485*(1/soluteDielectric-1/solventDielectric)*q^2/B"
               SingleParticle));
  do _ <- (if String.eqb sasa_model "ACE" then
             updateForce custom
               (onCustomGB (cgb_addEnergyTerm
                  "lambda*28.3919551*(radius+0.14)^2*(radius/B)^6" SingleParticle))
           else ret tt);
  do _ <- updateForce custom
            (onCustomGB (cgb_addEnergyTerm
               ("-138.935485*(1/soluteDielectric-1/solventDielectric)*q1*q2/f;"
                +:+ "f=sqrt(r^2+B1*B2*exp(-r^2/(4*B1*B2)))")
               ParticlePairNoExclusions));
  do _ <- updateForce custom
            (onCustomGB_fallible (addSoftcoreGBParticles reference_force particle_lambdas));
  ret custom.

(** ** Reading a system off the heap *)

Definition lookupForce (h : heap) (l : loc) : option Force :=
  match h !! l with Some (OForce f) => Some f | _ => None end.

(** The value of the system at [l]: its own attributes and the values of the
    force objects it owns. *)
Definition snapshot (h : heap) (l : loc) : option (System Force) :=
  match h !! l with
  | Some (OSystem s) =>
      match mapM (M := option) (lookupForce h) (forces s) with
      | Some fs => Some (mkSystem (boxVectors s) (particleMasses s) (constraints s) fs)
      | None => None
      end
  | _ => None
  end.

(** The objects a system owns: itself and its force objects. *)
Definition ownedLocs (h : heap) (l : loc) : list loc :=
  match h !! l with
  | Some (OSystem s) => l :: forces s
  | _ => []
  end.

(** ** Worked example: a three-particle system *)

Module Example.

Definition nonbonded : NonbondedForce_t :=
  mkNonbonded [(0.5, 0.3, 0.2); (-0.5, 0.31, 0.1); (0.25, 0.2, 0.4)]%float
              [(0%Z, 1%Z, 0.1, 0.3, 0.05); (1%Z, 2%Z, 0.2, 0.3, 0.05)]%float
              PME 1.0%float true.

Definition torsions : list Torsion :=
  [(0%Z, 1%Z, 1%Z, 0%Z, 2%Z, 3.14, 10.0); (0%Z, 1%Z, 2%Z, 1%Z, 1%Z, 0.0, 4.0);
   (2%Z, 2%Z, 2%Z, 2%Z, 3%Z, 0.0, 6.0)]%float.

Definition gbsa : GBSAOBCForce_t :=
  mkGBSAOBC [(0.5, 0.15, 0.8); (-0.5, 0.17, 0.85); (0.25, 0.1, 0.7)]%float
            NoCutoff 1.0%float 78.3%float 1.0%float.

Definition harmonic : Force := OtherForce "HarmonicBondForce" "<Bond p1=0 p2=1 d=0.1 k=1000/>".

Definition reference : System Force :=
  mkSystem ((1, 0, 0), (0, 1, 0), (0, 0, 1))%float [12.0; 1.0; 16.0]%float
           [(0%Z, 1%Z, 0.1%float)]
           [PeriodicTorsionForce torsions; NonbondedForce nonbonded; GBSAOBCForce gbsa; harmonic].

(** The caller's heap: the four forces at 0..3 and the system at 4. *)
Definition heap0 : heap :=
  map OForce (forces reference)
  ++ [OSystem (mkSystem (boxVectors reference) (particleMasses reference)
                 (constraints reference) [0; 1; 2; 3])].

Definition reference_loc : loc := 4.

Lemma snapshot_heap0 : snapshot heap0 reference_loc = Some reference.
Proof. reflexivity. Qed.

(** Atoms 0 and 1 are the ligand. *)
Definition ligand : list Z := [0; 1]%Z.

End Example.

(** A half-coupled state. *)
Definition example_half_state : AlchemicalState := AlchemicalState_init 0.0 0.5 0.5 0.5.

(** ** Energy expressions

    The module hands OpenMM its energies as text (lines 348-361 and 371-376);
    OpenMM parses the text and evaluates it for each pair of particles.  That
    engine is not part of the module.  Its input language is read here as
    arithmetic over the real numbers: an operation that has no real value (a
    division by zero, the square root of a negative number, a power outside
    the domain of [pow]) has no value here, where floating-point evaluation
    gives an infinity or a NaN.  Rounding and overflow are not modelled. *)

Module Expression.

(** *** Syntax *)

Inductive binary_operator : Type := Add | Subtract | Multiply | Divide | Power.

Inductive expr : Type :=
| Number (mantissa : N) (decimals : nat)
| Name (name : string)
| Negate (e : expr)
| Binary (op : binary_operator) (e1 e2 : expr)
| Call (function : string) (argument : expr).

Inductive token : Type :=
| TNumber (mantissa : N) (decimals : nat)
| TName (name : string)
| TOperator (op : binary_operator)
| TLeft | TRight | TEquals | TSemicolon.

(** A text is a main expression followed by definitions [name = expression],
    separated by semicolons. *)
Record program : Type := mkProgram {
  main : expr;
  definitions : list (string * expr)
}.

(** *** Reading a text *)

Definition is_digit (ch : Ascii.ascii) : bool :=
  (48 <=? Ascii.N_of_ascii ch)%N && (Ascii.N_of_ascii ch <=? 57)%N.

Definition is_letter (ch : Ascii.ascii) : bool :=
  ((65 <=? Ascii.N_of_ascii ch)%N && (Ascii.N_of_ascii ch <=? 90)%N)
  || ((97 <=? Ascii.N_of_ascii ch)%N && (Ascii.N_of_ascii ch <=? 122)%N)
  || (Ascii.N_of_ascii ch =? 95)%N.

Definition digit (ch : Ascii.ascii) : N := (Ascii.N_of_ascii ch - 48)%N.

Definition symbol (ch : Ascii.ascii) : option token :=
  if Ascii.eqb ch "+"%char then Some (TOperator Add)
  else if Ascii.eqb ch "-"%char then Some (TOperator Subtract)
  else if Ascii.eqb ch "*"%char then Some (TOperator Multiply)
  else if Ascii.eqb ch "/"%char then Some (TOperator Divide)
  else if Ascii.eqb ch "^"%char then Some (TOperator Power)
  else if Ascii.eqb ch "("%char then Some TLeft
  else if Ascii.eqb ch ")"%char then Some TRight
  else if Ascii.eqb ch "="%char then Some TEquals
  else if Ascii.eqb ch ";"%char then Some TSemicolon
  else None.

(** The token being read: nothing, a name, the whole part of a number, or a
    number past its decimal point. *)
Inductive pending : Type :=
| PNone
| PName (name : string)
| PWhole (mantissa : N)
| PFraction (mantissa : N) (decimals : nat).

Definition flush (p : pending) : list token :=
  match p with
  | PNone => []
  | PName name => [TName name]
  | PWhole mantissa => [TNumber mantissa 0]
  | PFraction mantissa decimals => [TNumber mantissa decimals]
  end.

Fixpoint tokenize_from (p : pending) (text : string) : option (list token) :=
  match text with
  | EmptyString => Some (flush p)
  | String ch rest =>
      if is_digit ch then
        match p with
        | PNone => tokenize_from (PWhole (digit ch)) rest
        | PName name => tokenize_from (PName (name +:+ String ch EmptyString)) rest
        | PWhole m => tokenize_from (PWhole (10 * m + digit ch)) rest
        | PFraction m d => tokenize_from (PFraction (10 * m + digit ch) (S d)) rest
        end
      else if is_letter ch then
        match p with
        | PNone => tokenize_from (PName (String ch EmptyString)) rest
        | PName name => tokenize_from (PName (name +:+ String ch EmptyString)) rest
        | _ => None
        end
      else if Ascii.eqb ch "."%char then
        match p with
        | PNone => tokenize_from (PFraction 0 0) rest
        | PWhole m => tokenize_from (PFraction m 0) rest
        | _ => None
        end
      else if Ascii.eqb ch " "%char then
        match tokenize_from PNone rest with
        | Some tokens => Some (flush p ++ tokens)
        | None => None
        end
      else
        match symbol ch, tokenize_from PNone rest with
        | Some t, Some tokens => Some (flush p ++ t :: tokens)
        | _, _ => None
        end
  end.

Definition tokenize (text : string) : option (list token) := tokenize_from PNone text.

(** Operators bind in the order + -, * /, unary minus, ^; all but ^ group to
    the left. *)
Definition precedence (op : binary_operator) : nat :=
  match op with
  | Add | Subtract => 0
  | Multiply | Divide => 1
  | Power => 3
  end.

Definition left_associative (op : binary_operator) : bool :=
  match op with Power => false | _ => true end.

(** Precedence climbing.  [fuel] bounds the depth of the recursion; three
    times the number of tokens is enough for every text. *)
Fixpoint parse_expression (fuel : nat) (minimum : nat) (tokens : list token)
    : option (expr * list token) :=
  match fuel with
  | 0 => None
  | S fuel =>
      match parse_operand fuel tokens with
      | Some (e, rest) => parse_operators fuel minimum e rest
      | None => None
      end
  end
with parse_operand (fuel : nat) (tokens : list token) : option (expr * list token) :=
  match fuel with
  | 0 => None
  | S fuel =>
      match tokens with
      | TNumber mantissa decimals :: rest => Some (Number mantissa decimals, rest)
      | TName name :: TLeft :: rest =>
          match parse_expression fuel 0 rest with
          | Some (argument, TRight :: rest) => Some (Call name argument, rest)
          | _ => None
          end
      | TName name :: rest => Some (Name name, rest)
      | TLeft :: rest =>
          match parse_expression fuel 0 rest with
          | Some (e, TRight :: rest) => Some (e, rest)
          | _ => None
          end
      | TOperator Subtract :: rest =>
          match parse_expression fuel 2 rest with
          | Some (e, rest) => Some (Negate e, rest)
          | None => None
          end
      | _ => None
      end
  end
with parse_operators (fuel : nat) (minimum : nat) (lhs : expr) (tokens : list token)
    : option (expr * list token) :=
  match fuel with
  | 0 => None
  | S fuel =>
      match tokens with
      | TOperator op :: rest =>
          if minimum <=? precedence op then
            match parse_expression fuel
                    (if left_associative op then S (precedence op) else precedence op)
                    rest with
            | Some (rhs, rest) => parse_operators fuel minimum (Binary op lhs rhs) rest
            | None => None
            end
          else Some (lhs, tokens)
      | _ => Some (lhs, tokens)
      end
  end.

Definition parse_tokens (tokens : list token) : option expr :=
  match parse_expression (3 * S (length tokens)) 0 tokens with
  | Some (e, []) => Some e
  | _ => None
  end.

Fixpoint split_semicolons (tokens : list token) : list (list token) :=
  match tokens with
  | [] => [[]]
  | TSemicolon :: rest => [] :: split_semicolons rest
  | t :: rest =>
      match split_semicolons rest with
      | part :: parts => (t :: part) :: parts
      | [] => [[t]]
      end
  end.

Definition parse_definition (tokens : list token) : option (string * expr) :=
  match tokens with
  | TName name :: TEquals :: body =>
      match parse_tokens body with
      | Some e => Some (name, e)
      | None => None
      end
  | _ => None
  end.

Definition parse (text : string) : option program :=
  match tokenize text with
  | Some tokens =>
      match split_semicolons tokens with
      | first :: parts =>
          match parse_tokens first,
                mapM parse_definition
                  (filter (fun part => part <> []) parts) with
          | Some e, Some defs => Some (mkProgram e defs)
          | _, _ => None
          end
      | [] => None
      end
  | None => None
  end.

(** *** Meaning *)

(** The values of the variables: particle and global parameters and the
    distance [r]. *)
Definition valuation : Type := string -> option R.

Local Open Scope R_scope.

(** [x ^ y] as the C function [pow] defines it, where that is a real number:
    any power of a positive base, 1 for the exponent 0, 0 for a positive power
    of 0, and whole powers of a negative base. *)
Definition power (x y : R) : option R :=
  if Rlt_dec 0 x then Some (Rpower x y)
  else if Req_dec_T y 0 then Some 1
  else if Req_dec_T x 0 then (if Rlt_dec 0 y then Some 0 else None)
  else if Req_dec_T y (IZR (Int_part y)) then Some (powerRZ x (Int_part y))
  else None.

Definition apply_operator (op : binary_operator) (x y : R) : option R :=
  match op with
  | Add => Some (x + y)
  | Subtract => Some (x - y)
  | Multiply => Some (x * y)
  | Divide => if Req_dec_T y 0 then None else Some (x / y)
  | Power => power x y
  end.

(** The expressions of the module call no function but [sqrt]. *)
Definition apply_function (function : string) (x : R) : option R :=
  if String.eqb function "sqrt"
  then (if Rle_dec 0 x then Some (sqrt x) else None)
  else None.

Fixpoint eval (rho : valuation) (e : expr) : option R :=
  match e with
  | Number mantissa decimals => Some (IZR (Z.of_N mantissa) / 10 ^ decimals)
  | Name name => rho name
  | Negate e =>
      match eval rho e with
      | Some x => Some (- x)
      | None => None
      end
  | Binary op e1 e2 =>
      match eval rho e1, eval rho e2 with
      | Some x, Some y => apply_operator op x y
      | _, _ => None
      end
  | Call function argument =>
      match eval rho argument with
      | Some x => apply_function function x
      | None => None
      end
  end.

(** A definition stands for its expression wherever its name occurs to its
    left, and may itself use the definitions to its right. *)
Definition define (d : string * expr) (rho : valuation) : valuation :=
  fun name => if String.eqb name d.1 then eval rho d.2 else rho name.

(** Modelled from the spec: the energy an expression text denotes.  The
    expression engine of OpenMM, which computes it, is missing from the
    sources; the operators have the meaning they have in the formula of the
    spec, E = 4 epsilon (lambda^a) x (x - 1) with
    x = (1 / (alpha (1 - lambda)^b + (r / sigma)^c))^(6/c). *)
Definition value (p : program) (rho : valuation) : option R :=
  eval (foldr define rho (definitions p)) (main p).

Lemma define_eq (name : string) (e : expr) (rho : valuation) :
  define (name, e) rho name = eval rho e.
Proof. unfold define. simpl. by rewrite String.eqb_refl. Qed.

Lemma define_ne (d : string * expr) (rho : valuation) (name : string) :
  name <> d.1 -> define d rho name = rho name.
Proof. intros Hne. unfold define. by apply String.eqb_neq in Hne as ->. Qed.

Lemma number_value (mantissa : N) (decimals : nat) (rho : valuation) :
  eval rho (Number mantissa decimals) = Some (IZR (Z.of_N mantissa) / 10 ^ decimals).
Proof. reflexivity. Qed.

Lemma power_1 (x : R) : 0 <= x -> power x 1 = Some x.
Proof.
  intros Hx. unfold power.
  destruct (Rlt_dec 0 x) as [Hpos|Hneg]; [by rewrite Rpower_1|].
  destruct (Req_dec_T 1 0) as [H10|_]; [lra|].
  destruct (Req_dec_T x 0) as [->|Hx0]; [|lra].
  destruct (Rlt_dec 0 1); [done|lra].
Qed.

Lemma power_6 (x : R) : 0 < x -> power x 6 = Some (x ^ 6).
Proof.
  intros Hx. unfold power.
  destruct (Rlt_dec 0 x) as [_|Hneg]; [|lra].
  f_equal. replace 6 with (INR 6) by (simpl; lra). by apply Rpower_pow.
Qed.

(** The main expression and the definition of x that the two softcore texts
    share, as [parse] reads them. *)
Definition softcore_main : expr :=
  Binary Multiply
    (Binary Multiply
       (Binary Multiply
          (Binary Multiply (Number 4 0) (Name "epsilon"))
          (Binary Power (Name "lambda") (Name "a")))
       (Name "x"))
    (Binary Subtract (Name "x") (Number 10 1)).

Definition softcore_x : expr :=
  Binary Power
    (Binary Divide (Number 10 1)
       (Binary Add
          (Binary Multiply (Name "alpha")
             (Binary Power (Binary Subtract (Number 10 1) (Name "lambda")) (Name "b")))
          (Binary Power (Binary Divide (Name "r") (Name "sigma")) (Name "c"))))
    (Binary Divide (Number 6 0) (Name "c")).

Lemma softcore_x_value (rho : valuation) (sigma lambda r : R) :
  rho "alpha" = Some (1 / 2) -> rho "b" = Some 1 -> rho "c" = Some 1 ->
  rho "lambda" = Some lambda -> rho "sigma" = Some sigma -> rho "r" = Some r ->
  lambda <= 1 -> 0 < sigma -> 0 <= r ->
  eval rho softcore_x
  = if Req_dec_T (1 / 2 * (1 - lambda) + r / sigma) 0 then None
    else Some ((1 / (1 / 2 * (1 - lambda) + r / sigma)) ^ 6).
Proof.
  intros Halpha Hb Hc Hlambda Hsigma Hr Hl1 Hs Hr0.
  assert (0 <= r / sigma) as Hq
    by (apply Rmult_le_pos; [lra|left; by apply Rinv_0_lt_compat]).
  cbn [eval softcore_x]. rewrite Halpha, Hb, Hc, Hlambda, Hsigma, Hr.
  cbn [apply_operator].
  replace (IZR (Z.of_N 10) / 10 ^ 1) with 1 by (simpl; lra).
  replace (IZR (Z.of_N 6) / 10 ^ 0 / 1) with 6 by (simpl; lra).
  rewrite (power_1 (1 - lambda)) by lra.
  destruct (Req_dec_T sigma 0) as [Hs0|_]; [lra|].
  rewrite (power_1 (r / sigma)) by done.
  destruct (Req_dec_T 1 0) as [H10|_]; [lra|].
  destruct (Req_dec_T (1 / 2 * (1 - lambda) + r / sigma) 0) as [Hd|Hd]; [done|].
  apply power_6. apply Rdiv_lt_0_compat; lra.
Qed.

Lemma softcore_main_value (rho : valuation) (epsilon lambda : R) :
  rho "epsilon" = Some epsilon -> rho "lambda" = Some lambda -> rho "a" = Some 1 ->
  0 <= lambda ->
  eval rho softcore_main
  = match rho "x" with
    | Some x => Some (4 * epsilon * lambda * x * (x - 1))
    | None => None
    end.
Proof.
  intros Hepsilon Hlambda Ha Hl0.
  cbn [eval softcore_main]. rewrite Hepsilon, Hlambda, Ha.
  cbn [apply_operator]. rewrite power_1 by done.
  replace (IZR (Z.of_N 4) / 10 ^ 0) with 4 by (simpl; lra).
  replace (IZR (Z.of_N 10) / 10 ^ 1) with 1 by (simpl; lra).
  by destruct (rho "x").
Qed.

(** The value of a text made of the main expression and the definition of x
    of the two softcore expressions, followed by definitions that give
    epsilon, sigma, lambda, alpha, a, b and c the values below. *)
Lemma softcore_value (rho : valuation) (epsilon sigma lambda r : R) :
  rho "epsilon" = Some epsilon -> rho "sigma" = Some sigma -> rho "lambda" = Some lambda ->
  rho "alpha" = Some (1 / 2) ->
  rho "a" = Some 1 -> rho "b" = Some 1 -> rho "c" = Some 1 ->
  rho "r" = Some r ->
  0 <= lambda <= 1 -> 0 < sigma -> 0 <= r ->
  eval (define ("x", softcore_x) rho) softcore_main
  = if Req_dec_T (1 / 2 * (1 - lambda) + r / sigma) 0 then None
    else Some (4 * epsilon * lambda
               * (1 / (1 / 2 * (1 - lambda) + r / sigma)) ^ 6
               * ((1 / (1 / 2 * (1 - lambda) + r / sigma)) ^ 6 - 1)).
Proof.
  intros Hepsilon Hsigma Hlambda Halpha Ha Hb Hc Hr [Hl0 Hl1] Hs Hr0.
  rewrite (softcore_main_value _ epsilon lambda);
    rewrite ?define_ne by done; try done.
  rewrite define_eq, (softcore_x_value rho sigma lambda r) by done.
  by destruct (Req_dec_T _ _).
Qed.

End Expression.

(** ** The build, for any implementation of [x ** 2]

    Line 629 squares the electrostatics factor with [**].  On floats Python
    evaluates [x ** 2] with the C library's [pow], whose result is not fixed
    to the last bit (it need not be the product [x * x]), and raises
    OverflowError when a finite [x] gives an infinite result.  The value of
    [x ** 2] is therefore a parameter, [float_sqr], of every definition and
    theorem that depends on it. *)

(** [x ** 2] for a Python float [x]: a value or an exception. *)
Definition squaring : Type := float -> result float.

(** *** createPerturbedSystem (lines 489-687) *)

(** Lines 580-583 *)
Definition copyParticles (reference_system : System loc) (system : System loc) : System loc :=
  foldl (fun system atom_index =>
           match particleMasses reference_system !! atom_index with
           | Some mass => addParticle mass system
           | None => system
           end)
        system (range (length (particleMasses reference_system))).

(** Lines 585-588 *)
Definition copyConstraints (reference_system : System loc) (system : System loc) : System loc :=
  foldl (fun system constraint_index =>
           match constraints reference_system !! constraint_index with
           | Some (iatom, jatom, r0) => addConstraint (iatom, jatom, r0) system
           | None => system
           end)
        system (range (length (constraints reference_system))).

(** Lines 598-604: the torsion loop. *)
Definition copyTorsions (ligand_atomset : gset Z) (alchemical_state : AlchemicalState)
    (reference_force : list Torsion) (force : list Torsion) : list Torsion :=
  foldl (fun force torsion_index =>
           match reference_force !! torsion_index with
           | Some (particle1, particle2, particle3, particle4, periodicity, phase, k) =>
               let k :=
                 if bool_decide (({[particle1; particle2; particle3; particle4]} : gset Z)
                                   ⊆ ligand_atomset)
                 then (k * ligandTorsions alchemical_state)%float
                 else k in
               force ++ [(particle1, particle2, particle3, particle4, periodicity, phase, k)]
           | None => force
           end)
        force (range (length reference_force)).

(** Lines 615-622: scale the ligand charges. *)
Definition scaleParticleCharges (ligand_atomset : gset Z) (alchemical_state : AlchemicalState)
    (force : NonbondedForce_t) : NonbondedForce_t :=
  foldl (fun force particle_index =>
           match nb_particles force !! particle_index with
           | Some (charge, sigma, epsilon) =>
               let charge :=
                 if bool_decide (Z.of_nat particle_index ∈ ligand_atomset)
                 then (charge * ligandElectrostatics alchemical_state)%float
                 else charge in
               nb_setParticleParameters force particle_index (charge, sigma, epsilon)
           | None => force
           end)
        force (range (length (nb_particles force))).

(** Lines 623-631: scale the ligand-ligand exceptions.  The square is
    computed anew for each such exception; when it raises, the loop stops and
    the exceptions already rewritten stay rewritten. *)
Definition scaleExceptionChargeProducts (float_sqr : squaring) (ligand_atomset : gset Z)
    (alchemical_state : AlchemicalState) (force : NonbondedForce_t)
    : NonbondedForce_t * result unit :=
  foldl (fun acc exception_index =>
           match acc with
           | (force, Ok _) =>
               match nb_exceptions force !! exception_index with
               | Some (iatom, jatom, chargeprod, sigma, epsilon) =>
                   let chargeprod :=
                     if bool_decide (iatom ∈ ligand_atomset)
                        && bool_decide (jatom ∈ ligand_atomset)
                     then
                       if annihilateElectrostatics alchemical_state
                       then match float_sqr (ligandElectrostatics alchemical_state) with
                            | Ok square => Ok (chargeprod * square)%float
                            | Raise e => Raise e
                            end
                       else Ok chargeprod
                     else Ok chargeprod in
                   match chargeprod with
                   | Ok chargeprod =>
                       (nb_setExceptionParameters force exception_index
                          (iatom, jatom, chargeprod, sigma, epsilon), Ok tt)
                   | Raise e => (force, Raise e)
                   end
               | None => acc
               end
           | (_, Raise _) => acc
           end)
        (force, Ok tt) (range (length (nb_exceptions force))).

(** Lines 646-659 *)
Definition copyCustomExternal (reference_force : CustomExternalForce_t)
    (force : CustomExternalForce_t) : CustomExternalForce_t :=
  let force :=
    foldl (fun force parameter_index =>
             match cef_globals reference_force !! parameter_index with
             | Some (name, default_value) => cef_addGlobalParameter name default_value force
             | None => force
             end) force (range (length (cef_globals reference_force))) in
  let force :=
    foldl (fun force parameter_index =>
             match cef_perParticle reference_force !! parameter_index with
             | Some name => cef_addPerParticleParameter name force
             | None => force
             end) force (range (length (cef_perParticle reference_force))) in
  foldl (fun force index =>
           match cef_particles reference_force !! index with
           | Some (particle_index, parameters) => cef_addParticle (particle_index, parameters) force
           | None => force
           end) force (range (length (cef_particles reference_force))).

(** Lines 661-674 *)
Definition copyCustomBond (reference_force : CustomBondForce_t)
    (force : CustomBondForce_t) : CustomBondForce_t :=
  let force :=
    foldl (fun force parameter_index =>
             match cbf_globals reference_force !! parameter_index with
             | Some (name, default_value) => cbf_addGlobalParameter name default_value force
             | None => force
             end) force (range (length (cbf_globals reference_force))) in
  let force :=
    foldl (fun force parameter_index =>
             match cbf_perBond reference_force !! parameter_index with
             | Some name => cbf_addPerBondParameter name force
             | None => force
             end) force (range (length (cbf_perBond reference_force))) in
  foldl (fun force index =>
           match cbf_bonds reference_force !! index with
           | Some (particle1, particle2, parameters) =>
               cbf_addBond (particle1, particle2, parameters) force
           | None => force
           end) force (range (length (cbf_bonds reference_force))).

(** Python's [x != 1.0] on floats. *)
Definition float_ne (x y : float) : bool := negb (PrimFloat.eqb x y).

(** The body of the loop over the reference forces (lines 593-680). *)
Definition perturbForce (float_sqr : squaring)
    (system : loc) (ligand_atoms : list Z) (ligand_atomset : gset Z)
    (alchemical_state : AlchemicalState) (reference_force : Force) : M unit :=
  let copy_without_modification :=
    do force <- alloc (OForce reference_force);
    addForce system force in
  match reference_force with
  | PeriodicTorsionForce reference_torsions =>
      do force <- alloc (OForce (PeriodicTorsionForce []));
      do _ <- updateForce force
                (onTorsion (copyTorsions ligand_atomset alchemical_state reference_torsions));
      addForce system force
  | NonbondedForce _ =>
      do force <- alloc (OForce reference_force);
      do _ <- addForce system force;
      do _ <- (if float_ne (ligandElectrostatics alchemical_state) 1.0 then
                 do _ <- updateForce force
                           (onNonbonded (scaleParticleCharges ligand_atomset alchemical_state));
                 mutateForce force
                   (onNonbonded_partial
                      (scaleExceptionChargeProducts float_sqr ligand_atomset alchemical_state))
               else ret tt);
      if float_ne (ligandLennardJones alchemical_state) 1.0 then
        _alchemicallyModifyLennardJones system force ligand_atoms alchemical_state
      else ret tt
  | GBSAOBCForce reference_gb =>
      if float_ne (ligandElectrostatics alchemical_state) 1.0 then
        do s <- readSystem system;
        let particle_lambdas := replicate (length (particleMasses s)) 1%float in
        do particle_lambdas <-
          lift (numpy_setitem particle_lambdas ligand_atoms
                  (Float64.to_float32 (ligandElectrostatics alchemical_state)));
        do custom_force <- _createCustomSoftcoreGBOBC reference_gb particle_lambdas "ACE";
        addForce system custom_force
      else copy_without_modification
  | CustomExternalForce reference_custom =>
      do force <-
        alloc (OForce (CustomExternalForce (new_CustomExternalForce (cef_energy reference_custom))));
      do _ <- updateForce force (onCustomExternal (copyCustomExternal reference_custom));
      addForce system force
  | CustomBondForce reference_custom =>
      do force <-
        alloc (OForce (CustomBondForce (new_CustomBondForce (cbf_energy reference_custom))));
      do _ <- updateForce force (onCustomBond (copyCustomBond reference_custom));
      addForce system force
  | _ => copy_without_modification
  end.

(** [createPerturbedSystem(self, alchemical_state)]; the result is the location
    of the new system. *)
Definition createPerturbedSystem (float_sqr : squaring)
    (self : loc) (alchemical_state : AlchemicalState) : M loc :=
  do factory <- readFactory self;
  do ligand_atoms <- readList (ligand_atoms factory);
  do ligand_atomset <- readSet (ligand_atomset factory);
  do reference_system <- readSystem (reference_system factory);
  do system <- alloc (OSystem new_System);
  do _ <- updateSystem system (setDefaultPeriodicBoxVectors (boxVectors reference_system));
  do _ <- updateSystem system (copyParticles reference_system);
  do _ <- updateSystem system (copyConstraints reference_system);
  do _ <- forM_ (range (length (forces reference_system)))
            (fun force_index =>
               match forces reference_system !! force_index with
               | Some reference_force =>
                   do reference_force <- readForce reference_force;
                   perturbForce float_sqr system ligand_atoms ligand_atomset alchemical_state
                     reference_force
               | None => ret tt
               end);
  ret system.

(** [createPerturbedSystems(self, alchemical_states)] (lines 689-725) *)
Definition createPerturbedSystems (float_sqr : squaring)
    (self : loc) (alchemical_states : list AlchemicalState)
    : M (list loc) :=
  forM (createPerturbedSystem float_sqr self) alchemical_states.

(** ** The loops as list functions *)

Section Loops.

Lemma foldl_rel {A B C} (R : A -> B -> Prop) (f : A -> C -> A) (g : B -> C -> B)
    (xs : list C) (a : A) (b : B) :
  R a b -> (forall a b x, R a b -> R (f a x) (g b x)) ->
  R (foldl f a xs) (foldl g b xs).
Proof.
  intros Hab Hstep. revert a b Hab.
  induction xs as [|x xs IH]; intros a b Hab; simpl; auto.
Qed.

Lemma foldl_ext_eq {A B} (f g : A -> B -> A) (xs : list B) (a : A) :
  (forall a x, f a x = g a x) -> foldl f a xs = foldl g a xs.
Proof.
  intros Hfg. revert a. induction xs as [|x xs IH]; intros a; simpl; [done|].
  by rewrite Hfg, IH.
Qed.

Lemma foldl_seq_lookup {A S} (step : S -> A -> S) (pre l : list A) (s : S) :
  foldl (fun s i => match (pre ++ l) !! i with Some x => step s x | None => s end)
        s (seq (length pre) (length l))
  = foldl step s l.
Proof.
  revert pre s. induction l as [|x l IH]; intros pre s; simpl; [done|].
  rewrite list_lookup_middle by done.
  specialize (IH (pre ++ [x]) (step s x)).
  rewrite <- app_assoc, length_app in IH. simpl in IH.
  rewrite Nat.add_1_r in IH. exact IH.
Qed.

(** [for i in range(len(l)): x = l[i]; s = step(s, x)] visits the elements in
    order. *)
Lemma foldl_range_lookup {A S} (step : S -> A -> S) (l : list A) (s : S) :
  foldl (fun s i => match l !! i with Some x => step s x | None => s end)
        s (range (length l))
  = foldl step s l.
Proof. apply (foldl_seq_lookup step [] l s). Qed.

Lemma foldl_seq_update {A} (g : nat -> A -> A) (pre l : list A) :
  foldl (fun l i => match l !! i with Some x => <[i := g i x]> l | None => l end)
        (pre ++ l) (seq (length pre) (length l))
  = pre ++ imap (fun i => g (length pre + i)) l.
Proof.
  revert pre. induction l as [|x l IH]; intros pre; simpl; [done|].
  rewrite list_lookup_middle by done.
  rewrite insert_app_r_alt by lia. rewrite Nat.sub_diag. simpl.
  specialize (IH (pre ++ [g (length pre) x])).
  rewrite <- app_assoc, length_app in IH. simpl in IH.
  rewrite Nat.add_1_r in IH. rewrite IH, <- app_assoc. simpl.
  rewrite Nat.add_0_r. do 2 f_equal.
  apply imap_ext. intros i y _. simpl. f_equal. lia.
Qed.

(** [for i in range(len(l)): l[i] = g(i, l[i])] is an indexed map. *)
Lemma foldl_range_update {A} (g : nat -> A -> A) (l : list A) :
  foldl (fun l i => match l !! i with Some x => <[i := g i x]> l | None => l end)
        l (range (length l))
  = imap g l.
Proof. apply (foldl_seq_update g [] l). Qed.

Lemma foldl_snoc_map {A B} (g : A -> B) (l : list A) (acc : list B) :
  foldl (fun acc x => acc ++ [g x]) acc l = acc ++ map g l.
Proof.
  revert acc. induction l as [|x l IH]; intros acc; simpl.
  - by rewrite app_nil_r.
  - rewrite IH, <- app_assoc. done.
Qed.

End Loops.

(** The new torsion of the built force for one torsion of the reference. *)
Definition scaleTorsion (ligand_atomset : gset Z) (alchemical_state : AlchemicalState)
    (t : Torsion) : Torsion :=
  let '(particle1, particle2, particle3, particle4, periodicity, phase, k) := t in
  (particle1, particle2, particle3, particle4, periodicity, phase,
   if bool_decide (({[particle1; particle2; particle3; particle4]} : gset Z) ⊆ ligand_atomset)
   then (k * ligandTorsions alchemical_state)%float else k).

Lemma copyTorsions_map ligand_atomset alchemical_state reference_force force :
  copyTorsions ligand_atomset alchemical_state reference_force force
  = force ++ map (scaleTorsion ligand_atomset alchemical_state) reference_force.
Proof.
  unfold copyTorsions.
  rewrite <- foldl_snoc_map.
  rewrite <- (foldl_range_lookup
                (fun acc x => acc ++ [scaleTorsion ligand_atomset alchemical_state x])).
  apply foldl_ext_eq. intros acc i.
  destruct (reference_force !! i) as [[[[[[[p1 p2] p3] p4] per] ph] k]|]; done.
Qed.

Lemma copyParticles_app reference_system system :
  copyParticles reference_system system
  = mkSystem (boxVectors system) (particleMasses system ++ particleMasses reference_system)
             (constraints system) (forces system).
Proof.
  unfold copyParticles.
  rewrite (foldl_range_lookup (fun s m => addParticle m s)).
  generalize (particleMasses reference_system) as ms. intros ms. revert system.
  induction ms as [|m ms IH]; intros system; simpl.
  - rewrite app_nil_r. by destruct system.
  - rewrite IH. simpl. by rewrite <- app_assoc.
Qed.

Lemma copyConstraints_app reference_system system :
  copyConstraints reference_system system
  = mkSystem (boxVectors system) (particleMasses system)
             (constraints system ++ constraints reference_system) (forces system).
Proof.
  unfold copyConstraints.
  transitivity (foldl (fun s c => addConstraint c s) system (constraints reference_system)).
  - rewrite <- (foldl_range_lookup (fun s c => addConstraint c s)).
    apply foldl_ext_eq. intros s i.
    destruct (constraints reference_system !! i) as [[[? ?] ?]|]; done.
  - generalize (constraints reference_system) as cs. intros cs. revert system.
    induction cs as [|c cs IH]; intros system; simpl.
    + rewrite app_nil_r. by destruct system.
    + rewrite IH. simpl. by rewrite <- app_assoc.
Qed.

Lemma foldl_seq_update_emit {A B C} (g : nat -> A -> A)
    (k1 : nat -> A -> list B) (k2 : nat -> A -> list C)
    (pre l : list A) (a1 : list B) (a2 : list C) :
  foldl (fun '(l, a1, a2) i =>
           match l !! i with
           | Some x => (<[i := g i x]> l, a1 ++ k1 i x, a2 ++ k2 i x)
           | None => (l, a1, a2)
           end)
        (pre ++ l, a1, a2) (seq (length pre) (length l))
  = (pre ++ imap (fun i => g (length pre + i)) l,
     a1 ++ concat (imap (fun i => k1 (length pre + i)) l),
     a2 ++ concat (imap (fun i => k2 (length pre + i)) l)).
Proof.
  revert pre a1 a2. induction l as [|x l IH]; intros pre a1 a2; simpl.
  - by rewrite !app_nil_r.
  - rewrite list_lookup_middle by done.
    rewrite insert_app_r_alt by lia. rewrite Nat.sub_diag. simpl.
    specialize (IH (pre ++ [g (length pre) x])
                   (a1 ++ k1 (length pre) x) (a2 ++ k2 (length pre) x)).
    rewrite <- app_assoc, length_app in IH. simpl in IH.
    rewrite Nat.add_1_r in IH. rewrite IH, <- !app_assoc. simpl.
    rewrite Nat.add_0_r.
    assert (Hext : forall {D} (k : nat -> A -> D),
               imap (fun i => k (S (length pre + i))) l
               = imap ((fun i => k (length pre + i)) ∘ S) l).
    { intros D k. apply imap_ext. intros i y _. simpl. f_equal. lia. }
    by rewrite !Hext.
Qed.

(** A loop that rewrites the entries of [l] in place and appends to two other
    lists. *)
Lemma foldl_range_update_emit {A B C} (g : nat -> A -> A)
    (k1 : nat -> A -> list B) (k2 : nat -> A -> list C)
    (l : list A) (a1 : list B) (a2 : list C) :
  foldl (fun '(l, a1, a2) i =>
           match l !! i with
           | Some x => (<[i := g i x]> l, a1 ++ k1 i x, a2 ++ k2 i x)
           | None => (l, a1, a2)
           end)
        (l, a1, a2) (range (length l))
  = (imap g l, a1 ++ concat (imap k1 l), a2 ++ concat (imap k2 l)).
Proof. apply (foldl_seq_update_emit g k1 k2 [] l a1 a2). Qed.

(** *** Electrostatics *)

Definition scaleCharge (ligand_atomset : gset Z) (alchemical_state : AlchemicalState)
    (particle_index : nat) (p : float * float * float) : float * float * float :=
  let '(charge, sigma, epsilon) := p in
  (if bool_decide (Z.of_nat particle_index ∈ ligand_atomset)
   then (charge * ligandElectrostatics alchemical_state)%float else charge,
   sigma, epsilon).

(** The test of lines 626-628: the exception is between two ligand atoms and
    electrostatics are annihilated. *)
Definition squaresChargeProduct (ligand_atomset : gset Z)
    (alchemical_state : AlchemicalState) (e : Z * Z * float * float * float) : bool :=
  let '(iatom, jatom, chargeprod, sigma, epsilon) := e in
  bool_decide (iatom ∈ ligand_atomset) && bool_decide (jatom ∈ ligand_atomset)
  && annihilateElectrostatics alchemical_state.

(** One exception after the loop, [square] being the value of
    [ligandElectrostatics ** 2]. *)
Definition scaleException (ligand_atomset : gset Z) (alchemical_state : AlchemicalState)
    (square : float) (e : Z * Z * float * float * float) : Z * Z * float * float * float :=
  let '(iatom, jatom, chargeprod, sigma, epsilon) := e in
  (iatom, jatom,
   if bool_decide (iatom ∈ ligand_atomset) && bool_decide (jatom ∈ ligand_atomset)
      && annihilateElectrostatics alchemical_state
   then (chargeprod * square)%float
   else chargeprod,
   sigma, epsilon).

Lemma scaleParticleCharges_imap ligand_atomset alchemical_state force :
  scaleParticleCharges ligand_atomset alchemical_state force
  = mkNonbonded (imap (scaleCharge ligand_atomset alchemical_state) (nb_particles force))
                (nb_exceptions force) (nb_method force) (nb_cutoff force)
                (nb_useDispersionCorrection force).
Proof.
  unfold scaleParticleCharges.
  rewrite <- foldl_range_update.
  apply (foldl_rel (fun f l => f = mkNonbonded l (nb_exceptions force) (nb_method force)
                                     (nb_cutoff force) (nb_useDispersionCorrection force))).
  - by destruct force.
  - intros a b i ->. simpl. by destruct (b !! i) as [[[c s] e]|].
Qed.

Lemma foldl_pair_raise {S I} (body : S * result unit -> S -> I -> S * result unit)
    (s : S) (e : exn) (xs : list I) :
  foldl (fun acc i => match acc with
                      | (s, Ok _) => body acc s i
                      | (_, Raise _) => acc
                      end) (s, Raise e) xs
  = (s, Raise e).
Proof. induction xs as [|x xs IH]; simpl; [done|exact IH]. Qed.

Lemma existsb_seq_lookup {A} (P : A -> bool) (pre l : list A) :
  existsb (fun i => match (pre ++ l) !! i with Some x => P x | None => false end)
    (seq (length pre) (length l))
  = existsb P l.
Proof.
  revert pre. induction l as [|x l IH]; intros pre; simpl; [done|].
  rewrite list_lookup_middle by done. f_equal.
  specialize (IH (pre ++ [x])).
  rewrite <- app_assoc, length_app in IH. simpl in IH.
  by rewrite Nat.add_1_r in IH.
Qed.

(** The exception loop: when the square is a value every exception is
    rewritten; when squaring raises, the loop raises at the first exception
    between two ligand atoms (under annihilation), having changed nothing, and
    runs to its end when there is none. *)
Lemma scaleExceptionChargeProducts_spec (float_sqr : squaring)
    ligand_atomset alchemical_state force :
  scaleExceptionChargeProducts float_sqr ligand_atomset alchemical_state force
  = match float_sqr (ligandElectrostatics alchemical_state) with
    | Ok square =>
        (mkNonbonded (nb_particles force)
           (map (scaleException ligand_atomset alchemical_state square)
              (nb_exceptions force))
           (nb_method force) (nb_cutoff force) (nb_useDispersionCorrection force),
         Ok tt)
    | Raise e =>
        (force,
         if existsb (squaresChargeProduct ligand_atomset alchemical_state)
              (nb_exceptions force)
         then Raise e else Ok tt)
    end.
Proof.
  unfold scaleExceptionChargeProducts.
  destruct (float_sqr (ligandElectrostatics alchemical_state)) as [square|e] eqn:Hsqr.
  - rewrite <- (imap_const (scaleException ligand_atomset alchemical_state square)).
    rewrite <- foldl_range_update.
    apply (foldl_rel
             (fun (acc : NonbondedForce_t * result unit) l =>
                acc = (mkNonbonded (nb_particles force) l (nb_method force)
                         (nb_cutoff force) (nb_useDispersionCorrection force), Ok tt))).
    + by destruct force.
    + intros a b i ->. simpl.
      destruct (b !! i) as [[[[[ia ja] cp] sg] ep]|]; [|done]. simpl.
      by destruct (bool_decide (ia ∈ ligand_atomset)), (bool_decide (ja ∈ ligand_atomset)),
           (annihilateElectrostatics alchemical_state).
  - rewrite <- (existsb_seq_lookup _ [] (nb_exceptions force)).
    change (length (@nil (Z * Z * float * float * float))) with 0.
    cbn [app]. unfold range.
    generalize (seq 0 (length (nb_exceptions force))) as xs.
    induction xs as [|x xs IH]; simpl; [done|].
    destruct (nb_exceptions force !! x) as [[[[[ia ja] cp] sg] ep]|] eqn:Hx; [|exact IH].
    simpl.
    destruct (bool_decide (ia ∈ ligand_atomset) && bool_decide (ja ∈ ligand_atomset)
              && annihilateElectrostatics alchemical_state) eqn:Hguard.
    + apply andb_prop in Hguard as [Hlig ->]. rewrite Hlig. simpl.
      apply foldl_pair_raise.
    + replace (if bool_decide (ia ∈ ligand_atomset) && bool_decide (ja ∈ ligand_atomset)
               then if annihilateElectrostatics alchemical_state
                    then @Raise float e else Ok cp
               else Ok cp) with (@Ok float cp)
        by (by destruct (bool_decide (ia ∈ ligand_atomset)),
                 (bool_decide (ja ∈ ligand_atomset)),
                 (annihilateElectrostatics alchemical_state)).
      simpl. unfold nb_setExceptionParameters. rewrite list_insert_id by done.
      by destruct force.
Qed.

(** *** Rebuilt custom forces *)

(** A loop that reads [l] by index and appends each entry to one list-valued
    attribute of the object under construction. *)
Lemma foldl_range_append {A S} (body : S -> nat -> S) (l : list A) (s : S)
    (inj : list A -> S) (acc : list A) :
  s = inj acc ->
  (forall acc i, body (inj acc) i
                 = match l !! i with Some x => inj (acc ++ [x]) | None => inj acc end) ->
  foldl body s (range (length l)) = inj (acc ++ l).
Proof.
  intros -> Hbody.
  transitivity (inj (foldl (fun acc x => acc ++ [x]) acc l)).
  2:{ f_equal. clear. revert acc. induction l as [|x l IH]; intros acc; simpl.
      - by rewrite app_nil_r.
      - by rewrite IH, <- app_assoc. }
  rewrite <- (foldl_range_lookup (fun acc x => acc ++ [x])).
  apply (foldl_rel (fun s acc => s = inj acc)); [done|].
  intros a b i ->. rewrite Hbody. by destruct (l !! i).
Qed.

Lemma copyCustomExternal_id reference_force :
  copyCustomExternal reference_force (new_CustomExternalForce (cef_energy reference_force))
  = reference_force.
Proof.
  unfold copyCustomExternal, new_CustomExternalForce.
  destruct reference_force as [en gl pp ps]. simpl.
  rewrite (foldl_range_append _ gl _ (fun l => mkCustomExternal en l [] []) []);
    [|done|by intros acc i; destruct (gl !! i) as [[? ?]|]].
  rewrite (foldl_range_append _ pp _ (fun l => mkCustomExternal en gl l []) []);
    [|done|by intros acc i; destruct (pp !! i)].
  rewrite (foldl_range_append _ ps _ (fun l => mkCustomExternal en gl pp l) []);
    [|done|by intros acc i; destruct (ps !! i) as [[? ?]|]].
  done.
Qed.

Lemma copyCustomBond_id reference_force :
  copyCustomBond reference_force (new_CustomBondForce (cbf_energy reference_force))
  = reference_force.
Proof.
  unfold copyCustomBond, new_CustomBondForce.
  destruct reference_force as [en gl pp ps]. simpl.
  rewrite (foldl_range_append _ gl _ (fun l => mkCustomBond en l [] []) []);
    [|done|by intros acc i; destruct (gl !! i) as [[? ?]|]].
  rewrite (foldl_range_append _ pp _ (fun l => mkCustomBond en gl l []) []);
    [|done|by intros acc i; destruct (pp !! i)].
  rewrite (foldl_range_append _ ps _ (fun l => mkCustomBond en gl pp l) []);
    [|done|by intros acc i; destruct (ps !! i) as [[[? ?] ?]|]].
  done.
Qed.

(** *** Softcore Lennard-Jones loops *)

Definition zeroLigandEpsilon (alchemical_atom_indices : list Z) (particle_index : nat)
    (p : float * float * float) : float * float * float :=
  let '(charge, sigma, epsilon) := p in
  if bool_decide (Z.of_nat particle_index ∈ alchemical_atom_indices)
  then (charge, sigma, epsilon * 0.0)%float else (charge, sigma, epsilon).

Definition softcoreParticle (alchemical_atom_indices : list Z) (particle_index : nat)
    (p : float * float * float) : list float :=
  let '(charge, sigma, epsilon) := p in
  [sigma; epsilon;
   if bool_decide (Z.of_nat particle_index ∈ alchemical_atom_indices) then 1%float else 0%float].

(** The test of line 403. *)
Definition softcoreException (alchemical_atom_indices : list Z)
    (alchemical_state : AlchemicalState) (e : Z * Z * float * float * float) : bool :=
  let '(iatom, jatom, chargeprod, sigma, epsilon) := e in
  annihilateLennardJones alchemical_state
  && bool_decide (iatom ∈ alchemical_atom_indices)
  && bool_decide (jatom ∈ alchemical_atom_indices).

Definition zeroExceptionEpsilon (alchemical_atom_indices : list Z)
    (alchemical_state : AlchemicalState) (e : Z * Z * float * float * float)
    : Z * Z * float * float * float :=
  let '(iatom, jatom, chargeprod, sigma, epsilon) := e in
  if softcoreException alchemical_atom_indices alchemical_state e
  then (iatom, jatom, chargeprod, sigma, epsilon * 0.0)%float else e.

Definition exceptionPair (e : Z * Z * float * float * float) : Z * Z :=
  let '(iatom, jatom, chargeprod, sigma, epsilon) := e in (iatom, jatom).

Definition exceptionBond (alchemical_atom_indices : list Z)
    (alchemical_state : AlchemicalState) (e : Z * Z * float * float * float)
    : list (Z * Z * list float) :=
  let '(iatom, jatom, chargeprod, sigma, epsilon) := e in
  if softcoreException alchemical_atom_indices alchemical_state e
  then [(iatom, jatom, [sigma; epsilon])] else [].

Lemma imap_ignore {A B} (f : A -> B) (l : list A) : imap (fun _ => f) l = map f l.
Proof. induction l as [|x l IH]; simpl; [done|]. f_equal. apply IH. Qed.

Lemma concat_imap_singleton {A B} (k : nat -> A -> B) (l : list A) :
  concat (imap (fun i x => [k i x]) l) = imap k l.
Proof.
  revert k. induction l as [|x l IH]; intros k; simpl; [done|].
  f_equal. apply (IH (k ∘ S)).
Qed.

Lemma copyLennardJonesParticles_spec alchemical_atom_indices nb cn :
  copyLennardJonesParticles alchemical_atom_indices (nb, cn)
  = (mkNonbonded (imap (zeroLigandEpsilon alchemical_atom_indices) (nb_particles nb))
       (nb_exceptions nb) (nb_method nb) (nb_cutoff nb) (nb_useDispersionCorrection nb),
     mkCustomNonbonded (cnf_energy cn) (cnf_globals cn) (cnf_perParticle cn)
       (cnf_particles cn ++ imap (softcoreParticle alchemical_atom_indices) (nb_particles nb))
       (cnf_exclusions cn) (cnf_method cn) (cnf_cutoff cn)).
Proof.
  unfold copyLennardJonesParticles. simpl.
  pose proof (foldl_range_update_emit
                (zeroLigandEpsilon alchemical_atom_indices)
                (fun i p => [softcoreParticle alchemical_atom_indices i p])
                (fun _ _ => @nil unit) (nb_particles nb) [] []) as Hloop.
  cbv beta in Hloop.
  set (R := fun (s : NonbondedForce_t * CustomNonbondedForce_t)
                (t : list (float * float * float) * list (list float) * list unit) =>
              s.1 = mkNonbonded t.1.1 (nb_exceptions nb) (nb_method nb) (nb_cutoff nb)
                      (nb_useDispersionCorrection nb)
              /\ s.2 = mkCustomNonbonded (cnf_energy cn) (cnf_globals cn) (cnf_perParticle cn)
                         (cnf_particles cn ++ t.1.2)
                         (cnf_exclusions cn) (cnf_method cn) (cnf_cutoff cn)).
  match goal with
  | |- foldl ?f ?a ?xs = _ =>
      match type of Hloop with
      | foldl ?g ?b _ = _ => assert (HR : R (foldl f a xs) (foldl g b xs))
      end
  end.
  { apply foldl_rel.
    - split; simpl; [by destruct nb|]. rewrite app_nil_r. by destruct cn.
    - intros [a1 a2] [[l e1] e2] i [H1 H2]. simpl in *. subst a1 a2. simpl.
      destruct (l !! i) as [[[c s] e]|] eqn:Hl; [|done].
      unfold zeroLigandEpsilon, softcoreParticle.
      destruct (bool_decide (Z.of_nat i ∈ alchemical_atom_indices)); simpl.
      + split; [done|]. unfold cnf_addParticle. simpl. by rewrite <- app_assoc.
      + split.
        * by rewrite list_insert_id.
        * unfold cnf_addParticle. simpl. by rewrite <- app_assoc. }
  rewrite Hloop in HR. clear Hloop. destruct HR as [H1 H2]. simpl in H1, H2.
  destruct (foldl _ (nb, cn) _) as [nb' cn']. simpl in *. subst nb' cn'.
  by rewrite concat_imap_singleton.
Qed.

Lemma excludeExceptions_spec alchemical_atom_indices alchemical_state nb cn cb :
  excludeExceptions alchemical_atom_indices alchemical_state (nb, cn, cb)
  = (mkNonbonded (nb_particles nb)
       (map (zeroExceptionEpsilon alchemical_atom_indices alchemical_state) (nb_exceptions nb))
       (nb_method nb) (nb_cutoff nb) (nb_useDispersionCorrection nb),
     mkCustomNonbonded (cnf_energy cn) (cnf_globals cn) (cnf_perParticle cn)
       (cnf_particles cn)
       (cnf_exclusions cn ++ map exceptionPair (nb_exceptions nb))
       (cnf_method cn) (cnf_cutoff cn),
     (fun b => mkCustomBond (cbf_energy b) (cbf_globals b) (cbf_perBond b)
                 (cbf_bonds b
                  ++ concat (map (exceptionBond alchemical_atom_indices alchemical_state)
                               (nb_exceptions nb)))) <$> cb).
Proof.
  unfold excludeExceptions. simpl.
  pose proof (foldl_range_update_emit
                (fun _ => zeroExceptionEpsilon alchemical_atom_indices alchemical_state)
                (fun _ e => [exceptionPair e])
                (fun _ => exceptionBond alchemical_atom_indices alchemical_state)
                (nb_exceptions nb) [] []) as Hloop.
  cbv beta in Hloop.
  set (R := fun (s : NonbondedForce_t * CustomNonbondedForce_t * option CustomBondForce_t)
                (t : list (Z * Z * float * float * float) * list (Z * Z)
                     * list (Z * Z * list float)) =>
              s.1.1 = mkNonbonded (nb_particles nb) t.1.1 (nb_method nb) (nb_cutoff nb)
                        (nb_useDispersionCorrection nb)
              /\ s.1.2 = mkCustomNonbonded (cnf_energy cn) (cnf_globals cn)
                           (cnf_perParticle cn) (cnf_particles cn)
                           (cnf_exclusions cn ++ t.1.2) (cnf_method cn) (cnf_cutoff cn)
              /\ s.2 = (fun b => mkCustomBond (cbf_energy b) (cbf_globals b) (cbf_perBond b)
                                   (cbf_bonds b ++ t.2)) <$> cb).
  match goal with
  | |- foldl ?f ?a ?xs = _ =>
      match type of Hloop with
      | foldl ?g ?b _ = _ => assert (HR : R (foldl f a xs) (foldl g b xs))
      end
  end.
  { apply foldl_rel.
    - repeat split; simpl; [by destruct nb|rewrite app_nil_r; by destruct cn|].
      destruct cb as [[? ? ? ?]|]; simpl; [|done]. by rewrite app_nil_r.
    - intros [[a1 a2] a3] [[l e1] e2] i (H1 & H2 & H3). simpl in *. subst a1 a2 a3. simpl.
      destruct (l !! i) as [[[[[ia ja] cp] s] e]|] eqn:Hl; [|done].
      unfold zeroExceptionEpsilon, exceptionBond, softcoreException, exceptionPair.
      destruct (annihilateLennardJones alchemical_state
                && bool_decide (ia ∈ alchemical_atom_indices)
                && bool_decide (ja ∈ alchemical_atom_indices)); simpl.
      + repeat split; [unfold cnf_addExclusion; simpl; by rewrite <- app_assoc|].
        destruct cb as [b|]; simpl; [|done].
        unfold cbf_addBond. simpl. by rewrite <- app_assoc.
      + repeat split.
        * by rewrite list_insert_id.
        * unfold cnf_addExclusion. simpl. by rewrite <- app_assoc.
        * by rewrite app_nil_r. }
  rewrite Hloop in HR. clear Hloop. destruct HR as (H1 & H2 & H3). simpl in H1, H2, H3.
  destruct (foldl _ (nb, cn, cb) _) as [[nb' cn'] cb']. simpl in *. subst nb' cn' cb'.
  rewrite (concat_imap_singleton (fun _ => exceptionPair)).
  by rewrite !imap_ignore.
Qed.

(** ** Functional summary of the build

    [perturbedForces] lists, for one force of the reference, the forces the
    loop body adds to the new system; [perturbForce_run] below proves that the
    heap-level loop body computes exactly this. *)

Definition softcoreNonbondedTemplate (alchemical_state : AlchemicalState)
    : CustomNonbondedForce_t :=
  cnf_addPerParticleParameter "alchemical"
    (cnf_addPerParticleParameter "epsilon"
       (cnf_addPerParticleParameter "sigma"
          (cnf_addGlobalParameter "lennard_jones_lambda"
             (ligandLennardJones alchemical_state)
             (new_CustomNonbondedForce
                (softcore_energy_expression (annihilateLennardJones alchemical_state)))))).

Definition softcoreBondTemplate (alchemical_state : AlchemicalState) : CustomBondForce_t :=
  cbf_addPerBondParameter "epsilon"
    (cbf_addPerBondParameter "sigma"
       (cbf_addGlobalParameter "lennard_jones_lambda" (ligandLennardJones alchemical_state)
          (new_CustomBondForce softcore_bond_energy_expression))).

(** The three objects [_alchemicallyModifyLennardJones] leaves behind: the
    modified nonbonded force, the softcore pair force and, under annihilation,
    the softcore bond force. *)
Definition softcoreLennardJones (alchemical_atom_indices : list Z)
    (alchemical_state : AlchemicalState) (nb : NonbondedForce_t)
    : NonbondedForce_t * CustomNonbondedForce_t * option CustomBondForce_t :=
  let cb := if annihilateLennardJones alchemical_state
            then Some (softcoreBondTemplate alchemical_state) else None in
  let '(nb, cn) :=
    copyLennardJonesParticles alchemical_atom_indices
      (nb, softcoreNonbondedTemplate alchemical_state) in
  let '(nb, cn, cb) :=
    excludeExceptions alchemical_atom_indices alchemical_state (nb, cn, cb) in
  (nb, copyNonbondedMethod nb cn, cb).

Definition softcoreGBTemplate (reference_force : GBSAOBCForce_t) (sasa_model : string)
    : CustomGBForce_t :=
  let custom := new_CustomGBForce in
  let custom := cgb_addPerParticleParameter "q" custom in
  let custom := cgb_addPerParticleParameter "radius" custom in
  let custom := cgb_addPerParticleParameter "scale" custom in
  let custom := cgb_addPerParticleParameter "lambda" custom in
  let custom := cgb_setNonbondedMethod (gb_method reference_force) custom in
  let custom := cgb_setCutoffDistance (gb_cutoff reference_force) custom in
  let custom :=
    cgb_addGlobalParameter "solventDielectric" (gb_solventDielectric reference_force) custom in
  let custom :=
    cgb_addGlobalParameter "soluteDielectric" (gb_soluteDielectric reference_force) custom in
  let custom := cgb_addGlobalParameter "offset" 0.009%float custom in
  let custom :=
    cgb_addComputedValue "I"
      ("lambda2*step(r+sr2-or1)*0.5*(1/L-1/U+0.25*(r-sr2^2/r)*(1/(U^2)-1/(L^2))+0.5*log(L/U)/r);"
       +:+ "U=r+sr2;"
       +:+ "L=max(or1, D);"
       +:+ "D=abs(r-sr2);"
       +:+ "sr2 = scale2*or2;"
       +:+ "or1 = radius1-offset; or2 = radius2-offset")
      ParticlePairNoExclusions custom in
  let custom :=
    cgb_addComputedValue "B"
      ("1/(1/or-tanh(psi-0.8*psi^2+4.85*psi^3)/radius);"
       +:+ "psi=I*or; or=radius-offset")
      SingleParticle custom in
  let custom :=
    cgb_addEnergyTerm "-0.5*138.935485*(1/soluteDielectric-1/solventDielectric)*q^2/B"
      SingleParticle custom in
  let custom :=
    if String.eqb sasa_model "ACE"
    then cgb_addEnergyTerm "lambda*28.3919551*(radius+0.14)^2*(radius/B)^6"
           SingleParticle custom
    else custom in
  cgb_addEnergyTerm
    ("-138.935485*(1/soluteDielectric-1/solventDielectric)*q1*q2/f;"
     +:+ "f=sqrt(r^2+B1*B2*exp(-r^2/(4*B1*B2)))")
    ParticlePairNoExclusions custom.

Definition softcoreGB (ligand_atoms : list Z) (alchemical_state : AlchemicalState)
    (numParticles : nat) (reference_force : GBSAOBCForce_t) : result CustomGBForce_t :=
  match numpy_setitem (replicate numParticles 1%float) ligand_atoms
          (Float64.to_float32 (ligandElectrostatics alchemical_state)) with
  | Ok particle_lambdas =>
      addSoftcoreGBParticles reference_force particle_lambdas
        (softcoreGBTemplate reference_force "ACE")
  | Raise e => Raise e
  end.

Definition scaleElectrostatics (float_sqr : squaring)
    (ligand_atomset : gset Z) (alchemical_state : AlchemicalState)
    (nb : NonbondedForce_t) : result NonbondedForce_t :=
  if float_ne (ligandElectrostatics alchemical_state) 1.0
  then match scaleExceptionChargeProducts float_sqr ligand_atomset alchemical_state
               (scaleParticleCharges ligand_atomset alchemical_state nb) with
       | (nb, Ok _) => Ok nb
       | (_, Raise e) => Raise e
       end
  else Ok nb.

Definition perturbedForces (float_sqr : squaring) (ligand_atoms : list Z) (ligand_atomset : gset Z)
    (alchemical_state : AlchemicalState) (numParticles : nat) (reference_force : Force)
    : result (list Force) :=
  match reference_force with
  | PeriodicTorsionForce reference_torsions =>
      Ok [PeriodicTorsionForce
            (copyTorsions ligand_atomset alchemical_state reference_torsions [])]
  | NonbondedForce nb =>
      match scaleElectrostatics float_sqr ligand_atomset alchemical_state nb with
      | Ok nb =>
          if float_ne (ligandLennardJones alchemical_state) 1.0 then
            let '(nb, cn, cb) := softcoreLennardJones ligand_atoms alchemical_state nb in
            Ok (NonbondedForce nb :: CustomNonbondedForce cn
                  :: match cb with Some b => [CustomBondForce b] | None => [] end)
          else Ok [NonbondedForce nb]
      | Raise e => Raise e
      end
  | GBSAOBCForce reference_gb =>
      if float_ne (ligandElectrostatics alchemical_state) 1.0 then
        match softcoreGB ligand_atoms alchemical_state numParticles reference_gb with
        | Ok custom => Ok [CustomGBForce custom]
        | Raise e => Raise e
        end
      else Ok [reference_force]
  | CustomExternalForce reference_custom =>
      Ok [CustomExternalForce
            (copyCustomExternal reference_custom
               (new_CustomExternalForce (cef_energy reference_custom)))]
  | CustomBondForce reference_custom =>
      Ok [CustomBondForce
            (copyCustomBond reference_custom
               (new_CustomBondForce (cbf_energy reference_custom)))]
  | _ => Ok [reference_force]
  end.

(** The forces of the built system: the outputs for the reference forces in
    order, up to the first one that raises. *)
Fixpoint builtForces (float_sqr : squaring) (ligand_atoms : list Z) (ligand_atomset : gset Z)
    (alchemical_state : AlchemicalState) (numParticles : nat)
    (reference_forces : list Force) : result (list Force) :=
  match reference_forces with
  | [] => Ok []
  | f :: fs =>
      match perturbedForces float_sqr ligand_atoms ligand_atomset alchemical_state numParticles f with
      | Ok out =>
          match builtForces float_sqr ligand_atoms ligand_atomset alchemical_state numParticles fs with
          | Ok rest => Ok (out ++ rest)
          | Raise e => Raise e
          end
      | Raise e => Raise e
      end
  end.

(** ** Running the heap operations *)

Section Run.

Lemma bind_ok {A B} (m : M A) (c : A -> M B) (h h' : heap) (v : A) :
  m h = (h', Ok v) -> bind m c h = c v h'.
Proof. unfold bind. by intros ->. Qed.

Lemma bind_raise {A B} (m : M A) (c : A -> M B) (h h' : heap) (e : exn) :
  m h = (h', Raise e) -> bind m c h = (h', Raise e).
Proof. unfold bind. by intros ->. Qed.

Lemma run_alloc (hp L : list obj) (n : nat) (o : obj) :
  length hp = n -> alloc o (hp ++ L) = (hp ++ (L ++ [o]), Ok (n + length L)).
Proof. intros <-. unfold alloc. by rewrite length_app, app_assoc. Qed.

Lemma run_updateForce (hp L : list obj) (n k : nat) (g : Force -> result Force)
    (f f' : Force) :
  length hp = n -> L !! k = Some (OForce f) -> g f = Ok f' ->
  updateForce (n + k) g (hp ++ L) = (hp ++ <[k := OForce f']> L, Ok tt).
Proof.
  intros <- Hk Hg. unfold updateForce.
  rewrite lookup_app_r by lia.
  replace (length hp + k - length hp) with k by lia. rewrite Hk, Hg.
  rewrite insert_app_r_alt by lia.
  by replace (length hp + k - length hp) with k by lia.
Qed.

Lemma run_updateForce_raise (hp L : list obj) (n k : nat) (g : Force -> result Force)
    (f : Force) (e : exn) :
  length hp = n -> L !! k = Some (OForce f) -> g f = Raise e ->
  updateForce (n + k) g (hp ++ L) = (hp ++ L, Raise e).
Proof.
  intros <- Hk Hg. unfold updateForce.
  rewrite lookup_app_r by lia.
  replace (length hp + k - length hp) with k by lia. by rewrite Hk, Hg.
Qed.

Lemma run_mutateForce (hp L : list obj) (n k : nat) (g : Force -> Force * result unit)
    (f f' : Force) (r : result unit) :
  length hp = n -> L !! k = Some (OForce f) -> g f = (f', r) ->
  mutateForce (n + k) g (hp ++ L) = (hp ++ <[k := OForce f']> L, r).
Proof.
  intros <- Hk Hg. unfold mutateForce.
  rewrite lookup_app_r by lia.
  replace (length hp + k - length hp) with k by lia. rewrite Hk, Hg.
  rewrite insert_app_r_alt by lia.
  by replace (length hp + k - length hp) with k by lia.
Qed.

Lemma run_readForce (hp L : list obj) (n k : nat) (f : Force) :
  length hp = n -> L !! k = Some (OForce f) ->
  readForce (n + k) (hp ++ L) = (hp ++ L, Ok f).
Proof.
  intros <- Hk. unfold readForce.
  rewrite lookup_app_r by lia.
  replace (length hp + k - length hp) with k by lia. by rewrite Hk.
Qed.

Definition withForce (s : System loc) (force : loc) : System loc :=
  mkSystem (boxVectors s) (particleMasses s) (constraints s) (forces s ++ [force]).

Lemma run_updateSystem (h0 X L : list obj) (s : System loc) (g : System loc -> System loc) :
  updateSystem (length h0) g ((h0 ++ OSystem s :: X) ++ L)
  = ((h0 ++ OSystem (g s) :: X) ++ L, Ok tt).
Proof.
  unfold updateSystem.
  rewrite <- !app_assoc, <- !app_comm_cons. rewrite list_lookup_middle by done.
  rewrite insert_app_r_alt by lia. by rewrite Nat.sub_diag.
Qed.

Lemma run_addForce (h0 X L : list obj) (s : System loc) (force : loc) :
  addForce (length h0) force ((h0 ++ OSystem s :: X) ++ L)
  = ((h0 ++ OSystem (withForce s force) :: X) ++ L, Ok tt).
Proof. apply run_updateSystem. Qed.

Lemma run_readSystem (h0 X L : list obj) (s : System loc) :
  readSystem (length h0) ((h0 ++ OSystem s :: X) ++ L)
  = ((h0 ++ OSystem s :: X) ++ L, Ok s).
Proof.
  unfold readSystem. rewrite <- !app_assoc, <- !app_comm_cons.
  by rewrite list_lookup_middle.
Qed.

Lemma length_sysframe (h0 X : list obj) (s : System loc) :
  length (h0 ++ OSystem s :: X) = length h0 + S (length X).
Proof. by rewrite length_app. Qed.

End Run.

(** ** The loop body computes [perturbedForces] *)

Definition withForces (s : System loc) (first count : nat) : System loc :=
  mkSystem (boxVectors s) (particleMasses s) (constraints s) (forces s ++ seq first count).

Lemma run_readNonbonded (hp L : list obj) (n k : nat) (x : NonbondedForce_t) :
  length hp = n -> L !! k = Some (OForce (NonbondedForce x)) ->
  readNonbonded (n + k) (hp ++ L) = (hp ++ L, Ok x).
Proof.
  intros Hn Hk. unfold readNonbonded.
  by erewrite bind_ok by (by apply run_readForce).
Qed.

Lemma run_readCustomNonbonded (hp L : list obj) (n k : nat) (x : CustomNonbondedForce_t) :
  length hp = n -> L !! k = Some (OForce (CustomNonbondedForce x)) ->
  readCustomNonbonded (n + k) (hp ++ L) = (hp ++ L, Ok x).
Proof.
  intros Hn Hk. unfold readCustomNonbonded.
  by erewrite bind_ok by (by apply run_readForce).
Qed.

Lemma run_readCustomBond (hp L : list obj) (n k : nat) (x : CustomBondForce_t) :
  length hp = n -> L !! k = Some (OForce (CustomBondForce x)) ->
  readCustomBond (n + k) (hp ++ L) = (hp ++ L, Ok x).
Proof.
  intros Hn Hk. unfold readCustomBond.
  by erewrite bind_ok by (by apply run_readForce).
Qed.

Ltac run_op :=
  first
    [ eapply run_alloc; apply length_sysframe
    | eapply run_updateForce; [apply length_sysframe | reflexivity | reflexivity]
    | apply run_addForce
    | apply run_readSystem
    | eapply run_readNonbonded; [apply length_sysframe | reflexivity]
    | eapply run_readCustomNonbonded; [apply length_sysframe | reflexivity]
    | eapply run_readCustomBond; [apply length_sysframe | reflexivity]
    | eapply run_readForce; [apply length_sysframe | reflexivity]
    | reflexivity ].

Lemma bind_assoc {A B C} (m : M A) (k1 : A -> M B) (k2 : B -> M C) (h : heap) :
  bind (bind m k1) k2 h = bind m (fun x => bind (k1 x) k2) h.
Proof. unfold bind. by destruct (m h) as [h' [a|e]]. Qed.

Ltac run_step :=
  first [ rewrite bind_assoc | erewrite bind_ok; [|run_op] ];
  cbn [length app insert list_insert].

Ltac run_done :=
  rewrite <- ?app_assoc, <- ?app_comm_cons;
  unfold withForce, withForces; cbn [forces boxVectors particleMasses constraints];
  rewrite <- ?app_assoc; cbn [app seq length Nat.add fmap list_fmap map];
  rewrite ?Nat.add_0_r;
  repeat (f_equal; try lia).

Lemma run_from_frame {A} (m : M A) (hp : list obj) (r : heap * result A) :
  m (hp ++ []) = r -> m hp = r.
Proof. by rewrite app_nil_r. Qed.

Lemma perturbForce_run_copy (h0 X : list obj) (s : System loc) (f : Force) :
  (do force <- alloc (OForce f); addForce (length h0) force) (h0 ++ OSystem s :: X)
  = (h0 ++ OSystem (withForces s (length h0 + S (length X)) 1) :: (X ++ [OForce f]), Ok tt).
Proof.
  rewrite <- (app_nil_r (h0 ++ OSystem s :: X)) at 1.
  run_step. rewrite run_addForce. run_done.
Qed.

Lemma alchemicallyModifyLennardJones_run (h0 X : list obj) (s : System loc)
    (nb : NonbondedForce_t) (ligand_atoms : list Z) (alchemical_state : AlchemicalState) :
  _alchemicallyModifyLennardJones (length h0) (length h0 + S (length X) + 0)
    ligand_atoms alchemical_state
    ((h0 ++ OSystem s :: X) ++ [OForce (NonbondedForce nb)])
  = let '(nb', cn, cb) := softcoreLennardJones ligand_atoms alchemical_state nb in
    let extra := match cb with Some b => [CustomBondForce b] | None => [] end in
    ((h0 ++ OSystem (withForces s (length h0 + S (length X) + 1) (1 + length extra)) :: X)
       ++ map OForce (NonbondedForce nb' :: CustomNonbondedForce cn :: extra),
     Ok tt).
Proof.
  unfold _alchemicallyModifyLennardJones, softcoreLennardJones.
  unfold softcoreNonbondedTemplate, softcoreBondTemplate.
  rewrite !copyLennardJonesParticles_spec, !excludeExceptions_spec.
  repeat run_step.
  destruct (annihilateLennardJones alchemical_state) eqn:Hann.
  - repeat run_step.
    rewrite copyLennardJonesParticles_spec, excludeExceptions_spec. cbn iota.
    unfold writeForce. cbn [fmap option_fmap option_map].
    repeat run_step.
    etrans; [run_op|]. cbn [length app insert list_insert].
    run_done.
  - repeat run_step.
    rewrite copyLennardJonesParticles_spec, excludeExceptions_spec. cbn iota.
    unfold writeForce. cbn [fmap option_fmap option_map].
    repeat run_step.
    unfold ret. run_done.
Qed.

Lemma createCustomSoftcoreGBOBC_run (h0 X : list obj) (s : System loc)
    (reference_force : GBSAOBCForce_t) (particle_lambdas : list float) (sasa_model : string) :
  _createCustomSoftcoreGBOBC reference_force particle_lambdas sasa_model
    ((h0 ++ OSystem s :: X) ++ [])
  = match addSoftcoreGBParticles reference_force particle_lambdas
            (softcoreGBTemplate reference_force sasa_model) with
    | Ok custom =>
        ((h0 ++ OSystem s :: X) ++ [OForce (CustomGBForce custom)],
         Ok (length h0 + S (length X) + 0))
    | Raise e =>
        ((h0 ++ OSystem s :: X)
           ++ [OForce (CustomGBForce (softcoreGBTemplate reference_force sasa_model))],
         Raise e)
    end.
Proof.
  unfold _createCustomSoftcoreGBOBC, softcoreGBTemplate.
  repeat run_step.
  destruct (String.eqb sasa_model "ACE"); repeat run_step.
  - match goal with
    | |- context [addSoftcoreGBParticles ?r ?l ?c] =>
        destruct (addSoftcoreGBParticles r l c) as [custom|e] eqn:Hloop
    end.
    + repeat run_step.
      erewrite bind_ok;
        [|eapply run_updateForce;
          [apply length_sysframe|reflexivity|simpl; by rewrite Hloop]].
      reflexivity.
    + erewrite bind_raise;
        [|eapply run_updateForce_raise;
          [apply length_sysframe|reflexivity|simpl; by rewrite Hloop]].
      reflexivity.
  - match goal with
    | |- context [addSoftcoreGBParticles ?r ?l ?c] =>
        destruct (addSoftcoreGBParticles r l c) as [custom|e] eqn:Hloop
    end.
    + erewrite bind_ok;
        [|eapply run_updateForce;
          [apply length_sysframe|reflexivity|simpl; by rewrite Hloop]].
      reflexivity.
    + erewrite bind_raise;
        [|eapply run_updateForce_raise;
          [apply length_sysframe|reflexivity|simpl; by rewrite Hloop]].
      reflexivity.
Qed.

Lemma perturbForce_run (float_sqr : squaring)
    (h0 X : list obj) (s : System loc) (ligand_atoms : list Z)
    (ligand_atomset : gset Z) (alchemical_state : AlchemicalState) (f : Force) :
  match perturbedForces float_sqr ligand_atoms ligand_atomset alchemical_state
          (length (particleMasses s)) f with
  | Ok out =>
      perturbForce float_sqr (length h0) ligand_atoms ligand_atomset alchemical_state f
        (h0 ++ OSystem s :: X)
      = (h0 ++ OSystem (withForces s (length h0 + S (length X)) (length out))
            :: (X ++ map OForce out),
         Ok tt)
  | Raise e =>
      exists s' G,
        perturbForce float_sqr (length h0) ligand_atoms ligand_atomset alchemical_state f
          (h0 ++ OSystem s :: X)
        = (h0 ++ OSystem s' :: (X ++ G), Raise e)
  end.
Proof.
  assert (Hcopy : forall f',
    (do force <- alloc (OForce f'); addForce (length h0) force) (h0 ++ OSystem s :: X)
    = (h0 ++ OSystem (withForces s (length h0 + S (length X)) (length [f']))
          :: (X ++ map OForce [f']), Ok tt)).
  { intros f'. apply perturbForce_run_copy. }
  destruct f as [ts|nb|gb|ce|cb|cn|cg|name st]; cbn [perturbedForces];
    try (apply Hcopy).
  - (* PeriodicTorsionForce *)
    unfold perturbForce. apply run_from_frame.
    repeat run_step. rewrite run_addForce. run_done.
  - (* NonbondedForce *)
    unfold perturbForce, scaleElectrostatics.
    destruct (float_ne (ligandElectrostatics alchemical_state) 1) eqn:Hle.
    + destruct (scaleExceptionChargeProducts float_sqr ligand_atomset alchemical_state
                  (scaleParticleCharges ligand_atomset alchemical_state nb))
        as [nb2 [[]|e]] eqn:Hexc.
      * assert (Hmut : forall Y o,
          mutateForce (length h0 + S (length X) + 0)
            (onNonbonded_partial
               (scaleExceptionChargeProducts float_sqr ligand_atomset alchemical_state))
            ((h0 ++ OSystem o :: X)
               ++ OForce (NonbondedForce
                            (scaleParticleCharges ligand_atomset alchemical_state nb)) :: Y)
          = ((h0 ++ OSystem o :: X) ++ OForce (NonbondedForce nb2) :: Y, Ok tt)).
        { intros Y o.
          etrans; [eapply run_mutateForce;
                   [apply length_sysframe|reflexivity
                   |cbn [onNonbonded_partial]; by rewrite Hexc]|].
          reflexivity. }
        destruct (float_ne (ligandLennardJones alchemical_state) 1) eqn:Hlj.
        -- destruct (softcoreLennardJones _ _ _) as [[nb' cn] cb] eqn:Hsc.
           apply run_from_frame. repeat run_step.
           rewrite (bind_ok _ _ _ _ _ (Hmut [] _)).
           rewrite alchemicallyModifyLennardJones_run, Hsc.
           destruct cb as [b|]; run_done.
        -- apply run_from_frame. repeat run_step.
           rewrite (bind_ok _ _ _ _ _ (Hmut [] _)).
           unfold ret. run_done.
      * eexists _, _. apply run_from_frame. repeat run_step.
        erewrite bind_raise;
          [|eapply run_mutateForce; [apply length_sysframe|reflexivity|];
            cbn [onNonbonded_partial]; by rewrite Hexc].
        cbn [length app insert list_insert].
        rewrite <- app_assoc, <- app_comm_cons. reflexivity.
    + destruct (float_ne (ligandLennardJones alchemical_state) 1) eqn:Hlj.
      * destruct (softcoreLennardJones _ _ _) as [[nb' cn] cb] eqn:Hsc.
        apply run_from_frame. repeat run_step.
        rewrite alchemicallyModifyLennardJones_run, Hsc.
        destruct cb as [b|]; run_done.
      * apply run_from_frame. repeat run_step. unfold ret. run_done.
  - (* GBSAOBCForce *)
    unfold perturbForce, softcoreGB.
    destruct (float_ne (ligandElectrostatics alchemical_state) 1) eqn:Hle;
      [|apply Hcopy].
    destruct (numpy_setitem _ _ _) as [particle_lambdas|e] eqn:Hset.
    + destruct (addSoftcoreGBParticles _ _ _) as [custom|e] eqn:Hloop.
      * apply run_from_frame. run_step. unfold lift at 1. rewrite Hset.
        run_step. unfold bind at 1.
        rewrite createCustomSoftcoreGBOBC_run, Hloop.
        rewrite run_addForce. run_done.
      * eexists _, _. apply run_from_frame. run_step. unfold lift at 1. rewrite Hset.
        run_step. unfold bind at 1.
        rewrite createCustomSoftcoreGBOBC_run, Hloop.
        rewrite <- app_assoc, <- app_comm_cons. reflexivity.
    + exists s, []. apply run_from_frame. run_step. unfold lift at 1. rewrite Hset.
      erewrite bind_raise by reflexivity. by rewrite !app_nil_r.
  - (* CustomExternalForce *)
    unfold perturbForce. apply run_from_frame.
    repeat run_step. rewrite run_addForce. run_done.
  - (* CustomBondForce *)
    unfold perturbForce. apply run_from_frame.
    repeat run_step. rewrite run_addForce. run_done.
Qed.

(** ** The whole build *)

(** [factoryAt h self R ligand] : at [self] the heap holds a factory whose
    reference system has the value [R] and whose ligand list is [ligand]. *)
Definition factoryAt (h : heap) (self : loc) (R : System Force) (ligand : list Z) : Prop :=
  exists fac,
    h !! self = Some (OFactory fac)
    /\ h !! ligand_atoms fac = Some (OList ligand)
    /\ h !! ligand_atomset fac = Some (OSet (list_to_set ligand))
    /\ snapshot h (reference_system fac) = Some R.

Lemma forM__seq_lookup {A} (body : A -> M unit) (pre l : list A) (h : heap) :
  forM_ (seq (length pre) (length l))
        (fun i => match (pre ++ l) !! i with Some x => body x | None => ret tt end) h
  = forM_ l body h.
Proof.
  revert pre h. induction l as [|x l IH]; intros pre h; simpl; [done|].
  rewrite list_lookup_middle by done.
  unfold bind. destruct (body x h) as [h' [[]|e]]; [|done].
  specialize (IH (pre ++ [x]) h').
  rewrite <- app_assoc, length_app in IH. simpl in IH.
  rewrite Nat.add_1_r in IH. exact IH.
Qed.

Lemma forM__range_lookup {A} (body : A -> M unit) (l : list A) (h : heap) :
  forM_ (range (length l))
        (fun i => match l !! i with Some x => body x | None => ret tt end) h
  = forM_ l body h.
Proof. apply (forM__seq_lookup body [] l h). Qed.

Lemma withForces_withForces (s : System loc) (first n1 n2 : nat) :
  withForces (withForces s first n1) (first + n1) n2 = withForces s first (n1 + n2).
Proof.
  unfold withForces. simpl. f_equal. by rewrite <- app_assoc, <- seq_app.
Qed.

Lemma mapM_lookupForce (h : heap) (ls : list loc) (fs : list Force) :
  mapM (lookupForce h) ls = Some fs ->
  Forall2 (fun l f => h !! l = Some (OForce f)) ls fs.
Proof.
  intros H. apply mapM_Some in H.
  eapply Forall2_impl; [exact H|].
  intros l f. unfold lookupForce.
  destruct (h !! l) as [[]|]; naive_solver.
Qed.

Lemma forces_loop_run (float_sqr : squaring)
    (h0 : list obj) (ligand_atoms : list Z) (ligand_atomset : gset Z)
    (alchemical_state : AlchemicalState) (ls : list loc) (fs : list Force) :
  Forall2 (fun l f => h0 !! l = Some (OForce f)) ls fs ->
  forall (X : list obj) (s : System loc),
  match builtForces float_sqr ligand_atoms ligand_atomset alchemical_state
          (length (particleMasses s)) fs with
  | Ok F =>
      forM_ ls (fun reference_force =>
                  do reference_force <- readForce reference_force;
                  perturbForce float_sqr (length h0) ligand_atoms ligand_atomset alchemical_state
                    reference_force)
            (h0 ++ OSystem s :: X)
      = (h0 ++ OSystem (withForces s (length h0 + S (length X)) (length F))
            :: (X ++ map OForce F),
         Ok tt)
  | Raise e =>
      exists G,
        fst (forM_ ls (fun reference_force =>
                  do reference_force <- readForce reference_force;
                  perturbForce float_sqr (length h0) ligand_atoms ligand_atomset alchemical_state
                    reference_force)
            (h0 ++ OSystem s :: X)) = h0 ++ G
        /\ snd (forM_ ls (fun reference_force =>
                  do reference_force <- readForce reference_force;
                  perturbForce float_sqr (length h0) ligand_atoms ligand_atomset alchemical_state
                    reference_force)
            (h0 ++ OSystem s :: X)) = Raise e
  end.
Proof.
  induction 1 as [|l f ls fs Hl Hrest IH]; intros X s; simpl.
  - unfold ret, withForces. simpl. rewrite !app_nil_r. by destruct s.
  - assert (Hread : readForce l (h0 ++ OSystem s :: X) = (h0 ++ OSystem s :: X, Ok f)).
    { unfold readForce. rewrite lookup_app_l by (by eapply lookup_lt_Some).
      by rewrite Hl. }
    rewrite (bind_assoc (readForce l)). rewrite (bind_ok _ _ _ _ _ Hread).
    pose proof (perturbForce_run float_sqr h0 X s ligand_atoms ligand_atomset alchemical_state f)
      as Hstep.
    destruct (perturbedForces float_sqr _ _ _ _ f) as [out|e].
    + rewrite (bind_ok _ _ _ _ _ Hstep).
      specialize (IH (X ++ map OForce out)
                    (withForces s (length h0 + S (length X)) (length out))).
      simpl in IH.
      destruct (builtForces float_sqr _ _ _ _ fs) as [rest|e].
      * rewrite IH. rewrite length_app, length_map.
        replace (length h0 + S (length X + length out))
          with (length h0 + S (length X) + length out) by lia.
        rewrite withForces_withForces.
        by rewrite length_app, map_app, app_assoc.
      * destruct IH as (G & HG1 & HG2). exists G. by rewrite HG1, HG2.
    + destruct Hstep as (s' & G & HG). exists (OSystem s' :: (X ++ G)).
      by rewrite (bind_raise _ _ _ _ _ HG).
Qed.

Lemma run_updateSystem_frame (h0 X : list obj) (s : System loc)
    (g : System loc -> System loc) :
  updateSystem (length h0) g (h0 ++ OSystem s :: X) = (h0 ++ OSystem (g s) :: X, Ok tt).
Proof.
  apply run_from_frame. rewrite run_updateSystem. by rewrite app_nil_r.
Qed.

(** The system value that a successful build leaves at its result location. *)
Definition builtSystem (R : System Force) (F : list Force) : System Force :=
  mkSystem (boxVectors R) (particleMasses R) (constraints R) F.

(** The objects a successful build appends to the heap: the new system,
    followed by its forces. *)
Definition builtObjects (h : heap) (R : System Force) (F : list Force) : list obj :=
  OSystem (mkSystem (boxVectors R) (particleMasses R) (constraints R)
             (seq (S (length h)) (length F)))
    :: map OForce F.

(** Refinement: on a heap that holds a factory, [createPerturbedSystem] leaves
    every existing object in place and appends the objects given by
    [builtForces]; when a force raises, the heap is still an extension. *)
Lemma createPerturbedSystem_run (float_sqr : squaring) (h : heap) (self : loc) (R : System Force)
    (ligand : list Z) (alchemical_state : AlchemicalState) :
  factoryAt h self R ligand ->
  match builtForces float_sqr ligand (list_to_set ligand) alchemical_state
          (length (particleMasses R)) (forces R) with
  | Ok F =>
      createPerturbedSystem float_sqr self alchemical_state h
      = (h ++ builtObjects h R F, Ok (length h))
  | Raise e =>
      exists G,
        fst (createPerturbedSystem float_sqr self alchemical_state h) = h ++ G
        /\ snd (createPerturbedSystem float_sqr self alchemical_state h) = Raise e
  end.
Proof.
  intros (fac & Hfac & Hlist & Hset & Hsnap).
  unfold snapshot in Hsnap.
  destruct (h !! reference_system fac) as [[rs| | | |]|] eqn:Hrs; try done.
  destruct (mapM (lookupForce h) (forces rs)) as [fs|] eqn:Hfs; [|done].
  injection Hsnap as <-. simpl.
  apply mapM_lookupForce in Hfs.
  assert (Hprelude :
    createPerturbedSystem float_sqr self alchemical_state h
    = (do _ <- forM_ (forces rs)
                 (fun reference_force =>
                    do reference_force <- readForce reference_force;
                    perturbForce float_sqr (length h) ligand (list_to_set ligand)
                      alchemical_state reference_force);
       ret (length h))
        (h ++ OSystem (mkSystem (boxVectors rs) (particleMasses rs) (constraints rs) [])
           :: [])).
  { unfold createPerturbedSystem.
    rewrite (bind_ok (readFactory self) _ h h fac)
      by (unfold readFactory; by rewrite Hfac).
    rewrite (bind_ok (readList _) _ h h ligand)
      by (unfold readList; by rewrite Hlist).
    rewrite (bind_ok (readSet _) _ h h (list_to_set ligand))
      by (unfold readSet; by rewrite Hset).
    rewrite (bind_ok (readSystem _) _ h h rs)
      by (unfold readSystem; by rewrite Hrs).
    rewrite (bind_ok (alloc _) _ h (h ++ [OSystem new_System]) (length h)) by done.
    do 3 (erewrite bind_ok by apply run_updateSystem_frame).
    rewrite copyParticles_app, copyConstraints_app. simpl.
    unfold bind at 1 3.
    by rewrite forM__range_lookup. }
  rewrite Hprelude. clear Hprelude.
  pose proof (forces_loop_run float_sqr h ligand (list_to_set ligand) alchemical_state
                (forces rs) fs Hfs []
                (mkSystem (boxVectors rs) (particleMasses rs) (constraints rs) []))
    as Hloop.
  simpl in Hloop.
  destruct (builtForces float_sqr _ _ _ _ fs) as [F|e].
  - rewrite (bind_ok _ _ _ _ _ Hloop). unfold ret, builtObjects, withForces. simpl.
    by rewrite Nat.add_1_r.
  - destruct Hloop as (G & HG1 & HG2). exists G.
    unfold bind.
    destruct (forM_ _ _ _) as [h' [[]|e']]; simpl in *; [done|].
    by injection HG2 as ->.
Qed.

(** ** Snapshots of extended heaps *)

Lemma lookupForce_seq (pre post : list obj) (fs : list Force) :
  mapM (lookupForce (pre ++ map OForce fs ++ post)) (seq (length pre) (length fs)) = Some fs.
Proof.
  apply mapM_Some_2, Forall2_same_length_lookup_2.
  - by rewrite length_seq.
  - intros i l f Hl Hf. apply lookup_seq in Hl as [-> Hi].
    unfold lookupForce.
    rewrite lookup_app_r by lia.
    replace (length pre + i - length pre) with i by lia.
    rewrite lookup_app_l by (by rewrite length_map).
    by rewrite list_lookup_fmap, Hf.
Qed.

Lemma snapshot_built (h : heap) (R : System Force) (F : list Force) (G : list obj) :
  snapshot (h ++ builtObjects h R F ++ G) (length h) = Some (builtSystem R F).
Proof.
  unfold snapshot, builtObjects. simpl.
  rewrite list_lookup_middle by done. simpl.
  pose proof (lookupForce_seq (h ++ [OSystem (mkSystem (boxVectors R) (particleMasses R)
                                               (constraints R)
                                               (seq (S (length h)) (length F)))]) G F)
    as Hseq.
  rewrite length_app, Nat.add_1_r, <- app_assoc in Hseq. simpl in Hseq.
  by rewrite Hseq.
Qed.

Lemma lookupForce_extend (h G : list obj) (ls : list loc) (fs : list Force) :
  mapM (lookupForce h) ls = Some fs -> mapM (lookupForce (h ++ G)) ls = Some fs.
Proof.
  intros H. apply mapM_Some_2. apply mapM_Some_1 in H.
  eapply Forall2_impl; [exact H|].
  intros l f. unfold lookupForce.
  destruct (h !! l) as [o|] eqn:Hl; [|done].
  by rewrite (lookup_app_l_Some _ _ _ _ Hl).
Qed.

Lemma snapshot_extend (h G : list obj) (l : loc) (R : System Force) :
  snapshot h l = Some R -> snapshot (h ++ G) l = Some R.
Proof.
  unfold snapshot.
  destruct (h !! l) as [o|] eqn:Hl; [|done].
  rewrite (lookup_app_l_Some _ _ _ _ Hl).
  destruct o as [s| | | |]; try done.
  destruct (mapM (lookupForce h) (forces s)) as [fs|] eqn:Hfs; [|done].
  by rewrite (lookupForce_extend _ _ _ _ Hfs).
Qed.

Lemma factoryAt_extend (h G : list obj) (self : loc) (R : System Force) (ligand : list Z) :
  factoryAt h self R ligand -> factoryAt (h ++ G) self R ligand.
Proof.
  intros (fac & H1 & H2 & H3 & H4). exists fac.
  repeat split; try (by apply lookup_app_l_Some).
  by apply snapshot_extend.
Qed.

(** ** Construction of the factory *)

Lemma copyForces_run (h : list obj) (ls : list loc) (fs : list Force) :
  Forall2 (fun l f => h !! l = Some (OForce f)) ls fs ->
  forall L : list obj,
  forM (fun fl => do f <- readForce fl; alloc (OForce f)) ls (h ++ L)
  = (h ++ L ++ map OForce fs, Ok (seq (length h + length L) (length fs))).
Proof.
  induction 1 as [|l f ls fs Hl Hrest IH]; intros L; simpl.
  - unfold ret. by rewrite app_nil_r.
  - rewrite bind_assoc.
    assert (Hread : readForce l (h ++ L) = (h ++ L, Ok f)).
    { unfold readForce. rewrite lookup_app_l by (by eapply lookup_lt_Some).
      by rewrite Hl. }
    rewrite (bind_ok _ _ _ _ _ Hread).
    rewrite (bind_ok (alloc _) _ _ _ _ (run_alloc h L (length h) (OForce f) eq_refl)).
    rewrite (bind_ok _ _ _ _ _ (IH (L ++ [OForce f]))).
    unfold ret. rewrite <- !app_assoc, length_app. simpl.
    by rewrite Nat.add_1_r, Nat.add_succ_r.
Qed.

(** The objects [__init__] appends: copies of the reference forces, the copied
    system, the ligand list, the ligand set and the factory itself. *)
Definition factoryObjects (h : heap) (R : System Force) (ligand : list Z) : list obj :=
  map OForce (forces R)
  ++ [OSystem (mkSystem (boxVectors R) (particleMasses R) (constraints R)
                 (seq (length h) (length (forces R))));
      OList ligand;
      OSet (list_to_set ligand);
      OFactory (mkFactory (length h + length (forces R))
                          (length h + length (forces R) + 1)
                          (length h + length (forces R) + 2))].

Lemma AbsoluteAlchemicalFactory_init_run (h : heap) (reference_system : loc)
    (R : System Force) (ligand : list Z) :
  snapshot h reference_system = Some R ->
  AbsoluteAlchemicalFactory_init reference_system ligand h
  = (h ++ factoryObjects h R ligand, Ok (length h + length (forces R) + 3)).
Proof.
  intros Hsnap. unfold snapshot in Hsnap.
  destruct (h !! reference_system) as [[rs| | | |]|] eqn:Hrs; try done.
  destruct (mapM (lookupForce h) (forces rs)) as [fs|] eqn:Hfs; [|done].
  injection Hsnap as <-. simpl.
  apply mapM_lookupForce in Hfs.
  unfold AbsoluteAlchemicalFactory_init, deepcopy_System, factoryObjects. simpl.
  rewrite !bind_assoc.
  rewrite (bind_ok (readSystem _) _ h h rs) by (unfold readSystem; by rewrite Hrs).
  rewrite !bind_assoc.
  pose proof (copyForces_run h (forces rs) fs Hfs []) as Hcopy.
  rewrite app_nil_r in Hcopy. simpl in Hcopy. rewrite Nat.add_0_r in Hcopy.
  rewrite (bind_ok _ _ _ _ _ Hcopy).
  unfold bind, alloc, ret. simpl.
  rewrite <- !app_assoc. simpl.
  rewrite !length_app, !length_map. simpl.
  by rewrite !Nat.add_assoc.
Qed.

Lemma factoryAt_init (h : heap) (R : System Force) (ligand : list Z) (G : list obj) :
  factoryAt (h ++ factoryObjects h R ligand ++ G) (length h + length (forces R) + 3)
    R ligand.
Proof.
  unfold factoryObjects.
  set (n := length h + length (forces R)).
  assert (Hn : length (h ++ map OForce (forces R)) = n).
  { by rewrite length_app, length_map. }
  exists (mkFactory n (n + 1) (n + 2)). simpl.
  rewrite !(app_assoc h), <- !app_assoc.
  rewrite (app_assoc h).
  repeat split.
  - rewrite lookup_app_r by lia. by replace (n + 3 - length _) with 3 by lia.
  - rewrite lookup_app_r by lia. by replace (n + 1 - length _) with 1 by lia.
  - rewrite lookup_app_r by lia. by replace (n + 2 - length _) with 2 by lia.
  - unfold snapshot.
    rewrite lookup_app_r by (by rewrite Hn).
    rewrite Hn, Nat.sub_diag. simpl.
    rewrite <- (app_assoc h).
    rewrite lookupForce_seq. by destruct R.
Qed.

(** ** The fully interacting state *)

Lemma scaleTorsion_one ligand_atomset (annihilateE annihilateLJ : bool)
    (restraints electrostatics lennardJones : float) (t : Torsion) :
  scaleTorsion ligand_atomset
    (mkAlchemicalState annihilateE annihilateLJ restraints electrostatics lennardJones 1.0) t
  = t.
Proof.
  destruct t as [[[[[[p1 p2] p3] p4] per] ph] k]. unfold scaleTorsion. simpl.
  destruct (bool_decide _); [|done]. by rewrite Float64.mul_1_r.
Qed.

Lemma perturbedForces_full (float_sqr : squaring)
    ligand_atoms ligand_atomset (annihilateE annihilateLJ : bool)
    (restraints : float) (numParticles : nat) (f : Force) :
  perturbedForces float_sqr ligand_atoms ligand_atomset
    (mkAlchemicalState annihilateE annihilateLJ restraints 1.0 1.0 1.0) numParticles f
  = Ok [f].
Proof.
  destruct f as [ts|nb|gb|ce|cb|cn|cg|name st]; simpl; try done.
  - rewrite copyTorsions_map. simpl. do 3 f_equal.
    induction ts as [|t ts IH]; simpl; [done|].
    by rewrite scaleTorsion_one, IH.
  - by rewrite copyCustomExternal_id.
  - by rewrite copyCustomBond_id.
Qed.

Lemma builtForces_full (float_sqr : squaring)
    ligand_atoms ligand_atomset (annihilateE annihilateLJ : bool)
    (restraints : float) (numParticles : nat) (fs : list Force) :
  builtForces float_sqr ligand_atoms ligand_atomset
    (mkAlchemicalState annihilateE annihilateLJ restraints 1.0 1.0 1.0) numParticles fs
  = Ok fs.
Proof.
  induction fs as [|f fs IH]; simpl; [done|].
  by rewrite (perturbedForces_full float_sqr), IH.
Qed.

(** ** C1: the fully interacting state reproduces the reference *)

(** C1.  For every reference system and every ligand atom list, the factory
    constructed from them, asked for the fully interacting state
    (relativeRestraints = 0, ligandElectrostatics = ligandLennardJones =
    ligandTorsions = 1, whatever the two annihilation flags), returns a new
    system whose value is that of the reference: same box vectors, particle
    masses and constraints, and force objects of the same classes with equal
    particle, pair and global parameters (no softcore force is added and the
    GB force is kept).  Consequently every potential energy function of the
    system description gives the built system the energy of the reference at
    every coordinate set. *)
Theorem C1_fully_interacting_build_is_reference (float_sqr : squaring)
    (h : heap) (reference_loc : loc)
    (R : System Force) (ligand : list Z) (annihilateE annihilateLJ : bool) :
  snapshot h reference_loc = Some R ->
  exists (h1 : heap) (self : loc) (h2 : heap) (system : loc),
    AbsoluteAlchemicalFactory_init reference_loc ligand h = (h1, Ok self)
    /\ createPerturbedSystem float_sqr self
         (mkAlchemicalState annihilateE annihilateLJ 0.0 1.0 1.0 1.0) h1
       = (h2, Ok system)
    /\ snapshot h2 system = Some R
    /\ forall (Coordinates Energy : Type)
              (potential : System Force -> Coordinates -> Energy) (x : Coordinates),
         (fun S => potential S x) <$> snapshot h2 system
         = (fun S => potential S x) <$> snapshot h reference_loc.
Proof.
  intros Hsnap.
  pose proof (AbsoluteAlchemicalFactory_init_run h reference_loc R ligand Hsnap) as Hinit.
  pose proof (factoryAt_init h R ligand []) as Hfac. rewrite app_nil_r in Hfac.
  set (h1 := h ++ factoryObjects h R ligand) in *.
  set (self := length h + length (forces R) + 3) in *.
  pose proof (createPerturbedSystem_run float_sqr h1 self R ligand
                (mkAlchemicalState annihilateE annihilateLJ 0.0 1.0 1.0 1.0) Hfac) as Hrun.
  rewrite (builtForces_full float_sqr) in Hrun.
  assert (Hbuilt : snapshot (h1 ++ builtObjects h1 R (forces R)) (length h1) = Some R).
  { pose proof (snapshot_built h1 R (forces R) []) as Hb.
    rewrite app_nil_r in Hb. rewrite Hb. unfold builtSystem. by destruct R. }
  exists h1, self, (h1 ++ builtObjects h1 R (forces R)), (length h1).
  repeat split; try done.
  intros Coordinates Energy potential x. by rewrite Hbuilt, Hsnap.
Qed.

(** The heap after constructing the factory of the example, and the factory's
    location in it. *)
Definition example_heap1 : heap :=
  Example.heap0 ++ factoryObjects Example.heap0 Example.reference Example.ligand.

Definition example_self : loc := 12.

Lemma example_init :
  AbsoluteAlchemicalFactory_init Example.reference_loc Example.ligand Example.heap0
  = (example_heap1, Ok example_self).
Proof. reflexivity. Qed.

Lemma example_factoryAt :
  factoryAt example_heap1 example_self Example.reference Example.ligand.
Proof.
  pose proof (factoryAt_init Example.heap0 Example.reference Example.ligand []) as H.
  rewrite app_nil_r in H. exact H.
Qed.

(** ** C3: construction does not validate the ligand indices *)

(** The objects of a system that can be read off the heap are all in it. *)
Lemma ownedLocs_snapshot_lt (h G : list obj) (l : loc) (R : System Force) (x : loc) :
  snapshot h l = Some R -> x ∈ ownedLocs (h ++ G) l -> x < length h.
Proof.
  unfold snapshot, ownedLocs.
  destruct (h !! l) as [o|] eqn:Hl; [|done].
  rewrite (lookup_app_l_Some _ _ _ _ Hl).
  destruct o as [s| | | |]; try done.
  destruct (mapM (lookupForce h) (forces s)) as [fs|] eqn:Hfs; [|done].
  intros _ Hx. apply elem_of_cons in Hx as [->|Hx].
  - by eapply lookup_lt_Some.
  - apply mapM_Some_1 in Hfs. apply list_elem_of_lookup in Hx as [i Hi].
    destruct (Forall2_lookup_l _ _ _ _ _ Hfs Hi) as (f & _ & Hf).
    unfold lookupForce in Hf.
    destruct (h !! x) as [o|] eqn:Hhx; [|done]. by eapply lookup_lt_Some.
Qed.

(** The four objects construction allocates after the copies of the forces:
    the copied system, the ligand list, the ligand set and the factory. *)
Lemma factoryObjects_lookup (h : heap) (R : System Force) (ligand : list Z) (k : nat) :
  k < 4 ->
  (h ++ factoryObjects h R ligand) !! (length h + length (forces R) + k)
  = [OSystem (mkSystem (boxVectors R) (particleMasses R) (constraints R)
                (seq (length h) (length (forces R))));
     OList ligand; OSet (list_to_set ligand);
     OFactory (mkFactory (length h + length (forces R))
                 (length h + length (forces R) + 1)
                 (length h + length (forces R) + 2))] !! k.
Proof.
  intros Hk. unfold factoryObjects.
  rewrite <- Nat.add_assoc, lookup_app_r by lia.
  rewrite Nat.add_comm, Nat.add_sub, lookup_app_r by (rewrite length_map; lia).
  rewrite length_map. f_equal. lia.
Qed.

(** C3, as stated, fails: the example system has three particles, the ligand
    list names atoms 7 and -5, and construction returns a factory. *)
Lemma C3_counterexample_out_of_range_ligand_accepted :
  length (particleMasses Example.reference) = 3
  /\ ~ (0 <= 7 < 3)%Z
  /\ snd (AbsoluteAlchemicalFactory_init Example.reference_loc [7; -5]%Z Example.heap0)
     = Ok 12.
Proof.
  split; [reflexivity|]. split; [lia|]. vm_compute. reflexivity.
Qed.

(** C3 (amended).  For every reference system and every ligand atom list --
    whether or not its indices lie in [0, N) -- factory construction performs
    no validation and returns normally.  The new factory holds a deep copy of
    the reference system: a new system object whose forces are new objects,
    none of them an object of the system passed in, and which reads as the
    reference did; a copy of the ligand list as given, a new object; and the
    set of its elements, a new object.  Every object that existed before is
    unchanged. *)
Theorem C3_construction_accepts_any_ligand_list (h : heap) (reference_loc : loc)
    (R : System Force) (ligand : list Z) :
  snapshot h reference_loc = Some R ->
  exists (h1 : heap) (self : loc) (fac : Factory),
    AbsoluteAlchemicalFactory_init reference_loc ligand h = (h1, Ok self)
    /\ factoryAt h1 self R ligand
    /\ (forall l o, h !! l = Some o -> h1 !! l = Some o)
    /\ h1 !! self = Some (OFactory fac)
    /\ snapshot h1 (reference_system fac) = Some R
    /\ h1 !! ligand_atoms fac = Some (OList ligand)
    /\ h1 !! ligand_atomset fac = Some (OSet (list_to_set ligand))
    /\ length h <= self
    /\ length h <= ligand_atoms fac
    /\ length h <= ligand_atomset fac
    /\ (forall x, x ∈ ownedLocs h1 (reference_system fac) ->
        length h <= x /\ (x ∉ ownedLocs h reference_loc)).
Proof.
  intros Hsnap.
  exists (h ++ factoryObjects h R ligand), (length h + length (forces R) + 3),
    (mkFactory (length h + length (forces R)) (length h + length (forces R) + 1)
       (length h + length (forces R) + 2)).
  pose proof (factoryObjects_lookup h R ligand) as Hobjs.
  split; [by apply AbsoluteAlchemicalFactory_init_run|].
  split; [pose proof (factoryAt_init h R ligand []) as H; by rewrite app_nil_r in H|].
  split; [intros l o Hl; by apply lookup_app_l_Some|].
  split; [exact (Hobjs 3 ltac:(lia))|].
  cbn [ligand_atoms ligand_atomset reference_system].
  split.
  { pose proof (factoryAt_init h R ligand []) as (fac & Hfac & _ & _ & Hcopy).
    rewrite app_nil_r in Hfac, Hcopy. rewrite (Hobjs 3) in Hfac by lia.
    by injection Hfac as <-. }
  split; [exact (Hobjs 1 ltac:(lia))|].
  split; [exact (Hobjs 2 ltac:(lia))|].
  split; [lia|]. split; [lia|]. split; [lia|].
  intros x Hx.
  assert (length h <= x) as Hfresh.
  { revert Hx. unfold ownedLocs.
    rewrite <- (Nat.add_0_r (length h + length (forces R))), (Hobjs 0) by lia.
    simpl. intros [->|Hx]%elem_of_cons; [lia|].
    apply elem_of_seq in Hx. lia. }
  split; [exact Hfresh|].
  intros Hold.
  pose proof (ownedLocs_snapshot_lt h [] reference_loc R x Hsnap) as Hlt.
  rewrite app_nil_r in Hlt. specialize (Hlt Hold). lia.
Qed.

Lemma C3_construction_witness :
  snapshot Example.heap0 Example.reference_loc = Some Example.reference
  /\ exists (h1 : heap) (self : loc) (fac : Factory),
       AbsoluteAlchemicalFactory_init Example.reference_loc [7; -5]%Z Example.heap0
       = (h1, Ok self)
       /\ factoryAt h1 self Example.reference [7; -5]%Z
       /\ (forall l o, Example.heap0 !! l = Some o -> h1 !! l = Some o)
       /\ h1 !! self = Some (OFactory fac)
       /\ snapshot h1 (reference_system fac) = Some Example.reference
       /\ h1 !! ligand_atoms fac = Some (OList [7; -5]%Z)
       /\ h1 !! ligand_atomset fac = Some (OSet (list_to_set [7; -5]%Z))
       /\ length Example.heap0 <= self
       /\ length Example.heap0 <= ligand_atoms fac
       /\ length Example.heap0 <= ligand_atomset fac
       /\ (forall x, x ∈ ownedLocs h1 (reference_system fac) ->
           length Example.heap0 <= x
           /\ (x ∉ ownedLocs Example.heap0 Example.reference_loc)).
Proof.
  split; [reflexivity|].
  apply (C3_construction_accepts_any_ligand_list Example.heap0 Example.reference_loc
           Example.reference [7; -5]%Z).
  reflexivity.
Defined.

(** ** C2: forces of other classes are copied *)

Definition handledKind (f : Force) : bool :=
  match f with
  | PeriodicTorsionForce _ | NonbondedForce _ | GBSAOBCForce _
  | CustomExternalForce _ | CustomBondForce _ => true
  | _ => false
  end.

Lemma perturbedForces_unhandled (float_sqr : squaring)
    ligand_atoms ligand_atomset alchemical_state numParticles f :
  handledKind f = false ->
  perturbedForces float_sqr ligand_atoms ligand_atomset alchemical_state numParticles f = Ok [f].
Proof. by destruct f. Qed.

Lemma builtForces_incl (float_sqr : squaring)
    ligand_atoms ligand_atomset alchemical_state numParticles
    (fs F : list Force) (f : Force) (out : list Force) :
  builtForces float_sqr ligand_atoms ligand_atomset alchemical_state numParticles fs = Ok F ->
  In f fs ->
  perturbedForces float_sqr ligand_atoms ligand_atomset alchemical_state numParticles f = Ok out ->
  incl out F.
Proof.
  revert F. induction fs as [|g fs IH]; intros F HF Hin Hout; [done|].
  simpl in HF.
  destruct (perturbedForces float_sqr _ _ _ _ g) as [outg|] eqn:Hg; [|done].
  destruct (builtForces float_sqr _ _ _ _ fs) as [rest|] eqn:Hrest; [|done].
  injection HF as <-.
  destruct Hin as [->|Hin].
  - rewrite Hg in Hout. injection Hout as <-. apply incl_appl, incl_refl.
  - apply incl_appr. by apply IH.
Qed.

Lemma builtForces_unhandled (float_sqr : squaring)
    ligand_atoms ligand_atomset alchemical_state numParticles
    (fs : list Force) :
  Forall (fun f => handledKind f = false) fs ->
  builtForces float_sqr ligand_atoms ligand_atomset alchemical_state numParticles fs = Ok fs.
Proof.
  induction 1 as [|f fs Hf _ IH]; [done|].
  simpl. by rewrite (perturbedForces_unhandled float_sqr _ _ _ _ _ Hf), IH.
Qed.

(** C2 (amended).  For every reference system containing a force term [f]
    whose kind is not one of the explicitly handled kinds, and every
    alchemical state, createPerturbedSystem raises no error on account of
    that term: the loop body deep-copies it unmodified and adds the copy to
    the system being built; every successful build returns a system that
    contains [f]; and when no force of the reference is of a handled kind,
    the build succeeds and returns a copy of the reference. *)
Theorem C2_unhandled_force_is_copied (float_sqr : squaring)
    (h : heap) (self : loc) (R : System Force)
    (ligand : list Z) (alchemical_state : AlchemicalState) (f : Force) :
  factoryAt h self R ligand ->
  In f (forces R) ->
  handledKind f = false ->
  (forall (h0 X : heap) (s : System loc),
      perturbForce float_sqr (length h0) ligand (list_to_set ligand) alchemical_state f
        (h0 ++ OSystem s :: X)
      = (h0 ++ OSystem (withForces s (length h0 + S (length X)) 1) :: (X ++ [OForce f]),
         Ok tt))
  /\ (forall (h2 : heap) (system : loc),
         createPerturbedSystem float_sqr self alchemical_state h = (h2, Ok system) ->
         exists S, snapshot h2 system = Some S /\ In f (forces S))
  /\ (Forall (fun g => handledKind g = false) (forces R) ->
      exists (h2 : heap) (system : loc),
        createPerturbedSystem float_sqr self alchemical_state h = (h2, Ok system)
        /\ snapshot h2 system = Some R).
Proof.
  intros Hfac Hin Hkind.
  pose proof (createPerturbedSystem_run float_sqr h self R ligand alchemical_state Hfac) as Hrun.
  split; [|split].
  - intros h0 X s.
    pose proof (perturbForce_run float_sqr h0 X s ligand (list_to_set ligand) alchemical_state f)
      as Hstep.
    by rewrite (perturbedForces_unhandled float_sqr _ _ _ _ _ Hkind) in Hstep.
  - intros h2 system Hbuild.
    destruct (builtForces float_sqr _ _ _ _ _) as [F|e] eqn:HF.
    + rewrite Hrun in Hbuild. injection Hbuild as <- <-.
      exists (builtSystem R F). split.
      * pose proof (snapshot_built h R F []) as Hs. by rewrite app_nil_r in Hs.
      * apply (builtForces_incl float_sqr _ _ _ _ _ _ _ [f] HF Hin
                 (perturbedForces_unhandled float_sqr _ _ _ _ _ Hkind)).
        by left.
    + destruct Hrun as (G & _ & Hraise).
      rewrite Hbuild in Hraise. simpl in Hraise. discriminate Hraise.
  - intros Hall.
    rewrite (builtForces_unhandled float_sqr _ _ _ _ _ Hall) in Hrun.
    exists (h ++ builtObjects h R (forces R)), (length h).
    split; [exact Hrun|].
    pose proof (snapshot_built h R (forces R) []) as Hs.
    rewrite app_nil_r in Hs. rewrite Hs. by destruct R.
Qed.

(** ** C4: exceptions of the nonbonded force under the softcore builder *)

(** What [softcoreLennardJones] does to particles, exceptions and exclusions. *)
Lemma softcoreLennardJones_spec (alchemical_atom_indices : list Z)
    (alchemical_state : AlchemicalState) (nb : NonbondedForce_t) :
  exists nb' cn cb,
    softcoreLennardJones alchemical_atom_indices alchemical_state nb = (nb', cn, cb)
    /\ nb_particles nb' = imap (zeroLigandEpsilon alchemical_atom_indices) (nb_particles nb)
    /\ nb_exceptions nb'
       = map (zeroExceptionEpsilon alchemical_atom_indices alchemical_state) (nb_exceptions nb)
    /\ cnf_exclusions cn = map exceptionPair (nb_exceptions nb)
    /\ cnf_particles cn = imap (softcoreParticle alchemical_atom_indices) (nb_particles nb)
    /\ (cbf_bonds <$> cb)
       = (if annihilateLennardJones alchemical_state
          then Some (concat (map (exceptionBond alchemical_atom_indices alchemical_state)
                               (nb_exceptions nb)))
          else None).
Proof.
  unfold softcoreLennardJones.
  rewrite copyLennardJonesParticles_spec, excludeExceptions_spec.
  eexists _, _, _. split; [reflexivity|].
  unfold copyNonbondedMethod. cbn -[imap].
  repeat split; try by destruct (nb_method nb).
  by destruct (annihilateLennardJones alchemical_state).
Qed.

(** C4, as stated, fails: with the default flag (annihilateLennardJones
    unset), ligand atom 0 and an exception between atoms 0 and 1 of epsilon
    0.05, the builder adds the exclusion (0, 1) but leaves the exception's
    epsilon at 0.05. *)
Lemma C4_counterexample_exception_epsilon_kept :
  float_ne (ligandLennardJones (AlchemicalState_init 0.0 1.0 0.5 1.0)) 1.0 = true
  /\ nb_exceptions Example.nonbonded !! 0 = Some (0%Z, 1%Z, 0.1, 0.3, 0.05)%float
  /\ (exists h', _alchemicallyModifyLennardJones 0 1 [0%Z]
                   (AlchemicalState_init 0.0 1.0 0.5 1.0)
                   [OSystem (mkSystem (boxVectors Example.reference)
                               (particleMasses Example.reference)
                               (constraints Example.reference) [1]);
                    OForce (NonbondedForce Example.nonbonded)]
                 = (h', Ok tt)
                 /\ (exists nb', h' !! 1 = Some (OForce (NonbondedForce nb'))
                                 /\ nb_exceptions nb' !! 0
                                    = Some (0%Z, 1%Z, 0.1, 0.3, 0.05)%float)
                 /\ (exists cn, h' !! 2 = Some (OForce (CustomNonbondedForce cn))
                                /\ cnf_exclusions cn !! 0 = Some (0%Z, 1%Z)))
  /\ PrimFloat.eqb 0.05 0 = false.
Proof.
  split; [reflexivity|]. split; [reflexivity|]. split; [|reflexivity].
  eexists. split; [vm_compute; reflexivity|].
  split; eexists; (split; [reflexivity|]); reflexivity.
Qed.

(** C4 (amended).  When the softcore Lennard-Jones builder runs on a system
    and the nonbonded force just added to it, then for every exception
    (iatom, jatom, chargeprod, sigma, epsilon) of that force -- whatever the
    ligand membership of the two atoms and whatever the flag -- the exclusion
    (iatom, jatom) is added to the new custom pairwise force (and these are
    all its exclusions); the exception's epsilon in the nonbonded force is
    multiplied by 0.0 exactly when annihilateLennardJones is set and both atoms
    are ligand atoms, and otherwise the exception keeps all its parameters. *)
Theorem C4_exception_excluded_and_epsilon_zeroed_under_guard (h0 X : heap)
    (s : System loc) (nb : NonbondedForce_t) (ligand : list Z)
    (alchemical_state : AlchemicalState) (exception_index : nat)
    (iatom jatom : Z) (chargeprod sigma epsilon : float) :
  nb_exceptions nb !! exception_index = Some (iatom, jatom, chargeprod, sigma, epsilon) ->
  exists (h' : heap) (nb' : NonbondedForce_t) (cn : CustomNonbondedForce_t),
    _alchemicallyModifyLennardJones (length h0) (length h0 + S (length X))
      ligand alchemical_state
      ((h0 ++ OSystem s :: X) ++ [OForce (NonbondedForce nb)])
    = (h', Ok tt)
    /\ h' !! (length h0 + S (length X)) = Some (OForce (NonbondedForce nb'))
    /\ h' !! (length h0 + S (length X) + 1) = Some (OForce (CustomNonbondedForce cn))
    /\ cnf_exclusions cn !! exception_index = Some (iatom, jatom)
    /\ length (cnf_exclusions cn) = length (nb_exceptions nb)
    /\ length (nb_exceptions nb') = length (nb_exceptions nb)
    /\ nb_exceptions nb' !! exception_index
       = Some (iatom, jatom, chargeprod, sigma,
               if annihilateLennardJones alchemical_state
                  && bool_decide (iatom ∈ ligand) && bool_decide (jatom ∈ ligand)
               then (epsilon * 0.0)%float else epsilon).
Proof.
  intros Hexc.
  pose proof (alchemicallyModifyLennardJones_run h0 X s nb ligand alchemical_state) as Hrun.
  destruct (softcoreLennardJones_spec ligand alchemical_state nb)
    as (nb' & cn & cb & Hsc & _ & Hexcs & Hexcl & _).
  rewrite Hsc in Hrun. rewrite Nat.add_0_r in Hrun.
  eexists _, nb', cn. split; [exact Hrun|].
  assert (Hlen : forall s', length (h0 ++ OSystem s' :: X) = length h0 + S (length X))
    by (intros s'; rewrite length_app; reflexivity).
  split; [|split].
  - rewrite lookup_app_r by (rewrite Hlen; lia). by rewrite Hlen, Nat.sub_diag.
  - rewrite lookup_app_r by (rewrite Hlen; lia). rewrite Hlen.
    by replace (length h0 + S (length X) + 1 - (length h0 + S (length X))) with 1 by lia.
  - rewrite Hexcl, Hexcs, !length_map, !list_lookup_fmap, Hexc.
    repeat split. simpl. unfold softcoreException.
    by destruct (annihilateLennardJones alchemical_state && bool_decide (iatom ∈ ligand)
                 && bool_decide (jatom ∈ ligand)).
Qed.

Lemma C4_exception_witness :
  nb_exceptions Example.nonbonded !! 1 = Some (1%Z, 2%Z, 0.2, 0.3, 0.05)%float
  /\ exists (h' : heap) (nb' : NonbondedForce_t) (cn : CustomNonbondedForce_t),
       _alchemicallyModifyLennardJones 0 1 [1; 2]%Z
         (mkAlchemicalState true true 0.0 1.0 0.5 1.0)
         [OSystem (mkSystem (boxVectors Example.reference)
                     (particleMasses Example.reference)
                     (constraints Example.reference) [1]);
          OForce (NonbondedForce Example.nonbonded)]
       = (h', Ok tt)
       /\ h' !! 1 = Some (OForce (NonbondedForce nb'))
       /\ h' !! 2 = Some (OForce (CustomNonbondedForce cn))
       /\ cnf_exclusions cn !! 1 = Some (1%Z, 2%Z)
       /\ length (cnf_exclusions cn) = 2
       /\ length (nb_exceptions nb') = 2
       /\ nb_exceptions nb' !! 1 = Some (1%Z, 2%Z, 0.2, 0.3, 0.05 * 0.0)%float.
Proof.
  split; [reflexivity|].
  apply (C4_exception_excluded_and_epsilon_zeroed_under_guard []
           [] (mkSystem (boxVectors Example.reference) (particleMasses Example.reference)
                 (constraints Example.reference) [1])
           Example.nonbonded [1; 2]%Z (mkAlchemicalState true true 0.0 1.0 0.5 1.0) 1
           1%Z 2%Z 0.2%float 0.3%float 0.05%float).
  reflexivity.
Defined.

(** ** C5: the default protocol for a complex in implicit solvent *)

(** [adjacentb R l]: every two consecutive elements of [l] are related by [R]. *)
Fixpoint adjacentb {A} (R : A -> A -> bool) (l : list A) : bool :=
  match l with
  | x :: (y :: _) as tl => R x y && adjacentb R tl
  | _ => true
  end.

Lemma adjacentb_lookup {A} (R : A -> A -> bool) (l : list A) (i : nat) (x y : A) :
  adjacentb R l = true -> l !! i = Some x -> l !! S i = Some y -> R x y = true.
Proof.
  revert i. induction l as [|a l IH]; intros i Hadj Hx Hy; [done|].
  destruct l as [|b l]; [by destruct i|].
  apply andb_prop in Hadj as [Hab Hadj].
  destruct i as [|i].
  - simpl in Hx, Hy. by simplify_eq.
  - by apply (IH i).
Qed.

Lemma forallb_lookup {A} (P : A -> bool) (l : list A) (i : nat) (x : A) :
  forallb P l = true -> l !! i = Some x -> P x = true.
Proof.
  intros Hall Hx. rewrite forallb_forall in Hall.
  apply Hall. apply list_elem_of_In. by eapply list_elem_of_lookup_2.
Qed.

(** C5.  The complex-implicit preset is a list of 24 states whose element 0 is
    the fully interacting state (0, 1, 1, 1); across consecutive states the
    electrostatics factor is non-increasing; the Lennard-Jones factor equals
    1.0 in every state whose electrostatics factor is not 0.0; across
    consecutive states (so in particular once electrostatics has reached 0.0)
    the Lennard-Jones factor is non-increasing, and it is 0.0 in the last
    state; the torsion factor is 1.0 and the restraint factor 0.0 in every
    state. *)
Theorem C5_complex_implicit_protocol_is_monotone :
  length defaultComplexProtocolImplicit = 24
  /\ defaultComplexProtocolImplicit !! 0 = Some (AlchemicalState_init 0.0 1.0 1.0 1.0)
  /\ (forall i s t,
        defaultComplexProtocolImplicit !! i = Some s ->
        defaultComplexProtocolImplicit !! S i = Some t ->
        PrimFloat.leb (ligandElectrostatics t) (ligandElectrostatics s) = true)
  /\ (forall i s,
        defaultComplexProtocolImplicit !! i = Some s ->
        float_ne (ligandElectrostatics s) 0.0 = true ->
        PrimFloat.eqb (ligandLennardJones s) 1.0 = true)
  /\ (forall i s t,
        defaultComplexProtocolImplicit !! i = Some s ->
        defaultComplexProtocolImplicit !! S i = Some t ->
        PrimFloat.leb (ligandLennardJones t) (ligandLennardJones s) = true)
  /\ (exists i s,
        defaultComplexProtocolImplicit !! i = Some s
        /\ PrimFloat.eqb (ligandElectrostatics s) 0.0 = true
        /\ PrimFloat.eqb (ligandLennardJones s) 1.0 = true)
  /\ (ligandLennardJones <$> last defaultComplexProtocolImplicit) = Some 0.0%float
  /\ Forall (fun s => ligandTorsions s = 1.0%float /\ relativeRestraints s = 0.0%float)
       defaultComplexProtocolImplicit.
Proof.
  split; [reflexivity|]. split; [reflexivity|].
  split; [|split; [|split; [|split; [|split]]]].
  - intros i s t. apply (adjacentb_lookup
      (fun s t => PrimFloat.leb (ligandElectrostatics t) (ligandElectrostatics s))).
    vm_compute. reflexivity.
  - intros i s Hs Hne.
    pose proof (forallb_lookup
      (fun s => implb (float_ne (ligandElectrostatics s) 0.0)
                  (PrimFloat.eqb (ligandLennardJones s) 1.0))
      defaultComplexProtocolImplicit i s) as Hall.
    cbv beta in Hall. rewrite Hne in Hall. apply Hall; [|exact Hs].
    vm_compute. reflexivity.
  - intros i s t. apply (adjacentb_lookup
      (fun s t => PrimFloat.leb (ligandLennardJones t) (ligandLennardJones s))).
    vm_compute. reflexivity.
  - exists 4, (AlchemicalState_init 0.0 0.0 1.0 1.0). repeat split.
  - reflexivity.
  - unfold defaultComplexProtocolImplicit. repeat constructor.
Qed.

(** ** C10: the restraints factor is not read *)

Lemma bind_ext {A B} (m : M A) (k1 k2 : A -> M B) (h : heap) :
  (forall x h', k1 x h' = k2 x h') -> bind m k1 h = bind m k2 h.
Proof.
  intros Hk. unfold bind. destruct (m h) as [h' [x|e]]; [apply Hk|reflexivity].
Qed.

Lemma forM__ext {A} (f g : A -> M unit) (l : list A) (h : heap) :
  (forall x h', f x h' = g x h') -> forM_ l f h = forM_ l g h.
Proof.
  intros Hfg. revert h. induction l as [|x l IH]; intros h; simpl; [reflexivity|].
  unfold bind. rewrite Hfg. destruct (g x h) as [h' [[]|e]]; [apply IH|reflexivity].
Qed.

(** The loop body reads the three interpolation factors and the two flags of
    the state, never [relativeRestraints]. *)
Lemma perturbForce_relativeRestraints (float_sqr : squaring) (system : loc) (ligand_atoms : list Z)
    (ligand_atomset : gset Z) (annihilateE annihilateLJ : bool)
    (restraints1 restraints2 electrostatics lennardJones torsions : float)
    (reference_force : Force) (h : heap) :
  perturbForce float_sqr system ligand_atoms ligand_atomset
    (mkAlchemicalState annihilateE annihilateLJ restraints1 electrostatics lennardJones torsions)
    reference_force h
  = perturbForce float_sqr system ligand_atoms ligand_atomset
      (mkAlchemicalState annihilateE annihilateLJ restraints2 electrostatics lennardJones torsions)
      reference_force h.
Proof. destruct reference_force; reflexivity. Qed.

(** C10.  For any two alchemical states that agree on ligandElectrostatics,
    ligandLennardJones, ligandTorsions and both annihilation flags, and differ
    arbitrarily in relativeRestraints, createPerturbedSystem run from the same
    store gives the same outcome: the same returned system (or the same
    exception) and the same final store, hence identical built systems. *)
Theorem C10_build_ignores_relativeRestraints (float_sqr : squaring) (self : loc) (h : heap)
    (state1 state2 : AlchemicalState) :
  annihilateElectrostatics state1 = annihilateElectrostatics state2 ->
  annihilateLennardJones state1 = annihilateLennardJones state2 ->
  ligandElectrostatics state1 = ligandElectrostatics state2 ->
  ligandLennardJones state1 = ligandLennardJones state2 ->
  ligandTorsions state1 = ligandTorsions state2 ->
  createPerturbedSystem float_sqr self state1 h = createPerturbedSystem float_sqr self state2 h
  /\ forall system1 system2 h1 h2,
       createPerturbedSystem float_sqr self state1 h = (h1, Ok system1) ->
       createPerturbedSystem float_sqr self state2 h = (h2, Ok system2) ->
       snapshot h1 system1 = snapshot h2 system2.
Proof.
  destruct state1 as [aE1 aLJ1 rr1 le1 lj1 lt1], state2 as [aE2 aLJ2 rr2 le2 lj2 lt2].
  simpl. intros <- <- <- <- <-.
  assert (Heq : createPerturbedSystem float_sqr self (mkAlchemicalState aE1 aLJ1 rr1 le1 lj1 lt1) h
                = createPerturbedSystem float_sqr self (mkAlchemicalState aE1 aLJ1 rr2 le1 lj1 lt1) h).
  { unfold createPerturbedSystem.
    apply bind_ext; intros factory h1.
    apply bind_ext; intros ligand_atoms h2.
    apply bind_ext; intros ligand_atomset h3.
    apply bind_ext; intros reference_system h4.
    apply bind_ext; intros system h5.
    apply bind_ext; intros _ h6.
    apply bind_ext; intros _ h7.
    apply bind_ext; intros _ h8.
    unfold bind at 1 3.
    rewrite (forM__ext _
               (fun force_index =>
                  match forces reference_system !! force_index with
                  | Some reference_force =>
                      do reference_force <- readForce reference_force;
                      perturbForce float_sqr system ligand_atoms ligand_atomset
                        (mkAlchemicalState aE1 aLJ1 rr2 le1 lj1 lt1) reference_force
                  | None => ret tt
                  end)); [reflexivity|].
    intros force_index h9.
    destruct (forces reference_system !! force_index) as [l|]; [|reflexivity].
    apply bind_ext; intros reference_force h10.
    apply (perturbForce_relativeRestraints float_sqr). }
  split; [exact Heq|].
  intros system1 system2 h1 h2 H1 H2.
  rewrite Heq, H2 in H1. by injection H1 as <- <-.
Qed.

(** ** The forces of a successful build *)

Lemma createPerturbedSystem_Ok (float_sqr : squaring) (h : heap) (self : loc) (R : System Force)
    (ligand : list Z) (alchemical_state : AlchemicalState) (h2 : heap) (system : loc) :
  factoryAt h self R ligand ->
  createPerturbedSystem float_sqr self alchemical_state h = (h2, Ok system) ->
  exists F,
    builtForces float_sqr ligand (list_to_set ligand) alchemical_state
      (length (particleMasses R)) (forces R) = Ok F
    /\ h2 = h ++ builtObjects h R F
    /\ system = length h
    /\ snapshot h2 system = Some (builtSystem R F).
Proof.
  intros Hfac Hbuild.
  pose proof (createPerturbedSystem_run float_sqr h self R ligand alchemical_state Hfac) as Hrun.
  destruct (builtForces float_sqr _ _ _ _ _) as [F|e] eqn:HF.
  - rewrite Hrun in Hbuild. injection Hbuild as <- <-.
    exists F. repeat split.
    pose proof (snapshot_built h R F []) as Hs. by rewrite app_nil_r in Hs.
  - destruct Hrun as (G & _ & Hraise).
    rewrite Hbuild in Hraise. simpl in Hraise. discriminate Hraise.
Qed.

Lemma builtForces_app (float_sqr : squaring)
    ligand_atoms ligand_atomset alchemical_state numParticles
    (fs1 fs2 : list Force) :
  builtForces float_sqr ligand_atoms ligand_atomset alchemical_state numParticles (fs1 ++ fs2)
  = match builtForces float_sqr ligand_atoms ligand_atomset alchemical_state numParticles fs1 with
    | Ok a =>
        match builtForces float_sqr ligand_atoms ligand_atomset alchemical_state numParticles fs2 with
        | Ok b => Ok (a ++ b)
        | Raise e => Raise e
        end
    | Raise e => Raise e
    end.
Proof.
  induction fs1 as [|f fs1 IH]; simpl.
  - by destruct (builtForces float_sqr _ _ _ _ fs2).
  - destruct (perturbedForces float_sqr _ _ _ _ f) as [out|e]; [|done].
    rewrite IH.
    destruct (builtForces float_sqr _ _ _ _ fs1) as [a|e]; [|done].
    destruct (builtForces float_sqr _ _ _ _ fs2) as [b|e]; [|done].
    by rewrite app_assoc.
Qed.

(** The output for the reference force of index [j] sits between the outputs
    for the forces before it and those for the forces after it. *)
Lemma builtForces_lookup (float_sqr : squaring)
    ligand_atoms ligand_atomset alchemical_state numParticles
    (fs : list Force) (j : nat) (f : Force) (F : list Force) :
  fs !! j = Some f ->
  builtForces float_sqr ligand_atoms ligand_atomset alchemical_state numParticles fs = Ok F ->
  exists pre out post,
    builtForces float_sqr ligand_atoms ligand_atomset alchemical_state numParticles (take j fs) = Ok pre
    /\ perturbedForces float_sqr ligand_atoms ligand_atomset alchemical_state numParticles f = Ok out
    /\ builtForces float_sqr ligand_atoms ligand_atomset alchemical_state numParticles (drop (S j) fs)
       = Ok post
    /\ F = pre ++ out ++ post.
Proof.
  intros Hj HF.
  rewrite <- (take_drop_middle fs j f Hj), (builtForces_app float_sqr) in HF.
  destruct (builtForces float_sqr _ _ _ _ (take j fs)) as [pre|e]; [|done].
  simpl in HF.
  destruct (perturbedForces float_sqr _ _ _ _ f) as [out|e]; [|done].
  destruct (builtForces float_sqr _ _ _ _ (drop (S j) fs)) as [post|e]; [|done].
  injection HF as <-. by exists pre, out, post.
Qed.

Lemma bool_decide_ligand_atomset (x : Z) (ligand : list Z) :
  bool_decide (x ∈ (list_to_set ligand : gset Z)) = bool_decide (x ∈ ligand).
Proof. apply bool_decide_ext. by rewrite elem_of_list_to_set. Qed.

Lemma torsion_atoms_subseteq (p1 p2 p3 p4 : Z) (ligand : list Z) :
  ({[p1; p2; p3; p4]} : gset Z) ⊆ list_to_set ligand
  <-> p1 ∈ ligand /\ p2 ∈ ligand /\ p3 ∈ ligand /\ p4 ∈ ligand.
Proof.
  rewrite <- !(elem_of_list_to_set (C := gset Z)). set_solver.
Qed.

(** ** C7: torsion scaling *)

Lemma scaleTorsion_lookup (ligand : list Z) (alchemical_state : AlchemicalState)
    (ts : list Torsion) (k : nat) (p1 p2 p3 p4 periodicity : Z) (phase K : float) :
  ts !! k = Some (p1, p2, p3, p4, periodicity, phase, K) ->
  (p1 ∈ ligand /\ p2 ∈ ligand /\ p3 ∈ ligand /\ p4 ∈ ligand ->
   map (scaleTorsion (list_to_set ligand) alchemical_state) ts !! k
   = Some (p1, p2, p3, p4, periodicity, phase, (K * ligandTorsions alchemical_state)%float))
  /\ (~ (p1 ∈ ligand /\ p2 ∈ ligand /\ p3 ∈ ligand /\ p4 ∈ ligand) ->
      map (scaleTorsion (list_to_set ligand) alchemical_state) ts !! k
      = Some (p1, p2, p3, p4, periodicity, phase, K)).
Proof.
  intros Hk. rewrite list_lookup_fmap. unfold Torsion in *. rewrite Hk. simpl.
  split; intros Hlig.
  - rewrite bool_decide_eq_true_2; [done|]. by apply torsion_atoms_subseteq.
  - rewrite bool_decide_eq_false_2; [done|]. by rewrite torsion_atoms_subseteq.
Qed.

(** C7.  For every torsion (p1, p2, p3, p4, periodicity, phase, k) of a
    periodic-torsion force of the reference and every alchemical state: the
    loop body of the build returns normally on that force, adding one new
    periodic-torsion force with as many torsions; in every built system the
    new force stands between the forces built from the earlier and the later
    reference forces, and its torsion of the same index has the same four
    atoms, periodicity and phase, and barrier k * ligandTorsions when all four
    atoms are ligand atoms, and barrier k otherwise (the torsion spans the
    ligand boundary or lies outside the ligand). *)
Theorem C7_torsion_scaled_iff_all_atoms_in_ligand (float_sqr : squaring) (h : heap) (self : loc)
    (R : System Force) (ligand : list Z) (alchemical_state : AlchemicalState)
    (h2 : heap) (system : loc) (force_index : nat) (ts : list Torsion)
    (torsion_index : nat) (p1 p2 p3 p4 periodicity : Z) (phase K : float) :
  factoryAt h self R ligand ->
  createPerturbedSystem float_sqr self alchemical_state h = (h2, Ok system) ->
  forces R !! force_index = Some (PeriodicTorsionForce ts) ->
  ts !! torsion_index = Some (p1, p2, p3, p4, periodicity, phase, K) ->
  exists (ts' : list Torsion),
    (forall (h0 X : heap) (s : System loc),
        perturbForce float_sqr (length h0) ligand (list_to_set ligand) alchemical_state
          (PeriodicTorsionForce ts) (h0 ++ OSystem s :: X)
        = (h0 ++ OSystem (withForces s (length h0 + S (length X)) 1)
              :: (X ++ [OForce (PeriodicTorsionForce ts')]),
           Ok tt))
    /\ (exists (built : System Force) (pre post : list Force),
          snapshot h2 system = Some built
          /\ forces built = pre ++ PeriodicTorsionForce ts' :: post
          /\ builtForces float_sqr ligand (list_to_set ligand) alchemical_state
               (length (particleMasses R)) (take force_index (forces R)) = Ok pre
          /\ builtForces float_sqr ligand (list_to_set ligand) alchemical_state
               (length (particleMasses R)) (drop (S force_index) (forces R)) = Ok post)
    /\ length ts' = length ts
    /\ (p1 ∈ ligand /\ p2 ∈ ligand /\ p3 ∈ ligand /\ p4 ∈ ligand ->
        ts' !! torsion_index
        = Some (p1, p2, p3, p4, periodicity, phase,
                (K * ligandTorsions alchemical_state)%float))
    /\ (~ (p1 ∈ ligand /\ p2 ∈ ligand /\ p3 ∈ ligand /\ p4 ∈ ligand) ->
        ts' !! torsion_index = Some (p1, p2, p3, p4, periodicity, phase, K)).
Proof.
  intros Hfac Hbuild Hforce Htorsion.
  exists (map (scaleTorsion (list_to_set ligand) alchemical_state) ts).
  assert (Hout : forall n,
             perturbedForces float_sqr ligand (list_to_set ligand) alchemical_state n
               (PeriodicTorsionForce ts)
             = Ok [PeriodicTorsionForce
                     (map (scaleTorsion (list_to_set ligand) alchemical_state) ts)]).
  { intros n. simpl. by rewrite copyTorsions_map. }
  split; [|split; [|split]].
  - intros h0 X s.
    pose proof (perturbForce_run float_sqr h0 X s ligand (list_to_set ligand) alchemical_state
                  (PeriodicTorsionForce ts)) as Hstep.
    by rewrite Hout in Hstep.
  - destruct (createPerturbedSystem_Ok float_sqr _ _ _ _ _ _ _ Hfac Hbuild)
      as (F & HF & _ & _ & Hsnap).
    destruct (builtForces_lookup float_sqr _ _ _ _ _ _ _ _ Hforce HF)
      as (pre & out & post & Hpre & Hmid & Hpost & ->).
    rewrite Hout in Hmid. injection Hmid as <-.
    by exists (builtSystem R (pre ++ [PeriodicTorsionForce
                 (map (scaleTorsion (list_to_set ligand) alchemical_state) ts)] ++ post)),
      pre, post.
  - by rewrite length_map.
  - by apply scaleTorsion_lookup.
Qed.

(** ** C6: electrostatics scaling *)


(** The electrostatics step in closed form.  When squaring raises and no
    exception needs the square, the particle charges are scaled and the
    exceptions are left as they are. *)
Lemma scaleElectrostatics_spec (float_sqr : squaring)
    (ligand_atomset : gset Z) (alchemical_state : AlchemicalState)
    (nb : NonbondedForce_t) :
  float_ne (ligandElectrostatics alchemical_state) 1.0 = true ->
  scaleElectrostatics float_sqr ligand_atomset alchemical_state nb
  = match float_sqr (ligandElectrostatics alchemical_state) with
    | Ok square =>
        Ok (mkNonbonded
              (imap (scaleCharge ligand_atomset alchemical_state) (nb_particles nb))
              (map (scaleException ligand_atomset alchemical_state square)
                 (nb_exceptions nb))
              (nb_method nb) (nb_cutoff nb) (nb_useDispersionCorrection nb))
    | Raise e =>
        if existsb (squaresChargeProduct ligand_atomset alchemical_state)
             (nb_exceptions nb)
        then Raise e
        else Ok (mkNonbonded
                   (imap (scaleCharge ligand_atomset alchemical_state) (nb_particles nb))
                   (nb_exceptions nb)
                   (nb_method nb) (nb_cutoff nb) (nb_useDispersionCorrection nb))
    end.
Proof.
  intros Hne. unfold scaleElectrostatics. rewrite Hne.
  rewrite (scaleExceptionChargeProducts_spec float_sqr), scaleParticleCharges_imap. simpl.
  destruct (float_sqr (ligandElectrostatics alchemical_state)) as [square|e]; [done|].
  by destruct (existsb _ _).
Qed.

Lemma scaleElectrostatics_particles (float_sqr : squaring) (ligand_atomset : gset Z)
    (alchemical_state : AlchemicalState) (nb scaled : NonbondedForce_t) :
  float_ne (ligandElectrostatics alchemical_state) 1.0 = true ->
  scaleElectrostatics float_sqr ligand_atomset alchemical_state nb = Ok scaled ->
  nb_particles scaled
  = imap (scaleCharge ligand_atomset alchemical_state) (nb_particles nb).
Proof.
  intros Hne. rewrite (scaleElectrostatics_spec float_sqr) by done.
  destruct (float_sqr (ligandElectrostatics alchemical_state)); [by intros [= <-]|].
  destruct (existsb _ _); [done|]. by intros [= <-].
Qed.

(** The nonbonded force the loop body leaves for a reference nonbonded force:
    the electrostatics step, then the Lennard-Jones step, which only touches
    epsilons.  The body raises exactly when the electrostatics step does. *)
Lemma perturbedForces_nonbonded (float_sqr : squaring)
    (ligand : list Z) (alchemical_state : AlchemicalState)
    (numParticles : nat) (nb : NonbondedForce_t) :
  match scaleElectrostatics float_sqr (list_to_set ligand) alchemical_state nb with
  | Ok scaled =>
      exists nb' extra,
        perturbedForces float_sqr ligand (list_to_set ligand) alchemical_state numParticles
          (NonbondedForce nb)
        = Ok (NonbondedForce nb' :: extra)
        /\ nb_particles nb'
           = (if float_ne (ligandLennardJones alchemical_state) 1.0
              then imap (zeroLigandEpsilon ligand) (nb_particles scaled)
              else nb_particles scaled)
        /\ nb_exceptions nb'
           = (if float_ne (ligandLennardJones alchemical_state) 1.0
              then map (zeroExceptionEpsilon ligand alchemical_state) (nb_exceptions scaled)
              else nb_exceptions scaled)
  | Raise e =>
      perturbedForces float_sqr ligand (list_to_set ligand) alchemical_state numParticles
        (NonbondedForce nb)
      = Raise e
  end.
Proof.
  simpl.
  destruct (scaleElectrostatics float_sqr (list_to_set ligand) alchemical_state nb)
    as [scaled|e]; [|done].
  destruct (float_ne (ligandLennardJones alchemical_state) 1.0).
  - destruct (softcoreLennardJones_spec ligand alchemical_state scaled)
      as (nb' & cn & cb & -> & Hp & He & _).
    by eexists nb', _.
  - by eexists _, [].
Qed.


(** ** C8: the build only allocates *)

(** [blocks h' R ligand lo states ls]: the systems [ls] built for [states] lie
    in [h'] in consecutive blocks starting at [lo], each block holding one
    system followed by its forces. *)
Fixpoint blocks (float_sqr : squaring) (h' : heap) (R : System Force) (ligand : list Z) (lo : nat)
    (states : list AlchemicalState) (ls : list loc) : Prop :=
  match states, ls with
  | [], [] => True
  | alchemical_state :: states', l :: ls' =>
      exists F,
        builtForces float_sqr ligand (list_to_set ligand) alchemical_state
          (length (particleMasses R)) (forces R) = Ok F
        /\ l = lo
        /\ ownedLocs h' l = seq lo (S (length F))
        /\ snapshot h' l = Some (builtSystem R F)
        /\ lo + S (length F) <= length h'
        /\ blocks float_sqr h' R ligand (lo + S (length F)) states' ls'
  | _, _ => False
  end.

Lemma ownedLocs_built (h : heap) (R : System Force) (F : list Force) (G : list obj) :
  ownedLocs (h ++ builtObjects h R F ++ G) (length h) = seq (length h) (S (length F)).
Proof.
  unfold ownedLocs, builtObjects. simpl.
  by rewrite list_lookup_middle.
Qed.

Lemma createPerturbedSystems_run (float_sqr : squaring) (h : heap) (self : loc) (R : System Force)
    (ligand : list Z) (states : list AlchemicalState) :
  factoryAt h self R ligand ->
  exists G,
    fst (createPerturbedSystems float_sqr self states h) = h ++ G
    /\ forall ls, snd (createPerturbedSystems float_sqr self states h) = Ok ls ->
                  blocks float_sqr (h ++ G) R ligand (length h) states ls.
Proof.
  unfold createPerturbedSystems.
  revert h. induction states as [|st states IH]; intros h Hfac.
  - exists []. unfold ret. simpl. split; [by rewrite app_nil_r|].
    intros ls Hls. by injection Hls as <-.
  - pose proof (createPerturbedSystem_run float_sqr h self R ligand st Hfac) as Hrun.
    destruct (builtForces float_sqr _ _ _ _ _) as [F|e] eqn:HF.
    + assert (Heq : forM (createPerturbedSystem float_sqr self) (st :: states) h
                    = match forM (createPerturbedSystem float_sqr self) states
                              (h ++ builtObjects h R F) with
                      | (h', Ok ys) => (h', Ok (length h :: ys))
                      | (h', Raise e) => (h', Raise e)
                      end).
      { cbn [forM]. unfold bind at 1. rewrite Hrun. unfold bind, ret.
        by destruct (forM _ states _) as [h' [ys|e]]. }
      rewrite Heq. clear Heq.
      destruct (IH (h ++ builtObjects h R F) (factoryAt_extend _ _ _ _ _ Hfac))
        as (G & Hfst & Hsnd).
      exists (builtObjects h R F ++ G).
      destruct (forM (createPerturbedSystem float_sqr self) states (h ++ builtObjects h R F))
        as [h' [ls'|e]]; cbn [fst snd] in *; subst h'.
      * split; [by rewrite <- app_assoc|].
        intros ls Hls. injection Hls as <-. exists F.
        split; [exact HF|]. split; [reflexivity|].
        split; [apply ownedLocs_built|]. split; [apply snapshot_built|].
        split.
        { rewrite !length_app. unfold builtObjects. simpl. rewrite length_map. lia. }
        specialize (Hsnd ls' eq_refl).
        rewrite <- app_assoc in Hsnd.
        replace (length h + S (length F)) with (length (h ++ builtObjects h R F));
          [exact Hsnd|].
        rewrite length_app. unfold builtObjects. simpl. by rewrite length_map.
      * split; [by rewrite <- app_assoc|]. intros ls Hls. discriminate Hls.
    + destruct Hrun as (G & Hfst & Hsnd).
      exists G. cbn [forM]. unfold bind at 1 3.
      destruct (createPerturbedSystem float_sqr self st h) as [h' [l|e']]; cbn [fst snd] in *;
        [discriminate Hsnd|].
      split; [exact Hfst|]. intros ls Hls. discriminate Hls.
Qed.

Lemma blocks_length (float_sqr : squaring) h' R ligand lo states ls :
  blocks float_sqr h' R ligand lo states ls -> length ls = length states.
Proof.
  revert lo ls. induction states as [|st states IH]; intros lo [|l ls]; simpl; try done.
  intros (F & _ & _ & _ & _ & _ & Hrest). f_equal. by eapply IH.
Qed.

Lemma blocks_bounds (float_sqr : squaring) h' R ligand lo states ls (i : nat) (l x : loc) :
  blocks float_sqr h' R ligand lo states ls ->
  ls !! i = Some l -> x ∈ ownedLocs h' l -> lo <= x < length h'.
Proof.
  revert lo ls i. induction states as [|st states IH]; intros lo [|l0 ls] i; simpl; try done.
  intros (F & _ & -> & Hown & _ & Hlen & Hrest) Hi Hx.
  destruct i as [|i].
  - injection Hi as <-. rewrite Hown in Hx. change (x ∈ seq lo (S (length F))) in Hx.
    apply elem_of_seq in Hx. lia.
  - specialize (IH _ _ _ Hrest Hi Hx). lia.
Qed.

Lemma blocks_separated (float_sqr : squaring)
    h' R ligand lo states ls (i j : nat) (li lj x y : loc) :
  blocks float_sqr h' R ligand lo states ls ->
  i < j -> ls !! i = Some li -> ls !! j = Some lj ->
  x ∈ ownedLocs h' li -> y ∈ ownedLocs h' lj -> x < y.
Proof.
  revert lo ls i j. induction states as [|st states IH]; intros lo [|l0 ls] i j; simpl;
    try done.
  intros (F & _ & -> & Hown & _ & Hlen & Hrest) Hij Hi Hj Hx Hy.
  destruct j as [|j]; [lia|]. destruct i as [|i].
  - injection Hi as <-. rewrite Hown in Hx. change (x ∈ seq lo (S (length F))) in Hx.
    apply elem_of_seq in Hx.
    pose proof (blocks_bounds float_sqr _ _ _ _ _ _ _ _ _ Hrest Hj Hy). lia.
  - apply (IH _ _ i j Hrest); [lia|done..].
Qed.

Lemma blocks_snapshot (float_sqr : squaring) h' R ligand lo states ls (i : nat) (l : loc) :
  blocks float_sqr h' R ligand lo states ls ->
  ls !! i = Some l ->
  exists alchemical_state F,
    states !! i = Some alchemical_state
    /\ builtForces float_sqr ligand (list_to_set ligand) alchemical_state
         (length (particleMasses R)) (forces R) = Ok F
    /\ snapshot h' l = Some (builtSystem R F)
    /\ l ∈ ownedLocs h' l.
Proof.
  revert lo ls i. induction states as [|st states IH]; intros lo [|l0 ls] i; simpl; try done.
  intros (F & HF & -> & Hown & Hsnap & Hlen & Hrest) Hi.
  destruct i as [|i].
  - injection Hi as <-. exists st, F. repeat split; try done.
    rewrite Hown. change (lo ∈ seq lo (S (length F))). apply elem_of_seq. lia.
  - by apply (IH _ _ _ Hrest).
Qed.

(** C8.  Whatever the alchemical states and however many builds are run one
    after the other, every object that existed before the calls -- the
    factory, its captured reference system with its force objects, its ligand
    list and ligand set -- is unchanged afterwards (also when a build raises),
    so the captured reference still has the particle masses, constraints, box
    vectors and force parameters it had.  The objects of each returned system
    (the system and its forces) are allocated by its build: none of them
    existed before, none is an object of the reference or of the factory, and
    no object belongs to two returned systems. *)
Theorem C8_builds_leave_reference_unchanged_and_share_nothing (float_sqr : squaring)
    (h : heap) (self : loc)
    (R : System Force) (ligand : list Z) (states : list AlchemicalState) :
  factoryAt h self R ligand ->
  exists G,
    fst (createPerturbedSystems float_sqr self states h) = h ++ G
    /\ (forall l o, h !! l = Some o -> (h ++ G) !! l = Some o)
    /\ factoryAt (h ++ G) self R ligand
    /\ forall systems,
         snd (createPerturbedSystems float_sqr self states h) = Ok systems ->
         length systems = length states
         /\ (forall i l,
               systems !! i = Some l ->
               l ∈ ownedLocs (h ++ G) l
               /\ (exists alchemical_state F,
                      states !! i = Some alchemical_state
                      /\ builtForces float_sqr ligand (list_to_set ligand) alchemical_state
                           (length (particleMasses R)) (forces R) = Ok F
                      /\ snapshot (h ++ G) l = Some (builtSystem R F))
               /\ (forall x, x ∈ ownedLocs (h ++ G) l -> length h <= x < length (h ++ G))
               /\ (forall fac x,
                      h !! self = Some (OFactory fac) ->
                      x ∈ ownedLocs (h ++ G) l ->
                      (x ∉ ownedLocs (h ++ G) (reference_system fac))
                      /\ x <> ligand_atoms fac /\ x <> ligand_atomset fac /\ x <> self))
         /\ (forall i j li lj x,
               i <> j -> systems !! i = Some li -> systems !! j = Some lj ->
               x ∈ ownedLocs (h ++ G) li -> x ∉ ownedLocs (h ++ G) lj).
Proof.
  intros Hfac.
  destruct (createPerturbedSystems_run float_sqr h self R ligand states Hfac) as (G & Hfst & Hsnd).
  exists G. split; [exact Hfst|].
  split; [intros l o Hl; by apply lookup_app_l_Some|].
  split; [by apply factoryAt_extend|].
  intros systems Hsys. specialize (Hsnd systems Hsys).
  split; [by eapply (blocks_length float_sqr)|]. split.
  - intros i l Hi.
    destruct (blocks_snapshot float_sqr _ _ _ _ _ _ _ _ Hsnd Hi) as (st & F & Hst & HF & Hsnap & Hself).
    split; [exact Hself|]. split; [by exists st, F|].
    assert (Hfresh : forall x, x ∈ ownedLocs (h ++ G) l -> length h <= x < length (h ++ G))
      by (intros x Hx; by eapply (blocks_bounds float_sqr)).
    split; [exact Hfresh|].
    intros fac x Hfacx Hx. apply Hfresh in Hx as [Hx _].
    destruct Hfac as (fac0 & Hf0 & Hlist & Hset & Hsnap0).
    rewrite Hf0 in Hfacx. injection Hfacx as <-.
    apply lookup_lt_Some in Hf0, Hlist, Hset.
    split; [|lia].
    intros Hin. apply (ownedLocs_snapshot_lt _ _ _ _ _ Hsnap0) in Hin. lia.
  - intros i j li lj x Hij Hi Hj Hxi Hxj.
    destruct (Nat.lt_total i j) as [Hlt|[Heq|Hgt]]; [|done|].
    + pose proof (blocks_separated float_sqr _ _ _ _ _ _ _ _ _ _ _ _ Hsnd Hlt Hi Hj Hxi Hxj). lia.
    + pose proof (blocks_separated float_sqr _ _ _ _ _ _ _ _ _ _ _ _ Hsnd Hgt Hj Hi Hxj Hxi). lia.
Qed.

(** ** C9: the softcore energy at r = 0 *)

Section Softcore.

Import Expression.

Local Open Scope R_scope.

(** The variables of the pair expression: the per-particle parameters sigma,
    epsilon and alchemical (lines 364-366) of the two particles, which the
    expression names with the suffixes 1 and 2, the global parameter
    lennard_jones_lambda (line 363) and the distance r. *)
Definition pair_valuation (sigma1 epsilon1 alchemical1 sigma2 epsilon2 alchemical2
    lennard_jones_lambda r : R) : valuation :=
  fun name =>
    if String.eqb name "r" then Some r
    else if String.eqb name "lennard_jones_lambda" then Some lennard_jones_lambda
    else if String.eqb name "sigma1" then Some sigma1
    else if String.eqb name "epsilon1" then Some epsilon1
    else if String.eqb name "alchemical1" then Some alchemical1
    else if String.eqb name "sigma2" then Some sigma2
    else if String.eqb name "epsilon2" then Some epsilon2
    else if String.eqb name "alchemical2" then Some alchemical2
    else None.

(** The values of the definitions lambda, epsilon and sigma of the pair
    expression (lines 350-357): lambda_pair, the geometric mean of the
    epsilons and the arithmetic mean of the sigmas. *)
Definition pair_lambda (annihilate : bool) (lennard_jones_lambda alchemical1 alchemical2 : R)
    : R :=
  if annihilate
  then lennard_jones_lambda
       * (alchemical1 * (1 - alchemical2) + alchemical2 * (1 - alchemical1)
          + alchemical1 * alchemical2)
  else lennard_jones_lambda
       * (alchemical1 * (1 - alchemical2) + alchemical2 * (1 - alchemical1))
       + alchemical1 * alchemical2.

Definition pair_epsilon (epsilon1 epsilon2 : R) : R := sqrt (epsilon1 * epsilon2).

Definition pair_sigma (sigma1 sigma2 : R) : R := 1 / 2 * (sigma1 + sigma2).

Ltac pair_lookup :=
  rewrite ?define_ne by done;
  repeat match goal with
         | |- context [pair_valuation ?s1 ?e1 ?a1 ?s2 ?e2 ?a2 ?l ?r ?name] =>
             let v := eval cbv [pair_valuation String.eqb Ascii.eqb Bool.eqb]
                      in (pair_valuation s1 e1 a1 s2 e2 a2 l r name) in
             change (pair_valuation s1 e1 a1 s2 e2 a2 l r name) with v
         end.

(** The value of the pair expression the code builds, for either setting of
    annihilateLennardJones. *)
Lemma pair_value (annihilate : bool)
    (sigma1 epsilon1 alchemical1 sigma2 epsilon2 alchemical2 lennard_jones_lambda r : R)
    (p : program) :
  parse (softcore_energy_expression annihilate) = Some p ->
  0 <= epsilon1 * epsilon2 ->
  0 < pair_sigma sigma1 sigma2 ->
  0 <= pair_lambda annihilate lennard_jones_lambda alchemical1 alchemical2 <= 1 ->
  0 <= r ->
  value p (pair_valuation sigma1 epsilon1 alchemical1 sigma2 epsilon2 alchemical2
             lennard_jones_lambda r)
  = if Req_dec_T (1 / 2 * (1 - pair_lambda annihilate lennard_jones_lambda
                                   alchemical1 alchemical2)
                  + r / pair_sigma sigma1 sigma2) 0
    then None
    else Some (4 * pair_epsilon epsilon1 epsilon2
               * pair_lambda annihilate lennard_jones_lambda alchemical1 alchemical2
               * (1 / (1 / 2 * (1 - pair_lambda annihilate lennard_jones_lambda
                                      alchemical1 alchemical2)
                       + r / pair_sigma sigma1 sigma2)) ^ 6
               * ((1 / (1 / 2 * (1 - pair_lambda annihilate lennard_jones_lambda
                                       alchemical1 alchemical2)
                        + r / pair_sigma sigma1 sigma2)) ^ 6 - 1)).
Proof.
  intros Hparse Hepsilon Hsigma Hlambda Hr.
  destruct annihilate; vm_compute in Hparse; injection Hparse as <-;
    unfold value; cbn [definitions main foldr];
    (apply softcore_value; [| | | | | | | |done|done|done]);
    pair_lookup; try rewrite define_eq; cbn [eval]; pair_lookup;
    cbn [apply_operator apply_function String.eqb Ascii.eqb Bool.eqb];
    try (f_equal; unfold pair_sigma, pair_lambda; simpl; lra).
  - by destruct (Rle_dec 0 (epsilon1 * epsilon2)).
  - by destruct (Rle_dec 0 (epsilon1 * epsilon2)).
Qed.

(** Modelled from the spec: the unmodified Lennard-Jones potential of a pair,
    which OpenMM's nonbonded force computes and the sources do not contain. *)
Definition lennard_jones_energy (epsilon sigma r : R) : R :=
  4 * epsilon * ((sigma / r) ^ 12 - (sigma / r) ^ 6).

Lemma softcore_x_bounds (sigma lambda r : R) :
  0 < sigma -> lambda < 1 -> 0 <= r ->
  1 / 2 * (1 - lambda) + r / sigma <> 0
  /\ 0 < (1 / (1 / 2 * (1 - lambda) + r / sigma)) ^ 6 <= (2 / (1 - lambda)) ^ 6.
Proof.
  intros Hsigma Hlambda Hr.
  assert (0 <= r / sigma) by (apply Rmult_le_pos; [lra|left; by apply Rinv_0_lt_compat]).
  set (d := 1 / 2 * (1 - lambda) + r / sigma).
  assert (Hd : 1 / 2 * (1 - lambda) <= d) by (unfold d; lra).
  assert (Hd0 : 0 < d) by lra.
  assert (Hinv : 0 < 1 / d) by (apply Rdiv_lt_0_compat; lra).
  split; [lra|]. split; [by apply pow_lt|].
  apply pow_incr. split; [lra|].
  replace (2 / (1 - lambda)) with (/ (1 / 2 * (1 - lambda))) by (field; lra).
  unfold Rdiv at 1. rewrite Rmult_1_l. apply Rinv_le_contravar; lra.
Qed.

Lemma pow6_ge (t : R) : 1 <= t -> t <= t ^ 6.
Proof.
  intros Ht. pose proof (pow_R1_Rle t 5 Ht) as H5.
  replace (t ^ 6) with (t * t ^ 5) by ring. nra.
Qed.

Lemma lennard_jones_lower (epsilon sigma r : R) :
  0 < epsilon -> 0 < sigma -> 0 < r -> 2 * r <= sigma ->
  4 * epsilon * (sigma / r) <= lennard_jones_energy epsilon sigma r.
Proof.
  intros Heps Hsigma Hr Hsmall. unfold lennard_jones_energy.
  set (t := sigma / r).
  assert (Ht : 2 <= t).
  { unfold t. apply (Rmult_le_reg_r r); [lra|].
    replace (sigma / r * r) with sigma by (field; lra). lra. }
  pose proof (pow6_ge t ltac:(lra)) as H6.
  replace (t ^ 12) with (t ^ 6 * t ^ 6) by ring.
  assert (t <= t ^ 6 * t ^ 6 - t ^ 6) by nra.
  nra.
Qed.

Lemma lennard_jones_unbounded (epsilon sigma M : R) :
  0 < epsilon -> 0 < sigma ->
  exists delta,
    0 < delta /\ forall r, 0 < r < delta -> M < lennard_jones_energy epsilon sigma r.
Proof.
  intros Hpos Hsigma.
  exists (Rmin (sigma / 2) (4 * epsilon * sigma / (Rabs M + 1))).
  pose proof (Rabs_pos M) as HM. pose proof (Rle_abs M) as HM'.
  assert (Hd2 : 0 < 4 * epsilon * sigma / (Rabs M + 1)).
  { apply Rdiv_lt_0_compat; nra. }
  split; [apply Rmin_glb_lt; lra|].
  intros r [Hr0 Hr].
  pose proof (Rmin_l (sigma / 2) (4 * epsilon * sigma / (Rabs M + 1))) as H1.
  pose proof (Rmin_r (sigma / 2) (4 * epsilon * sigma / (Rabs M + 1))) as H2.
  pose proof (lennard_jones_lower epsilon sigma r Hpos Hsigma Hr0 ltac:(lra)) as Hlow.
  apply Rlt_le_trans with (4 * epsilon * (sigma / r)); [|exact Hlow].
  apply Rle_lt_trans with (Rabs M); [exact HM'|].
  apply (Rmult_lt_reg_r r); [exact Hr0|].
  replace (4 * epsilon * (sigma / r) * r) with (4 * epsilon * sigma) by (field; lra).
  assert (Hr' : r * (Rabs M + 1) < 4 * epsilon * sigma).
  { apply (Rmult_lt_reg_r (/ (Rabs M + 1))); [apply Rinv_0_lt_compat; lra|].
    replace (r * (Rabs M + 1) * / (Rabs M + 1)) with r by (field; lra).
    unfold Rdiv in H2, Hr. lra. }
  nra.
Qed.

(** C9.  The text the code passes to the pair force, with its constants
    alpha = 0.5 and a = b = c = 1, parses; and for particle parameters whose
    pair values are epsilon = sqrt(epsilon1 epsilon2) (so epsilon >= 0),
    sigma = (sigma1 + sigma2) / 2 > 0 and 0 <= lambda_pair < 1: at r = 0 the
    denominator of x is alpha (1 - lambda_pair), which is strictly positive,
    so the energy has a value there, 4 epsilon lambda X (X - 1) with
    X = (2 / (1 - lambda_pair))^6, and it has a value within a fixed bound
    at every r >= 0.  At lambda_pair = 1 the same text has no value at r = 0
    and at r > 0 its value is the unmodified Lennard-Jones energy, which
    exceeds every bound as r tends to 0 (for epsilon > 0). *)
Theorem C9_softcore_energy_finite_at_zero (annihilate : bool)
    (sigma1 epsilon1 alchemical1 sigma2 epsilon2 alchemical2 lennard_jones_lambda : R) :
  0 <= epsilon1 * epsilon2 ->
  0 < pair_sigma sigma1 sigma2 ->
  0 <= pair_lambda annihilate lennard_jones_lambda alchemical1 alchemical2 < 1 ->
  exists (p : program) (epsilon sigma lambda : R),
    parse (softcore_energy_expression annihilate) = Some p
    /\ epsilon = pair_epsilon epsilon1 epsilon2
    /\ sigma = pair_sigma sigma1 sigma2
    /\ lambda = pair_lambda annihilate lennard_jones_lambda alchemical1 alchemical2
    /\ 0 <= epsilon
    /\ 1 / 2 * (1 - lambda) + 0 / sigma = 1 / 2 * (1 - lambda)
    /\ 0 < 1 / 2 * (1 - lambda)
    /\ value p (pair_valuation sigma1 epsilon1 alchemical1 sigma2 epsilon2 alchemical2
                  lennard_jones_lambda 0)
       = Some (4 * epsilon * lambda * (2 / (1 - lambda)) ^ 6 * ((2 / (1 - lambda)) ^ 6 - 1))
    /\ (forall r, 0 <= r ->
        exists energy,
          value p (pair_valuation sigma1 epsilon1 alchemical1 sigma2 epsilon2 alchemical2
                     lennard_jones_lambda r) = Some energy
          /\ Rabs energy
             <= 4 * epsilon * lambda * (2 / (1 - lambda)) ^ 6 * ((2 / (1 - lambda)) ^ 6 + 1))
    /\ (forall lennard_jones_lambda' alchemical1' alchemical2',
          pair_lambda annihilate lennard_jones_lambda' alchemical1' alchemical2' = 1 ->
          value p (pair_valuation sigma1 epsilon1 alchemical1' sigma2 epsilon2 alchemical2'
                     lennard_jones_lambda' 0) = None
          /\ forall r, 0 < r ->
               value p (pair_valuation sigma1 epsilon1 alchemical1' sigma2 epsilon2
                          alchemical2' lennard_jones_lambda' r)
               = Some (lennard_jones_energy epsilon sigma r))
    /\ (0 < epsilon ->
        forall M, exists delta,
          0 < delta /\ forall r, 0 < r < delta -> M < lennard_jones_energy epsilon sigma r).
Proof.
  intros Hepsilon Hsigma [Hl0 Hl1].
  assert (exists p, parse (softcore_energy_expression annihilate) = Some p) as [p Hparse]
    by (destruct annihilate; eexists; vm_compute; reflexivity).
  pose proof (fun a1 a2 L r => pair_value annihilate sigma1 epsilon1 a1 sigma2 epsilon2 a2
                                 L r p Hparse Hepsilon Hsigma) as Hvalue.
  set (epsilon := pair_epsilon epsilon1 epsilon2) in *.
  set (sigma := pair_sigma sigma1 sigma2) in *.
  assert (0 <= epsilon) as Heps0 by apply sqrt_pos.
  exists p, epsilon, sigma,
    (pair_lambda annihilate lennard_jones_lambda alchemical1 alchemical2).
  pose proof (fun r => Hvalue alchemical1 alchemical2 lennard_jones_lambda r
                         ltac:(lra)) as Hsoft.
  set (lambda := pair_lambda annihilate lennard_jones_lambda alchemical1 alchemical2) in *.
  split; [exact Hparse|]. split; [done|]. split; [done|]. split; [done|].
  split; [exact Heps0|].
  split; [unfold Rdiv at 2; rewrite Rmult_0_l; ring|]. split; [lra|].
  split; [|split; [|split]].
  - rewrite Hsoft by lra.
    destruct (softcore_x_bounds sigma lambda 0 Hsigma Hl1 ltac:(lra)) as [Hd _].
    destruct (Req_dec_T _ _) as [Hd0|_]; [done|].
    replace (1 / (1 / 2 * (1 - lambda) + 0 / sigma)) with (2 / (1 - lambda))
      by (field; lra).
    done.
  - intros r Hr. rewrite Hsoft by done.
    destruct (softcore_x_bounds sigma lambda r Hsigma Hl1 Hr) as (Hd & Hx0 & Hx1).
    destruct (Req_dec_T _ _) as [Hd0|_]; [done|].
    eexists. split; [reflexivity|].
    set (x := (1 / (1 / 2 * (1 - lambda) + r / sigma)) ^ 6) in *.
    set (X := (2 / (1 - lambda)) ^ 6) in *.
    assert (Hk : 0 <= 4 * epsilon * lambda) by nra.
    replace (4 * epsilon * lambda * x * (x - 1))
      with (4 * epsilon * lambda * (x * (x - 1))) by ring.
    replace (4 * epsilon * lambda * X * (X + 1))
      with (4 * epsilon * lambda * (X * (X + 1))) by ring.
    rewrite Rabs_mult, (Rabs_pos_eq _ Hk).
    apply Rmult_le_compat_l; [exact Hk|].
    apply Rabs_le. split; nra.
  - intros L' a1' a2' Hone. split.
    + rewrite Hvalue by lra. rewrite Hone.
      destruct (Req_dec_T _ _) as [_|Hd]; [done|].
      exfalso. apply Hd. unfold Rdiv at 2. rewrite Rmult_0_l. ring.
    + intros r Hr. rewrite Hvalue by lra. rewrite Hone.
      assert (0 < r / sigma) by (apply Rdiv_lt_0_compat; lra).
      destruct (Req_dec_T _ _) as [Hd|_]; [lra|].
      f_equal. unfold lennard_jones_energy.
      replace (1 / (1 / 2 * (1 - 1) + r / sigma)) with (sigma / r) by (field; lra).
      ring.
  - intros Hpos M. by apply lennard_jones_unbounded.
Qed.

Lemma C9_softcore_energy_witness :
  0 <= 1 * 1
  /\ 0 < pair_sigma 1 1
  /\ 0 <= pair_lambda true (1 / 2) 1 0 < 1
  /\ exists (p : program),
       parse (softcore_energy_expression true) = Some p
       /\ value p (pair_valuation 1 1 1 1 1 0 (1 / 2) 0) = Some (4 * 1 * (1 / 2) * 4 ^ 6 * (4 ^ 6 - 1)).
Proof.
  assert (0 <= 1 * 1) as Hepsilon by lra.
  assert (0 < pair_sigma 1 1) as Hsigma by (unfold pair_sigma; lra).
  assert (0 <= pair_lambda true (1 / 2) 1 0 < 1) as Hlambda by (unfold pair_lambda; lra).
  split; [exact Hepsilon|]. split; [exact Hsigma|]. split; [exact Hlambda|].
  destruct (C9_softcore_energy_finite_at_zero true 1 1 1 1 1 0 (1 / 2)
              Hepsilon Hsigma Hlambda)
    as (p & epsilon & sigma & lambda & Hparse & -> & -> & -> & _ & _ & _ & Hzero & _).
  exists p. split; [exact Hparse|].
  rewrite Hzero. f_equal. unfold pair_epsilon, pair_lambda.
  replace (1 * 1) with 1 by ring. rewrite sqrt_1.
  replace (2 / (1 - 1 / 2 * (1 * (1 - 0) + 0 * (1 - 1) + 1 * 0))) with 4 by field.
  ring.
Defined.

End Softcore.

(** * Further properties of the module *)

(** ** [_is_restraint] (lines 727-764) *)

(** [_is_restraint(self, valence_atoms)] *)
Definition _is_restraint (self : loc) (valence_atoms : list Z) : M bool :=
  do factory <- readFactory self;
  do ligand_atomset <- readSet (ligand_atomset factory);
  let valence_atomset : gset Z := list_to_set valence_atoms in
  let intersection := valence_atomset ∩ ligand_atomset in
  if (1 <=? size intersection) && (size intersection <? size valence_atomset)
  then ret true
  else ret false.

Lemma intersection_size_spans (valence ligand : gset Z) :
  (1 <=? size (valence ∩ ligand)) && (size (valence ∩ ligand) <? size valence) = true
  <-> (exists a, a ∈ valence /\ a ∈ ligand) /\ (exists b, b ∈ valence /\ b ∉ ligand).
Proof.
  assert (Hsize : size valence
                  = size (valence ∩ ligand) + size (valence ∖ (valence ∩ ligand))).
  { rewrite <- size_union by set_solver.
    f_equal. apply union_difference_L. set_solver. }
  rewrite andb_true_iff, Nat.leb_le, Nat.ltb_lt. split.
  - intros [Hpos Hlt]. split.
    + destruct (size_pos_elem_of (valence ∩ ligand)) as [a Ha]; [lia|].
      exists a. set_solver.
    + destruct (size_pos_elem_of (valence ∖ (valence ∩ ligand))) as [b Hb]; [lia|].
      exists b. set_solver.
  - intros [(a & Ha & Ha') (b & Hb & Hb')]. split.
    + assert (size (valence ∩ ligand) <> 0); [|lia].
      apply size_non_empty_iff. set_solver.
    + assert (size (valence ∖ (valence ∩ ligand)) <> 0); [|lia].
      apply size_non_empty_iff. set_solver.
Qed.

(** X1.  [_is_restraint] returns normally, changes nothing, and answers True
    exactly when the valence term has at least one atom in the ligand set and
    at least one atom outside it; in particular it answers False for an empty
    list of atoms. *)
Theorem is_restraint_iff_term_spans_ligand_boundary (h : heap) (self : loc)
    (R : System Force) (ligand valence_atoms : list Z) :
  factoryAt h self R ligand ->
  exists answer : bool,
    _is_restraint self valence_atoms h = (h, Ok answer)
    /\ (answer = true
        <-> (exists a, a ∈ valence_atoms /\ a ∈ ligand)
            /\ (exists b, b ∈ valence_atoms /\ b ∉ ligand))
    /\ (valence_atoms = [] -> answer = false).
Proof.
  intros (fac & Hfac & _ & Hset & _).
  pose proof (intersection_size_spans (list_to_set valence_atoms) (list_to_set ligand))
    as Hspans.
  setoid_rewrite elem_of_list_to_set in Hspans.
  unfold _is_restraint, bind, readFactory, readSet. rewrite Hfac, Hset.
  destruct ((1 <=? size _) && _) eqn:Htest.
  - exists true. split; [reflexivity|]. split.
    + split; [intros _; by apply Hspans|done].
    + intros ->. destruct (proj1 Hspans eq_refl) as [(a & Ha & _) _].
      by apply elem_of_nil in Ha.
  - exists false. split; [reflexivity|]. split; [|done].
    split; [done|]. intros Hex. apply Hspans in Hex. discriminate Hex.
Qed.

Lemma is_restraint_witness :
  factoryAt example_heap1 example_self Example.reference Example.ligand
  /\ exists answer : bool,
       _is_restraint example_self [1; 2]%Z example_heap1 = (example_heap1, Ok answer)
       /\ (answer = true
           <-> (exists a, a ∈ [1; 2]%Z /\ a ∈ Example.ligand)
               /\ (exists b, b ∈ [1; 2]%Z /\ b ∉ Example.ligand))
       /\ ([1; 2]%Z = [] -> answer = false).
Proof.
  split; [exact example_factoryAt|].
  apply (is_restraint_iff_term_spans_ligand_boundary example_heap1 example_self
           Example.reference Example.ligand [1; 2]%Z example_factoryAt).
Defined.

(** ** The softcore GB force (lines 419-487 and 638-644) *)

Lemma foldl_result_raise {A B} (f : A -> B -> result A) (e : exn) (xs : list B) :
  foldl (fun acc x => match acc with Ok a => f a x | Raise e' => Raise e' end) (Raise e) xs
  = Raise e.
Proof. induction xs as [|x xs IH]; simpl; [done|exact IH]. Qed.

(** The parameters [_createCustomSoftcoreGBOBC] gives a particle. *)
Definition softcoreGBParticle (p : float * float * float) (lambda_factor : float)
    : list float :=
  let '(charge, radius, scaling_factor) := p in
  [charge * lambda_factor; radius; scaling_factor; lambda_factor]%float.

Lemma addSoftcoreGBParticles_prefix (reference_force : GBSAOBCForce_t)
    (particle_lambdas : list float) (custom : CustomGBForce_t) (n : nat) :
  n <= length (gb_particles reference_force) ->
  n <= length particle_lambdas ->
  foldl (fun acc particle_index =>
           match acc with
           | Ok custom =>
               match gb_particles reference_force !! particle_index with
               | Some (charge, radius, scaling_factor) =>
                   match particle_lambdas !! particle_index with
                   | Some lambda_factor =>
                       let parameters :=
                         [charge * lambda_factor; radius; scaling_factor; lambda_factor]%float in
                       Ok (cgb_addParticle parameters custom)
                   | None => Raise IndexError
                   end
               | None => Ok custom
               end
           | Raise e => Raise e
           end)
        (Ok custom) (seq 0 n)
  = Ok (mkCustomGB (cgb_perParticle custom) (cgb_method custom) (cgb_cutoff custom)
          (cgb_globals custom) (cgb_computedValues custom) (cgb_energyTerms custom)
          (cgb_particles custom
           ++ take n (zip_with softcoreGBParticle (gb_particles reference_force)
                        particle_lambdas))).
Proof.
  induction n as [|n IH]; intros Hn1 Hn2.
  - simpl. rewrite app_nil_r. by destruct custom.
  - rewrite seq_S, foldl_app, IH by lia. simpl.
    destruct (lookup_lt_is_Some_2 (gb_particles reference_force) n ltac:(lia))
      as [[[charge radius] scaling_factor] Hp].
    destruct (lookup_lt_is_Some_2 particle_lambdas n ltac:(lia)) as [lambda_factor Hl].
    rewrite Hp, Hl. unfold cgb_addParticle. simpl.
    rewrite <- app_assoc. do 2 f_equal. f_equal.
    symmetry. apply take_S_r.
    apply lookup_zip_with_Some. by exists (charge, radius, scaling_factor), lambda_factor.
Qed.

(** The particle loop of [_createCustomSoftcoreGBOBC]: one custom particle per
    particle of the reference force when [particle_lambdas] is long enough,
    and [IndexError] when it is shorter than the reference force. *)
Lemma addSoftcoreGBParticles_spec (reference_force : GBSAOBCForce_t)
    (particle_lambdas : list float) (custom : CustomGBForce_t) :
  addSoftcoreGBParticles reference_force particle_lambdas custom
  = if decide (length (gb_particles reference_force) <= length particle_lambdas)
    then Ok (mkCustomGB (cgb_perParticle custom) (cgb_method custom) (cgb_cutoff custom)
               (cgb_globals custom) (cgb_computedValues custom) (cgb_energyTerms custom)
               (cgb_particles custom
                ++ zip_with softcoreGBParticle (gb_particles reference_force)
                     particle_lambdas))
    else Raise IndexError.
Proof.
  unfold addSoftcoreGBParticles, range.
  destruct (decide _) as [Hle|Hgt].
  - rewrite addSoftcoreGBParticles_prefix by lia.
    rewrite take_ge; [done|]. rewrite length_zip_with. lia.
  - replace (length (gb_particles reference_force))
      with (length particle_lambdas
            + S (length (gb_particles reference_force) - S (length particle_lambdas)))
      by lia.
    rewrite seq_app, foldl_app, addSoftcoreGBParticles_prefix by lia.
    simpl.
    destruct (lookup_lt_is_Some_2 (gb_particles reference_force) (length particle_lambdas)
                ltac:(lia)) as [[[charge radius] scaling_factor] Hp].
    rewrite Hp, (lookup_ge_None_2 particle_lambdas) by lia.
    apply (foldl_result_raise
             (fun custom particle_index =>
                match gb_particles reference_force !! particle_index with
                | Some (charge, radius, scaling_factor) =>
                    match particle_lambdas !! particle_index with
                    | Some lambda_factor =>
                        Ok (cgb_addParticle
                              [charge * lambda_factor; radius; scaling_factor;
                               lambda_factor]%float custom)
                    | None => Raise IndexError
                    end
                | None => Ok custom
                end)).
Qed.

Lemma updateForce_last (h : heap) (f : Force) (g : Force -> result Force) :
  updateForce (length h) g (h ++ [OForce f])
  = match g f with
    | Ok f' => (h ++ [OForce f'], Ok tt)
    | Raise e => (h ++ [OForce f], Raise e)
    end.
Proof.
  unfold updateForce. rewrite list_lookup_middle by done.
  destruct (g f) as [f'|e]; [|done].
  by rewrite insert_app_r_alt, Nat.sub_diag by done.
Qed.

(** [_createCustomSoftcoreGBOBC] on any store: it allocates one force object
    and touches nothing else. *)
Lemma createCustomSoftcoreGBOBC_alloc (h : heap) (reference_force : GBSAOBCForce_t)
    (particle_lambdas : list float) (sasa_model : string) :
  _createCustomSoftcoreGBOBC reference_force particle_lambdas sasa_model h
  = match addSoftcoreGBParticles reference_force particle_lambdas
            (softcoreGBTemplate reference_force sasa_model) with
    | Ok custom => (h ++ [OForce (CustomGBForce custom)], Ok (length h))
    | Raise e =>
        (h ++ [OForce (CustomGBForce (softcoreGBTemplate reference_force sasa_model))],
         Raise e)
    end.
Proof.
  unfold _createCustomSoftcoreGBOBC, softcoreGBTemplate.
  unfold bind at 1. unfold alloc at 1.
  destruct (String.eqb sasa_model "ACE");
    repeat (unfold bind at 1;
            first [rewrite updateForce_last; cbn [onCustomGB onCustomGB_fallible]
                  |unfold ret at 1]);
    by destruct (addSoftcoreGBParticles _ _ _).
Qed.



(** X3.  Given fewer lambdas than the reference GB force has particles,
    [_createCustomSoftcoreGBOBC] raises IndexError; the objects that existed
    before are unchanged. *)
Theorem createCustomSoftcoreGBOBC_short_lambdas_raise (h : heap)
    (reference_force : GBSAOBCForce_t) (particle_lambdas : list float)
    (sasa_model : string) :
  length particle_lambdas < length (gb_particles reference_force) ->
  exists G,
    _createCustomSoftcoreGBOBC reference_force particle_lambdas sasa_model h
    = (h ++ G, Raise IndexError).
Proof.
  intros Hlen.
  rewrite createCustomSoftcoreGBOBC_alloc, addSoftcoreGBParticles_spec.
  rewrite decide_False by lia. by eexists.
Qed.

Lemma createCustomSoftcoreGBOBC_short_lambdas_witness :
  length [1.0; 0.5]%float < length (gb_particles Example.gbsa)
  /\ exists G,
       _createCustomSoftcoreGBOBC Example.gbsa [1.0; 0.5]%float "ACE" Example.heap0
       = (Example.heap0 ++ G, Raise IndexError).
Proof.
  split; [simpl; lia|].
  apply (createCustomSoftcoreGBOBC_short_lambdas_raise Example.heap0 Example.gbsa
           [1.0; 0.5]%float "ACE").
  simpl. lia.
Defined.

(** ** Ligand indices and the numpy array of lambdas (lines 641-642) *)

(** The integer indices numpy accepts for an array of length [n]. *)
Definition in_numpy_range (n : nat) (i : Z) : Prop :=
  (- Z.of_nat n <= i < Z.of_nat n)%Z.

(** Whether position [k] of an array of length [n] is addressed by one of
    [indices], directly or counting from the end. *)
Definition numpy_hit (n : nat) (indices : list Z) (k : nat) : bool :=
  existsb (fun i => (i =? Z.of_nat k)%Z || (i =? Z.of_nat k - Z.of_nat n)%Z) indices.

Lemma numpy_index_Ok (n : nat) (i : Z) (j : nat) :
  numpy_index n i = Ok j ->
  in_numpy_range n i /\ j < n
  /\ forall k, k < n -> ((i =? Z.of_nat k)%Z || (i =? Z.of_nat k - Z.of_nat n)%Z = true <-> j = k).
Proof.
  unfold numpy_index, in_numpy_range.
  destruct ((0 <=? i)%Z && (i <? Z.of_nat n)%Z) eqn:H1.
  - intros [= <-]. apply andb_true_iff in H1 as [?%Z.leb_le ?%Z.ltb_lt].
    split; [lia|]. split; [lia|]. intros k Hk.
    rewrite orb_true_iff, !Z.eqb_eq. lia.
  - destruct ((- Z.of_nat n <=? i)%Z && (i <? 0)%Z) eqn:H2; [|done].
    intros [= <-]. apply andb_true_iff in H2 as [?%Z.leb_le ?%Z.ltb_lt].
    split; [lia|]. split; [lia|]. intros k Hk.
    rewrite orb_true_iff, !Z.eqb_eq. lia.
Qed.

Lemma numpy_index_Raise (n : nat) (i : Z) (e : exn) :
  numpy_index n i = Raise e -> e = IndexError /\ ~ in_numpy_range n i.
Proof.
  unfold numpy_index, in_numpy_range.
  destruct ((0 <=? i)%Z && (i <? Z.of_nat n)%Z) eqn:H1; [done|].
  destruct ((- Z.of_nat n <=? i)%Z && (i <? 0)%Z) eqn:H2; [done|].
  intros [= <-]. split; [done|].
  apply andb_false_iff in H1, H2.
  rewrite Z.leb_gt, Z.ltb_ge in H1, H2. lia.
Qed.

(** [a[indices] = v]: either every index is in range and exactly the addressed
    positions are overwritten, or some index is out of range and the
    assignment raises IndexError. *)
Lemma numpy_setitem_spec (a : list float) (indices : list Z) (v : float) :
  match numpy_setitem a indices v with
  | Ok a' =>
      Forall (in_numpy_range (length a)) indices
      /\ length a' = length a
      /\ forall k x, a !! k = Some x ->
                     a' !! k = Some (if numpy_hit (length a) indices k then v else x)
  | Raise e =>
      e = IndexError /\ Exists (fun i => ~ in_numpy_range (length a) i) indices
  end.
Proof.
  unfold numpy_setitem.
  revert a. induction indices as [|i indices IH]; intros a.
  - simpl. split; [constructor|]. split; [done|]. by intros k x ->.
  - simpl. destruct (numpy_index (length a) i) as [j|e] eqn:Hidx.
    + apply numpy_index_Ok in Hidx as (Hrange & Hj & Hhit).
      specialize (IH (<[j := v]> a)). rewrite length_insert in IH.
      destruct (foldl _ (Ok (<[j := v]> a)) indices) as [a'|e].
      * destruct IH as (Hall & Hlen & Hlook).
        split; [by constructor|]. split; [done|].
        intros k x Hk.
        pose proof (lookup_lt_Some _ _ _ Hk) as Hlt.
        destruct (decide (j = k)) as [->|Hne].
        -- rewrite (Hlook k v) by (by apply list_lookup_insert_eq).
           rewrite (proj2 (Hhit k Hlt) eq_refl). simpl.
           by destruct (numpy_hit (length a) indices k).
        -- rewrite (Hlook k x) by (by rewrite list_lookup_insert_ne).
           destruct ((i =? Z.of_nat k)%Z || (i =? Z.of_nat k - Z.of_nat (length a))%Z)
             eqn:Hik; [|done].
           by apply Hhit in Hik.
      * destruct IH as [-> Hex]. split; [done|]. by apply Exists_cons_tl.
    + apply numpy_index_Raise in Hidx as [-> Hout].
      rewrite (foldl_result_raise
                 (fun a i => match numpy_index (length a) i with
                             | Ok j => Ok (<[j := v]> a)
                             | Raise e => Raise e
                             end)).
      split; [done|]. by apply Exists_cons_hd.
Qed.

(** ** When the build succeeds *)

(** What one reference force asks for, and only when ligandElectrostatics is
    not 1: a GB force, that the ligand indices address the lambda array and
    the array covers its particles; a nonbonded force with an exception whose
    charge product is to be rescaled, that ligandElectrostatics ** 2 is a
    value. *)
Definition forceBuildable (float_sqr : squaring)
    (ligand : list Z) (alchemical_state : AlchemicalState)
    (numParticles : nat) (f : Force) : Prop :=
  match f with
  | GBSAOBCForce gb =>
      float_ne (ligandElectrostatics alchemical_state) 1.0 = true ->
      Forall (in_numpy_range numParticles) ligand
      /\ length (gb_particles gb) <= numParticles
  | NonbondedForce nb =>
      float_ne (ligandElectrostatics alchemical_state) 1.0 = true ->
      annihilateElectrostatics alchemical_state = true ->
      forall iatom jatom chargeprod sigma epsilon,
        (iatom, jatom, chargeprod, sigma, epsilon) ∈ nb_exceptions nb ->
        iatom ∈ ligand -> jatom ∈ ligand ->
        exists square, float_sqr (ligandElectrostatics alchemical_state) = Ok square
  | _ => True
  end.

(** The exceptions a build can end with: IndexError from the lambda array of a
    GB force, or whatever ligandElectrostatics ** 2 raises. *)
Definition buildError (float_sqr : squaring)
    (alchemical_state : AlchemicalState) (e : exn) : Prop :=
  e = IndexError \/ float_sqr (ligandElectrostatics alchemical_state) = Raise e.

Lemma scaleElectrostatics_buildable (float_sqr : squaring)
    (ligand : list Z) (alchemical_state : AlchemicalState)
    (numParticles : nat) (nb : NonbondedForce_t) :
  match scaleElectrostatics float_sqr (list_to_set ligand) alchemical_state nb with
  | Ok _ => forceBuildable float_sqr ligand alchemical_state numParticles (NonbondedForce nb)
  | Raise e =>
      float_sqr (ligandElectrostatics alchemical_state) = Raise e
      /\ ~ forceBuildable float_sqr ligand alchemical_state numParticles (NonbondedForce nb)
  end.
Proof.
  destruct (float_ne (ligandElectrostatics alchemical_state) 1.0) eqn:Hne.
  - rewrite (scaleElectrostatics_spec float_sqr) by done. simpl. rewrite Hne.
    destruct (float_sqr (ligandElectrostatics alchemical_state)) as [square|e].
    + intros _ _ iatom jatom chargeprod sigma epsilon _ _ _. by exists square.
    + destruct (existsb _ _) eqn:Hex.
      * split; [done|]. intros Hb.
        apply existsb_exists in Hex as ([[[[iatom jatom] chargeprod] sigma] epsilon] & Hin & HP).
        simpl in HP. apply andb_true_iff in HP as [HP Ha].
        apply andb_true_iff in HP as [Hi Hj].
        rewrite bool_decide_ligand_atomset in Hi, Hj.
        apply bool_decide_eq_true in Hi, Hj. apply list_elem_of_In in Hin.
        by destruct (Hb eq_refl Ha _ _ _ _ _ Hin Hi Hj).
      * intros _ Ha iatom jatom chargeprod sigma epsilon Hin Hi Hj.
        assert (existsb (squaresChargeProduct (list_to_set ligand) alchemical_state)
                  (nb_exceptions nb) = true) as Hex'; [|congruence].
        apply existsb_exists. exists (iatom, jatom, chargeprod, sigma, epsilon).
        split; [by apply list_elem_of_In|]. simpl.
        rewrite !bool_decide_ligand_atomset, Ha.
        by rewrite !bool_decide_eq_true_2.
  - unfold scaleElectrostatics. rewrite Hne. simpl. by rewrite Hne.
Qed.

Lemma softcoreGB_spec (ligand : list Z) (alchemical_state : AlchemicalState)
    (numParticles : nat) (gb : GBSAOBCForce_t) :
  match softcoreGB ligand alchemical_state numParticles gb with
  | Ok custom =>
      (Forall (in_numpy_range numParticles) ligand
       /\ length (gb_particles gb) <= numParticles)
      /\ length (cgb_particles custom) = length (gb_particles gb)
      /\ forall i charge radius scaling_factor,
           gb_particles gb !! i = Some (charge, radius, scaling_factor) ->
           cgb_particles custom !! i
           = Some (softcoreGBParticle (charge, radius, scaling_factor)
                     (if numpy_hit numParticles ligand i
                      then Float64.to_float32 (ligandElectrostatics alchemical_state)
                      else 1%float))
  | Raise e =>
      e = IndexError
      /\ ~ (Forall (in_numpy_range numParticles) ligand
            /\ length (gb_particles gb) <= numParticles)
  end.
Proof.
  unfold softcoreGB.
  pose proof (numpy_setitem_spec (replicate numParticles 1%float) ligand
                (Float64.to_float32 (ligandElectrostatics alchemical_state))) as Hset.
  rewrite length_replicate in Hset.
  destruct (numpy_setitem _ _ _) as [particle_lambdas|e].
  - destruct Hset as (Hall & Hlen & Hlook).
    rewrite addSoftcoreGBParticles_spec, Hlen.
    destruct (decide _) as [Hle|Hgt].
    + split; [done|].
      assert (Hnil : cgb_particles (softcoreGBTemplate gb "ACE") = []) by reflexivity.
      cbn [cgb_particles]. rewrite Hnil. cbn [app].
      split; [rewrite length_zip_with; lia|].
      intros i charge radius scaling_factor Hp.
      apply lookup_zip_with_Some.
      exists (charge, radius, scaling_factor),
        (if numpy_hit numParticles ligand i
         then Float64.to_float32 (ligandElectrostatics alchemical_state) else 1%float).
      split; [done|]. split; [done|].
      apply Hlook. apply lookup_replicate_2.
      apply lookup_lt_Some in Hp. lia.
    + split; [done|]. intros [_ Hle]. lia.
  - destruct Hset as [-> Hex]. split; [done|].
    intros [Hall _]. apply Exists_exists in Hex as (i & Hi & Hout).
    rewrite Forall_forall in Hall. by apply Hout, Hall.
Qed.

Lemma perturbedForces_buildable (float_sqr : squaring)
    (ligand : list Z) (alchemical_state : AlchemicalState)
    (numParticles : nat) (f : Force) :
  match perturbedForces float_sqr ligand (list_to_set ligand) alchemical_state numParticles f with
  | Ok _ => forceBuildable float_sqr ligand alchemical_state numParticles f
  | Raise e =>
      buildError float_sqr alchemical_state e
      /\ ~ forceBuildable float_sqr ligand alchemical_state numParticles f
  end.
Proof.
  destruct f as [ts|nb|gb|c|c|c|c|name state]; try done.
  - pose proof (scaleElectrostatics_buildable float_sqr ligand alchemical_state numParticles nb)
      as Hnb.
    pose proof (perturbedForces_nonbonded float_sqr ligand alchemical_state numParticles nb) as Hout.
    destruct (scaleElectrostatics float_sqr _ _ nb) as [scaled|e].
    + destruct Hout as (nb' & extra & -> & _). exact Hnb.
    + rewrite Hout. destruct Hnb as [Hsqr Hnot]. split; [by right|done].
  - simpl. destruct (float_ne (ligandElectrostatics alchemical_state) 1.0); [|done].
    pose proof (softcoreGB_spec ligand alchemical_state numParticles gb) as Hgb.
    destruct (softcoreGB _ _ _ _) as [custom|e].
    + intros _. apply Hgb.
    + destruct Hgb as [-> Hnot]. split; [by left|]. intros Hb. by apply Hnot, Hb.
Qed.

Lemma builtForces_buildable (float_sqr : squaring)
    (ligand : list Z) (alchemical_state : AlchemicalState)
    (numParticles : nat) (fs : list Force) :
  match builtForces float_sqr ligand (list_to_set ligand) alchemical_state numParticles fs with
  | Ok _ => Forall (forceBuildable float_sqr ligand alchemical_state numParticles) fs
  | Raise e =>
      buildError float_sqr alchemical_state e
      /\ ~ Forall (forceBuildable float_sqr ligand alchemical_state numParticles) fs
  end.
Proof.
  induction fs as [|f fs IH]; simpl; [constructor|].
  pose proof (perturbedForces_buildable float_sqr ligand alchemical_state numParticles f) as Hf.
  destruct (perturbedForces float_sqr _ _ _ _ f) as [out|e].
  - destruct (builtForces float_sqr _ _ _ _ fs) as [rest|e].
    + by constructor.
    + destruct IH as [He Hnot]. split; [done|]. intros Hall. apply Hnot.
      by eapply Forall_inv_tail.
  - destruct Hf as [He Hnot]. split; [done|]. intros Hall. apply Hnot.
    by eapply Forall_inv.
Qed.

(** X4.  createPerturbedSystem returns a system exactly when, with
    ligandElectrostatics different from 1, (a) for every GB force of the
    reference every ligand index lies in [-N, N) and the GB force has at most
    N particles, N being the particle count, and (b) for every nonbonded force
    with an exception between two ligand atoms, under
    annihilateElectrostatics, ligandElectrostatics ** 2 returns a value; at
    ligandElectrostatics = 1 it succeeds for every ligand list.  Otherwise it
    raises at build time: IndexError, or the exception ligandElectrostatics
    ** 2 raised.  In both cases the objects that existed before are
    unchanged. *)
Theorem createPerturbedSystem_succeeds_iff_buildable (float_sqr : squaring) (h : heap) (self : loc)
    (R : System Force) (ligand : list Z) (alchemical_state : AlchemicalState) :
  factoryAt h self R ligand ->
  (Forall (forceBuildable float_sqr ligand alchemical_state (length (particleMasses R))) (forces R) ->
   exists F, createPerturbedSystem float_sqr self alchemical_state h
             = (h ++ builtObjects h R F, Ok (length h)))
  /\ (~ Forall (forceBuildable float_sqr ligand alchemical_state (length (particleMasses R)))
          (forces R) ->
      exists G e,
        createPerturbedSystem float_sqr self alchemical_state h = (h ++ G, Raise e)
        /\ (e = IndexError
            \/ float_sqr (ligandElectrostatics alchemical_state) = Raise e))
  /\ ((exists h2 system, createPerturbedSystem float_sqr self alchemical_state h = (h2, Ok system))
      \/ (exists G e,
            createPerturbedSystem float_sqr self alchemical_state h = (h ++ G, Raise e)
            /\ (e = IndexError
                \/ float_sqr (ligandElectrostatics alchemical_state) = Raise e))).
Proof.
  intros Hfac.
  pose proof (createPerturbedSystem_run float_sqr h self R ligand alchemical_state Hfac) as Hrun.
  pose proof (builtForces_buildable float_sqr ligand alchemical_state (length (particleMasses R))
                (forces R)) as Hb.
  destruct (builtForces float_sqr _ _ _ _ _) as [F|e].
  - split; [intros _; by exists F|]. split; [done|].
    left. by eexists _, _.
  - destruct Hb as [He Hnot]. destruct Hrun as (G & Hfst & Hsnd).
    assert (Hraise : createPerturbedSystem float_sqr self alchemical_state h
                     = (h ++ G, Raise e)).
    { destruct (createPerturbedSystem float_sqr self alchemical_state h) as [h2 r].
      simpl in Hfst, Hsnd. by subst. }
    split; [done|]. split; [intros _; by exists G, e|].
    right. by exists G, e.
Qed.

(** X5.  In a build with ligandElectrostatics different from 1, a GB force of
    the reference is replaced by a custom GB force with the same number of
    particles; particle i keeps its radius and scale; when i is addressed by a
    ligand index (i itself, or i - N for a negative index, as numpy counts
    from the end) its lambda is ligandElectrostatics rounded to single
    precision and its charge is multiplied by that lambda; every other
    particle has lambda 1 and exactly its original charge. *)
Theorem build_replaces_GB_force_with_float32_lambdas (float_sqr : squaring) (h : heap) (self : loc)
    (R : System Force) (ligand : list Z) (alchemical_state : AlchemicalState)
    (h2 : heap) (system : loc) (force_index : nat) (gb : GBSAOBCForce_t) :
  factoryAt h self R ligand ->
  createPerturbedSystem float_sqr self alchemical_state h = (h2, Ok system) ->
  forces R !! force_index = Some (GBSAOBCForce gb) ->
  float_ne (ligandElectrostatics alchemical_state) 1.0 = true ->
  exists (custom : CustomGBForce_t),
    (exists (built : System Force) (pre post : list Force),
        snapshot h2 system = Some built
        /\ forces built = pre ++ CustomGBForce custom :: post
        /\ builtForces float_sqr ligand (list_to_set ligand) alchemical_state
             (length (particleMasses R)) (take force_index (forces R)) = Ok pre
        /\ builtForces float_sqr ligand (list_to_set ligand) alchemical_state
             (length (particleMasses R)) (drop (S force_index) (forces R)) = Ok post)
    /\ length (cgb_particles custom) = length (gb_particles gb)
    /\ forall i charge radius scaling_factor,
         gb_particles gb !! i = Some (charge, radius, scaling_factor) ->
         (numpy_hit (length (particleMasses R)) ligand i = true ->
          cgb_particles custom !! i
          = Some [charge * Float64.to_float32 (ligandElectrostatics alchemical_state);
                  radius; scaling_factor;
                  Float64.to_float32 (ligandElectrostatics alchemical_state)]%float)
         /\ (numpy_hit (length (particleMasses R)) ligand i = false ->
             cgb_particles custom !! i = Some [charge; radius; scaling_factor; 1.0]%float).
Proof.
  intros Hfac Hbuild Hforce Hne.
  destruct (createPerturbedSystem_Ok float_sqr _ _ _ _ _ _ _ Hfac Hbuild)
    as (F & HF & _ & _ & Hsnap).
  destruct (builtForces_lookup float_sqr _ _ _ _ _ _ _ _ Hforce HF)
    as (pre & out & post & Hpre & Hmid & Hpost & ->).
  simpl in Hmid. rewrite Hne in Hmid.
  pose proof (softcoreGB_spec ligand alchemical_state (length (particleMasses R)) gb)
    as Hgb.
  destruct (softcoreGB _ _ _ _) as [custom|e]; [|done].
  injection Hmid as <-. destruct Hgb as (_ & Hlen & Hlook).
  exists custom. split.
  - by exists (builtSystem R (pre ++ [CustomGBForce custom] ++ post)), pre, post.
  - split; [exact Hlen|].
    intros i charge radius scaling_factor Hp.
    rewrite (Hlook _ _ _ _ Hp).
    split; intros ->; simpl; [done|].
    by rewrite Float64.mul_1_r.
Qed.

(** ** Shape of the built system *)

(** The number of forces the loop body adds for one reference force. *)
Definition outputCount (alchemical_state : AlchemicalState) (f : Force) : nat :=
  match f with
  | NonbondedForce _ =>
      if float_ne (ligandLennardJones alchemical_state) 1.0
      then (if annihilateLennardJones alchemical_state then 3 else 2)
      else 1
  | _ => 1
  end.

Lemma perturbedForces_length (float_sqr : squaring)
    (ligand : list Z) (alchemical_state : AlchemicalState)
    (numParticles : nat) (f : Force) (out : list Force) :
  perturbedForces float_sqr ligand (list_to_set ligand) alchemical_state numParticles f = Ok out ->
  length out = outputCount alchemical_state f.
Proof.
  destruct f as [ts|nb|gb|c|c|c|c|name state]; simpl; try (by intros [= <-]).
  - destruct (scaleElectrostatics float_sqr (list_to_set ligand) alchemical_state nb)
      as [scaled|e]; [|done].
    destruct (float_ne (ligandLennardJones alchemical_state) 1.0); [|by intros [= <-]].
    destruct (softcoreLennardJones_spec ligand alchemical_state scaled)
      as (nb' & cn & cb & -> & _ & _ & _ & _ & Hcb).
    intros [= <-].
    by destruct (annihilateLennardJones alchemical_state), cb.
  - destruct (float_ne (ligandElectrostatics alchemical_state) 1.0); [|by intros [= <-]].
    destruct (softcoreGB _ _ _ _); [by intros [= <-]|done].
Qed.

Lemma builtForces_length (float_sqr : squaring)
    (ligand : list Z) (alchemical_state : AlchemicalState)
    (numParticles : nat) (fs F : list Force) :
  builtForces float_sqr ligand (list_to_set ligand) alchemical_state numParticles fs = Ok F ->
  length F = sum_list (map (outputCount alchemical_state) fs).
Proof.
  revert F. induction fs as [|f fs IH]; intros F; simpl; [by intros [= <-]|].
  destruct (perturbedForces float_sqr _ _ _ _ f) as [out|e] eqn:Hout; [|done].
  destruct (builtForces float_sqr _ _ _ _ fs) as [rest|e]; [|done].
  intros [= <-].
  by rewrite length_app, (perturbedForces_length float_sqr _ _ _ _ _ Hout), (IH rest).
Qed.

Lemma outputCount_pos (alchemical_state : AlchemicalState) (f : Force) :
  1 <= outputCount alchemical_state f.
Proof.
  destruct f; simpl; try lia.
  destruct (float_ne _ _), (annihilateLennardJones alchemical_state); lia.
Qed.

Lemma sum_outputCount_ge (alchemical_state : AlchemicalState) (fs : list Force) :
  length fs <= sum_list (map (outputCount alchemical_state) fs).
Proof.
  induction fs as [|f fs IH]; simpl; [lia|].
  pose proof (outputCount_pos alchemical_state f). lia.
Qed.

(** X6.  Every system the build returns has the box vectors, particle masses
    (hence particle count) and constraints of the reference, whatever the
    state.  It has one force per reference force, plus, for each nonbonded
    force when ligandLennardJones is not 1, one softcore pair force and, under
    annihilateLennardJones, one softcore bond force; no reference force is
    dropped. *)
Theorem built_system_keeps_particles_and_counts_forces (float_sqr : squaring)
    (h : heap) (self : loc)
    (R : System Force) (ligand : list Z) (alchemical_state : AlchemicalState)
    (h2 : heap) (system : loc) :
  factoryAt h self R ligand ->
  createPerturbedSystem float_sqr self alchemical_state h = (h2, Ok system) ->
  exists built : System Force,
    snapshot h2 system = Some built
    /\ boxVectors built = boxVectors R
    /\ particleMasses built = particleMasses R
    /\ constraints built = constraints R
    /\ length (forces built) = sum_list (map (outputCount alchemical_state) (forces R))
    /\ length (forces R) <= length (forces built).
Proof.
  intros Hfac Hbuild.
  destruct (createPerturbedSystem_Ok float_sqr _ _ _ _ _ _ _ Hfac Hbuild)
    as (F & HF & _ & _ & Hsnap).
  exists (builtSystem R F). split; [exact Hsnap|]. simpl.
  pose proof (builtForces_length float_sqr _ _ _ _ _ HF) as Hlen.
  pose proof (sum_outputCount_ge alchemical_state (forces R)).
  repeat split; try done. lia.
Qed.

(** ** Custom external and custom bond forces (lines 646-674) *)

(** X7.  A custom external force or a custom bond force of the reference is
    rebuilt parameter by parameter; the loop body returns normally and the
    rebuilt force equals the reference force -- same energy function, global
    parameters with their default values, per-particle (per-bond) parameter
    names, and particles (bonds) in the same order -- whatever the state and
    the ligand list. *)
Theorem custom_forces_are_rebuilt_unchanged (float_sqr : squaring) (ligand : list Z)
    (alchemical_state : AlchemicalState) (f : Force) (h0 X : heap) (s : System loc) :
  (exists c, f = CustomExternalForce c) \/ (exists c, f = CustomBondForce c) ->
  perturbForce float_sqr (length h0) ligand (list_to_set ligand) alchemical_state f
    (h0 ++ OSystem s :: X)
  = (h0 ++ OSystem (withForces s (length h0 + S (length X)) 1) :: (X ++ [OForce f]),
     Ok tt)
  /\ forall numParticles,
       perturbedForces float_sqr ligand (list_to_set ligand) alchemical_state numParticles f
       = Ok [f].
Proof.
  intros Hkind.
  assert (Hout : forall numParticles,
             perturbedForces float_sqr ligand (list_to_set ligand) alchemical_state numParticles f
             = Ok [f]).
  { intros n. destruct Hkind as [[c ->]|[c ->]]; simpl.
    - by rewrite copyCustomExternal_id.
    - by rewrite copyCustomBond_id. }
  split; [|exact Hout].
  pose proof (perturbForce_run float_sqr h0 X s ligand (list_to_set ligand) alchemical_state f)
    as Hstep.
  by rewrite Hout in Hstep.
Qed.

(** ** The softcore Lennard-Jones builder in full (lines 321-417) *)

(** The nonbonded method given to the softcore pair force (lines 409-414). *)
Definition softcoreMethod (m : NonbondedMethod) : NonbondedMethod :=
  match m with
  | Ewald | PME => CutoffPeriodic
  | _ => m
  end.

Lemma softcoreLennardJones_closed (alchemical_atom_indices : list Z)
    (alchemical_state : AlchemicalState) (nb : NonbondedForce_t) :
  softcoreLennardJones alchemical_atom_indices alchemical_state nb
  = (mkNonbonded (imap (zeroLigandEpsilon alchemical_atom_indices) (nb_particles nb))
       (map (zeroExceptionEpsilon alchemical_atom_indices alchemical_state)
          (nb_exceptions nb))
       (nb_method nb) (nb_cutoff nb) (nb_useDispersionCorrection nb),
     mkCustomNonbonded
       (softcore_energy_expression (annihilateLennardJones alchemical_state))
       [("lennard_jones_lambda", ligandLennardJones alchemical_state)]
       ["sigma"; "epsilon"; "alchemical"]
       (imap (softcoreParticle alchemical_atom_indices) (nb_particles nb))
       (map exceptionPair (nb_exceptions nb))
       (softcoreMethod (nb_method nb)) (nb_cutoff nb),
     if annihilateLennardJones alchemical_state
     then Some (mkCustomBond softcore_bond_energy_expression
                  [("lennard_jones_lambda", ligandLennardJones alchemical_state)]
                  ["sigma"; "epsilon"]
                  (concat (map (exceptionBond alchemical_atom_indices alchemical_state)
                             (nb_exceptions nb))))
     else None).
Proof.
  unfold softcoreLennardJones.
  rewrite copyLennardJonesParticles_spec, excludeExceptions_spec.
  unfold copyNonbondedMethod, softcoreMethod. cbn -[imap softcore_energy_expression
                                                     softcore_bond_energy_expression].
  destruct (annihilateLennardJones alchemical_state), (nb_method nb); reflexivity.
Qed.

(** The store after [_alchemicallyModifyLennardJones] has run on a system and
    the nonbonded force just added to it. *)
Lemma alchemicallyModifyLennardJones_result (h0 X : heap) (s : System loc)
    (nb : NonbondedForce_t) (ligand : list Z) (alchemical_state : AlchemicalState) :
  exists nb' cn cb,
    softcoreLennardJones ligand alchemical_state nb = (nb', cn, cb)
    /\ _alchemicallyModifyLennardJones (length h0) (length h0 + S (length X))
         ligand alchemical_state
         ((h0 ++ OSystem s :: X) ++ [OForce (NonbondedForce nb)])
       = ((h0 ++ OSystem (withForces s (length h0 + S (length X) + 1)
                            (1 + length (match cb with
                                         | Some b => [CustomBondForce b]
                                         | None => []
                                         end))) :: X)
            ++ map OForce (NonbondedForce nb' :: CustomNonbondedForce cn
                             :: match cb with
                                | Some b => [CustomBondForce b]
                                | None => []
                                end),
          Ok tt)
    /\ (forall o extra,
          ((h0 ++ OSystem o :: X) ++ map OForce (NonbondedForce nb' :: extra))
            !! (length h0 + S (length X))
          = Some (OForce (NonbondedForce nb')))
    /\ (forall o extra,
          ((h0 ++ OSystem o :: X)
             ++ map OForce (NonbondedForce nb' :: CustomNonbondedForce cn :: extra))
            !! (length h0 + S (length X) + 1)
          = Some (OForce (CustomNonbondedForce cn))).
Proof.
  pose proof (alchemicallyModifyLennardJones_run h0 X s nb ligand alchemical_state) as Hrun.
  destruct (softcoreLennardJones ligand alchemical_state nb) as [[nb' cn] cb] eqn:Hsc.
  rewrite Nat.add_0_r in Hrun.
  exists nb', cn, cb. split; [reflexivity|]. split; [exact Hrun|].
  assert (Hlen : forall o, length (h0 ++ OSystem o :: X) = length h0 + S (length X))
    by (intros o; rewrite length_app; reflexivity).
  split; intros o extra.
  - rewrite lookup_app_r by (rewrite Hlen; lia). by rewrite Hlen, Nat.sub_diag.
  - rewrite lookup_app_r by (rewrite Hlen; lia). rewrite Hlen.
    by replace (length h0 + S (length X) + 1 - (length h0 + S (length X))) with 1 by lia.
Qed.

(** X8.  The particle loop of the softcore builder: for particle i of the
    nonbonded force with parameters (charge, sigma, epsilon), the new pair
    force gets the particle [sigma, epsilon, 1] when i is a ligand atom and
    [sigma, epsilon, 0] otherwise, with the original epsilon; in the nonbonded
    force the particle keeps charge and sigma, and its epsilon is multiplied
    by 0.0 when i is a ligand atom and kept otherwise.  Both forces have as
    many particles as before. *)
Theorem softcore_builder_moves_ligand_epsilon_to_pair_force (h0 X : heap)
    (s : System loc) (nb : NonbondedForce_t) (ligand : list Z)
    (alchemical_state : AlchemicalState) (particle_index : nat)
    (charge sigma epsilon : float) :
  nb_particles nb !! particle_index = Some (charge, sigma, epsilon) ->
  exists (h' : heap) (nb' : NonbondedForce_t) (cn : CustomNonbondedForce_t),
    _alchemicallyModifyLennardJones (length h0) (length h0 + S (length X))
      ligand alchemical_state
      ((h0 ++ OSystem s :: X) ++ [OForce (NonbondedForce nb)])
    = (h', Ok tt)
    /\ h' !! (length h0 + S (length X)) = Some (OForce (NonbondedForce nb'))
    /\ h' !! (length h0 + S (length X) + 1) = Some (OForce (CustomNonbondedForce cn))
    /\ length (nb_particles nb') = length (nb_particles nb)
    /\ length (cnf_particles cn) = length (nb_particles nb)
    /\ nb_particles nb' !! particle_index
       = Some (charge, sigma,
               if bool_decide (Z.of_nat particle_index ∈ ligand)
               then (epsilon * 0.0)%float else epsilon)
    /\ cnf_particles cn !! particle_index
       = Some [sigma; epsilon;
               if bool_decide (Z.of_nat particle_index ∈ ligand)
               then 1%float else 0%float].
Proof.
  intros Hp.
  destruct (alchemicallyModifyLennardJones_result h0 X s nb ligand alchemical_state)
    as (nb' & cn & cb & Hsc & Hrun & Hnb & Hcn).
  rewrite softcoreLennardJones_closed in Hsc. injection Hsc as <- <- <-.
  eexists _, _, _. split; [exact Hrun|].
  split; [apply Hnb|]. split; [apply Hcn|].
  cbn [nb_particles cnf_particles].
  rewrite !length_imap, !list_lookup_imap, Hp. simpl.
  repeat split.
  by destruct (bool_decide (Z.of_nat particle_index ∈ ligand)).
Qed.

Lemma softcore_builder_moves_ligand_epsilon_witness :
  nb_particles Example.nonbonded !! 1 = Some (-0.5, 0.31, 0.1)%float
  /\ exists (h' : heap) (nb' : NonbondedForce_t) (cn : CustomNonbondedForce_t),
       _alchemicallyModifyLennardJones 0 1 Example.ligand example_half_state
         [OSystem (mkSystem (boxVectors Example.reference)
                     (particleMasses Example.reference)
                     (constraints Example.reference) [1]);
          OForce (NonbondedForce Example.nonbonded)]
       = (h', Ok tt)
       /\ h' !! 1 = Some (OForce (NonbondedForce nb'))
       /\ h' !! 2 = Some (OForce (CustomNonbondedForce cn))
       /\ length (nb_particles nb') = 3
       /\ length (cnf_particles cn) = 3
       /\ nb_particles nb' !! 1 = Some (-0.5, 0.31, 0.1 * 0.0)%float
       /\ cnf_particles cn !! 1 = Some [0.31; 0.1; 1.0]%float.
Proof.
  split; [reflexivity|].
  apply (softcore_builder_moves_ligand_epsilon_to_pair_force [] []
           (mkSystem (boxVectors Example.reference) (particleMasses Example.reference)
              (constraints Example.reference) [1])
           Example.nonbonded Example.ligand example_half_state 1
           (-0.5)%float 0.31%float 0.1%float).
  reflexivity.
Defined.

(** X9.  The softcore pair force takes over the cutoff distance of the
    nonbonded force and its nonbonded method, except that Ewald and PME become
    CutoffPeriodic; it has the one global parameter lennard_jones_lambda, set
    to ligandLennardJones, and the per-particle parameters sigma, epsilon,
    alchemical.  The nonbonded force keeps its own method, cutoff and
    dispersion-correction setting. *)
Theorem softcore_pair_force_converts_ewald_to_cutoff (h0 X : heap) (s : System loc)
    (nb : NonbondedForce_t) (ligand : list Z) (alchemical_state : AlchemicalState) :
  exists (h' : heap) (nb' : NonbondedForce_t) (cn : CustomNonbondedForce_t),
    _alchemicallyModifyLennardJones (length h0) (length h0 + S (length X))
      ligand alchemical_state
      ((h0 ++ OSystem s :: X) ++ [OForce (NonbondedForce nb)])
    = (h', Ok tt)
    /\ h' !! (length h0 + S (length X)) = Some (OForce (NonbondedForce nb'))
    /\ h' !! (length h0 + S (length X) + 1) = Some (OForce (CustomNonbondedForce cn))
    /\ (nb_method nb = Ewald \/ nb_method nb = PME -> cnf_method cn = CutoffPeriodic)
    /\ (nb_method nb <> Ewald -> nb_method nb <> PME -> cnf_method cn = nb_method nb)
    /\ cnf_cutoff cn = nb_cutoff nb
    /\ cnf_globals cn = [("lennard_jones_lambda", ligandLennardJones alchemical_state)]
    /\ cnf_perParticle cn = ["sigma"; "epsilon"; "alchemical"]
    /\ nb_method nb' = nb_method nb
    /\ nb_cutoff nb' = nb_cutoff nb
    /\ nb_useDispersionCorrection nb' = nb_useDispersionCorrection nb.
Proof.
  destruct (alchemicallyModifyLennardJones_result h0 X s nb ligand alchemical_state)
    as (nb' & cn & cb & Hsc & Hrun & Hnb & Hcn).
  rewrite softcoreLennardJones_closed in Hsc. injection Hsc as <- <- <-.
  eexists _, _, _. split; [exact Hrun|].
  split; [apply Hnb|]. split; [apply Hcn|].
  cbn [cnf_method cnf_cutoff cnf_globals cnf_perParticle nb_method nb_cutoff
       nb_useDispersionCorrection].
  split; [intros [-> | ->]; reflexivity|].
  split; [intros H1 H2; by destruct (nb_method nb)|].
  repeat split.
Qed.




(** ** [createPerturbedSystems] (lines 689-725) *)

Lemma forM_cons_Ok {A B} (f : A -> M B) (x : A) (xs : list A) (h h1 : heap) (y : B) :
  f x h = (h1, Ok y) ->
  forM f (x :: xs) h
  = match forM f xs h1 with
    | (h', Ok ys) => (h', Ok (y :: ys))
    | (h', Raise e) => (h', Raise e)
    end.
Proof.
  intros Hx. cbn [forM]. unfold bind at 1. rewrite Hx. unfold bind, ret.
  by destruct (forM f xs h1) as [h' [ys|e]].
Qed.

Lemma forM_cons_Raise {A B} (f : A -> M B) (x : A) (xs : list A) (h h1 : heap) (e : exn) :
  f x h = (h1, Raise e) -> forM f (x :: xs) h = (h1, Raise e).
Proof. intros Hx. cbn [forM]. unfold bind at 1. by rewrite Hx. Qed.

(** A state for which every force of the reference can be built. *)
Definition stateBuildable (float_sqr : squaring) (R : System Force) (ligand : list Z)
    (alchemical_state : AlchemicalState) : Prop :=
  Forall (forceBuildable float_sqr ligand alchemical_state (length (particleMasses R))) (forces R).

Lemma createPerturbedSystem_buildable_run (float_sqr : squaring)
    (h : heap) (self : loc) (R : System Force)
    (ligand : list Z) (alchemical_state : AlchemicalState) :
  factoryAt h self R ligand ->
  (stateBuildable float_sqr R ligand alchemical_state ->
   exists F, createPerturbedSystem float_sqr self alchemical_state h
             = (h ++ builtObjects h R F, Ok (length h)))
  /\ (~ stateBuildable float_sqr R ligand alchemical_state ->
      exists G e,
        createPerturbedSystem float_sqr self alchemical_state h = (h ++ G, Raise e)
        /\ buildError float_sqr alchemical_state e).
Proof.
  intros Hfac.
  pose proof (createPerturbedSystem_run float_sqr h self R ligand alchemical_state Hfac) as Hrun.
  pose proof (builtForces_buildable float_sqr ligand alchemical_state (length (particleMasses R))
                (forces R)) as Hb.
  unfold stateBuildable.
  destruct (builtForces float_sqr _ _ _ _ _) as [F|e].
  - split; [intros _; by exists F|done].
  - destruct Hb as [He Hnot]. destruct Hrun as (G & Hfst & Hsnd).
    split; [done|]. intros _. exists G, e. split; [|done].
    destruct (createPerturbedSystem float_sqr self alchemical_state h) as [h2 r].
    simpl in Hfst, Hsnd. by subst.
Qed.

Lemma createPerturbedSystems_all_buildable (float_sqr : squaring)
    (h : heap) (self : loc) (R : System Force)
    (ligand : list Z) (states : list AlchemicalState) :
  factoryAt h self R ligand ->
  Forall (stateBuildable float_sqr R ligand) states ->
  exists G systems,
    createPerturbedSystems float_sqr self states h = (h ++ G, Ok systems)
    /\ length systems = length states.
Proof.
  unfold createPerturbedSystems.
  revert h. induction states as [|st states IH]; intros h Hfac Hall.
  - exists [], []. by rewrite app_nil_r.
  - apply Forall_cons in Hall as [Hst Hall].
    destruct (proj1 (createPerturbedSystem_buildable_run float_sqr h self R ligand st Hfac) Hst)
      as [F Hrun].
    rewrite (forM_cons_Ok _ _ _ _ _ _ Hrun).
    destruct (IH (h ++ builtObjects h R F) (factoryAt_extend _ _ _ _ _ Hfac) Hall)
      as (G & systems & -> & Hlen).
    exists (builtObjects h R F ++ G), (length h :: systems).
    rewrite <- app_assoc. split; [done|]. simpl. by rewrite Hlen.
Qed.

Lemma createPerturbedSystems_first_failure (float_sqr : squaring)
    (h : heap) (self : loc) (R : System Force)
    (ligand : list Z) (before : list AlchemicalState) (alchemical_state : AlchemicalState)
    (after : list AlchemicalState) :
  factoryAt h self R ligand ->
  Forall (stateBuildable float_sqr R ligand) before ->
  ~ stateBuildable float_sqr R ligand alchemical_state ->
  exists G e,
    createPerturbedSystems float_sqr self (before ++ alchemical_state :: after) h
    = (h ++ G, Raise e)
    /\ buildError float_sqr alchemical_state e.
Proof.
  unfold createPerturbedSystems.
  revert h. induction before as [|st before IH]; intros h Hfac Hall Hbad.
  - destruct (proj2 (createPerturbedSystem_buildable_run float_sqr h self R ligand alchemical_state
                       Hfac) Hbad) as (G & e & Hrun & He).
    exists G, e. split; [by apply forM_cons_Raise|done].
  - apply Forall_cons in Hall as [Hst Hall].
    destruct (proj1 (createPerturbedSystem_buildable_run float_sqr h self R ligand st Hfac) Hst)
      as [F Hrun].
    simpl app. rewrite (forM_cons_Ok _ _ _ _ _ _ Hrun).
    destruct (IH (h ++ builtObjects h R F) (factoryAt_extend _ _ _ _ _ Hfac) Hall Hbad)
      as (G & e & -> & He).
    exists (builtObjects h R F ++ G), e. by rewrite <- app_assoc.
Qed.

(** X11.  [createPerturbedSystems] builds the states in order.  For an empty
    list it returns an empty list and changes nothing; when every state can be
    built it returns one system per state; and when some state cannot be built
    (a GB force with ligand indices out of range, or a nonbonded force with a
    ligand-ligand exception for which ligandElectrostatics ** 2 raises), the
    first such state makes the whole call raise, so that no system is
    returned: IndexError, or the exception that state's ligandElectrostatics
    ** 2 raised.  Objects that existed before the call are unchanged in every
    case. *)
Theorem createPerturbedSystems_builds_in_order_or_raises (float_sqr : squaring)
    (h : heap) (self : loc)
    (R : System Force) (ligand : list Z) :
  factoryAt h self R ligand ->
  createPerturbedSystems float_sqr self [] h = (h, Ok [])
  /\ (forall states,
        Forall (stateBuildable float_sqr R ligand) states ->
        exists G systems,
          createPerturbedSystems float_sqr self states h = (h ++ G, Ok systems)
          /\ length systems = length states)
  /\ (forall before alchemical_state after,
        Forall (stateBuildable float_sqr R ligand) before ->
        ~ stateBuildable float_sqr R ligand alchemical_state ->
        exists G e,
          createPerturbedSystems float_sqr self (before ++ alchemical_state :: after) h
          = (h ++ G, Raise e)
          /\ (e = IndexError
              \/ float_sqr (ligandElectrostatics alchemical_state) = Raise e)).
Proof.
  intros Hfac. split; [reflexivity|]. split.
  - intros states. by apply (createPerturbedSystems_all_buildable float_sqr).
  - intros before st after. by apply (createPerturbedSystems_first_failure float_sqr).
Qed.

(** ** The factory owns copies (lines 154-161) *)

(** X12.  Construction deep-copies what it is given: the factory, its
    reference system with its forces, its ligand list and its ligand set are
    all new objects; so whatever the caller later does in place to an object
    that existed before construction -- the system passed in, one of its
    forces -- the factory still holds the reference as it was at construction,
    and builds from it. *)
Theorem factory_is_isolated_from_later_changes_of_the_original (float_sqr : squaring) (h : heap)
    (reference_loc : loc) (R : System Force) (ligand : list Z) :
  snapshot h reference_loc = Some R ->
  exists (h1 : heap) (self : loc) (fac : Factory),
    AbsoluteAlchemicalFactory_init reference_loc ligand h = (h1, Ok self)
    /\ h1 !! self = Some (OFactory fac)
    /\ length h <= self
    /\ length h <= ligand_atoms fac
    /\ length h <= ligand_atomset fac
    /\ (forall x, x ∈ ownedLocs h1 (reference_system fac) -> length h <= x)
    /\ (forall l o, l < length h -> factoryAt (<[l := o]> h1) self R ligand)
    /\ (forall l o alchemical_state F,
          l < length h ->
          builtForces float_sqr ligand (list_to_set ligand) alchemical_state
            (length (particleMasses R)) (forces R) = Ok F ->
          exists h2 system,
            createPerturbedSystem float_sqr self alchemical_state (<[l := o]> h1) = (h2, Ok system)
            /\ snapshot h2 system = Some (builtSystem R F)).
Proof.
  intros Hsnap.
  exists (h ++ factoryObjects h R ligand), (length h + length (forces R) + 3),
    (mkFactory (length h + length (forces R)) (length h + length (forces R) + 1)
       (length h + length (forces R) + 2)).
  split; [by apply AbsoluteAlchemicalFactory_init_run|].
  assert (Hobjs : forall k,
             k < 4 ->
             (h ++ factoryObjects h R ligand) !! (length h + length (forces R) + k)
             = [OSystem (mkSystem (boxVectors R) (particleMasses R) (constraints R)
                           (seq (length h) (length (forces R))));
                OList ligand; OSet (list_to_set ligand);
                OFactory (mkFactory (length h + length (forces R))
                            (length h + length (forces R) + 1)
                            (length h + length (forces R) + 2))] !! k).
  { intros k Hk. unfold factoryObjects.
    rewrite <- Nat.add_assoc, lookup_app_r by lia.
    rewrite Nat.add_comm, Nat.add_sub, lookup_app_r by (rewrite length_map; lia).
    rewrite length_map. f_equal. lia. }
  split; [exact (Hobjs 3 ltac:(lia))|].
  cbn [ligand_atoms ligand_atomset reference_system].
  split; [lia|]. split; [lia|]. split; [lia|].
  assert (Hmut : forall l o, l < length h ->
             factoryAt (<[l := o]> (h ++ factoryObjects h R ligand))
               (length h + length (forces R) + 3) R ligand).
  { intros l o Hl. rewrite insert_app_l by done.
    pose proof (factoryAt_init (<[l := o]> h) R ligand []) as Hf.
    rewrite app_nil_r in Hf. unfold factoryObjects in *.
    by rewrite length_insert in Hf. }
  split; [|split; [exact Hmut|]].
  - intros x. unfold ownedLocs.
    rewrite <- (Nat.add_0_r (length h + length (forces R))), (Hobjs 0) by lia.
    simpl. intros [->|Hx]%elem_of_cons; [lia|].
    apply elem_of_seq in Hx. lia.
  - intros l o alchemical_state F Hl HF.
    pose proof (createPerturbedSystem_run float_sqr _ _ _ _ alchemical_state (Hmut l o Hl)) as Hrun.
    rewrite HF in Hrun. eexists _, _. split; [exact Hrun|].
    pose proof (snapshot_built (<[l := o]> (h ++ factoryObjects h R ligand)) R F [])
      as Hs.
    by rewrite app_nil_r in Hs.
Qed.

(** ** The other default protocols (lines 209-319) *)

Definition defaultComplexProtocolExplicit : list AlchemicalState :=
  [ AlchemicalState_init 0.00 1.00 1.00 1.0;
    AlchemicalState_init 0.00 0.00 1.00 1.0;
    AlchemicalState_init 0.00 0.00 0.95 1.0;
    AlchemicalState_init 0.00 0.00 0.90 1.0;
    AlchemicalState_init 0.00 0.00 0.80 1.0;
    AlchemicalState_init 0.00 0.00 0.70 1.0;
    AlchemicalState_init 0.00 0.00 0.60 1.0;
    AlchemicalState_init 0.00 0.00 0.50 1.0;
    AlchemicalState_init 0.00 0.00 0.40 1.0;
    AlchemicalState_init 0.00 0.00 0.30 1.0;
    AlchemicalState_init 0.00 0.00 0.20 1.0;
    AlchemicalState_init 0.00 0.00 0.10 1.0;
    AlchemicalState_init 0.00 0.00 0.00 1.0 ]%float.

Definition defaultSolventProtocolImplicit : list AlchemicalState :=
  [ AlchemicalState_init 0.00 1.00 1.00 1.0;
    AlchemicalState_init 0.00 0.00 1.00 1.0;
    AlchemicalState_init 0.00 0.00 0.00 1.0 ]%float.

Definition defaultVacuumProtocol : list AlchemicalState :=
  [ AlchemicalState_init 0.00 1.00 1.00 1.0;
    AlchemicalState_init 0.00 0.00 1.00 1.0;
    AlchemicalState_init 0.00 0.00 0.00 1.0 ]%float.

Definition defaultSolventProtocolExplicit : list AlchemicalState :=
  [ AlchemicalState_init 0.00 1.00 1.00 1.0;
    AlchemicalState_init 0.00 0.00 1.00 1.0;
    AlchemicalState_init 0.00 0.00 0.95 1.0;
    AlchemicalState_init 0.00 0.00 0.90 1.0;
    AlchemicalState_init 0.00 0.00 0.80 1.0;
    AlchemicalState_init 0.00 0.00 0.70 1.0;
    AlchemicalState_init 0.00 0.00 0.60 1.0;
    AlchemicalState_init 0.00 0.00 0.50 1.0;
    AlchemicalState_init 0.00 0.00 0.40 1.0;
    AlchemicalState_init 0.00 0.00 0.30 1.0;
    AlchemicalState_init 0.00 0.00 0.20 1.0;
    AlchemicalState_init 0.00 0.00 0.10 1.0;
    AlchemicalState_init 0.00 0.00 0.00 1.0 ]%float.

(** A protocol that starts fully interacting, first discharges the ligand and
    then removes its Lennard-Jones interactions, with torsions and restraints
    held fixed and the flags left at their defaults. *)
Definition decouplingProtocol (protocol : list AlchemicalState) : Prop :=
  protocol !! 0 = Some (AlchemicalState_init 0.0 1.0 1.0 1.0)
  /\ last protocol = Some (AlchemicalState_init 0.0 0.0 0.0 1.0)
  /\ (forall i s t,
        protocol !! i = Some s -> protocol !! S i = Some t ->
        PrimFloat.leb (ligandElectrostatics t) (ligandElectrostatics s) = true
        /\ PrimFloat.leb (ligandLennardJones t) (ligandLennardJones s) = true)
  /\ (forall i s,
        protocol !! i = Some s ->
        float_ne (ligandElectrostatics s) 0.0 = true ->
        PrimFloat.eqb (ligandLennardJones s) 1.0 = true)
  /\ Forall (fun s => ligandTorsions s = 1.0%float /\ relativeRestraints s = 0.0%float
                      /\ annihilateElectrostatics s = true
                      /\ annihilateLennardJones s = false) protocol.

Definition decouplingProtocolb (protocol : list AlchemicalState) : bool :=
  adjacentb (fun s t =>
               PrimFloat.leb (ligandElectrostatics t) (ligandElectrostatics s)
               && PrimFloat.leb (ligandLennardJones t) (ligandLennardJones s)) protocol
  && forallb (fun s => implb (float_ne (ligandElectrostatics s) 0.0)
                         (PrimFloat.eqb (ligandLennardJones s) 1.0)) protocol.

Lemma decouplingProtocolb_sound (protocol : list AlchemicalState) :
  protocol !! 0 = Some (AlchemicalState_init 0.0 1.0 1.0 1.0) ->
  last protocol = Some (AlchemicalState_init 0.0 0.0 0.0 1.0) ->
  Forall (fun s => ligandTorsions s = 1.0%float /\ relativeRestraints s = 0.0%float
                   /\ annihilateElectrostatics s = true
                   /\ annihilateLennardJones s = false) protocol ->
  decouplingProtocolb protocol = true ->
  decouplingProtocol protocol.
Proof.
  intros Hfirst Hlast Hall Hb.
  apply andb_prop in Hb as [Hadj Hlj].
  split; [exact Hfirst|]. split; [exact Hlast|]. split; [|split; [|exact Hall]].
  - intros i s t Hs Ht.
    apply andb_prop. exact (adjacentb_lookup _ _ _ _ _ Hadj Hs Ht).
  - intros i s Hs Hne.
    pose proof (forallb_lookup _ _ _ _ Hlj Hs) as Himp.
    cbv beta in Himp. by rewrite Hne in Himp.
Qed.

(** X13.  Each of the other four default protocols (complex in explicit
    solvent, solvent implicit and explicit, vacuum) starts with the fully
    interacting state (0, 1, 1, 1) and ends with (0, 0, 0, 1); from one state
    to the next neither the electrostatics nor the Lennard-Jones factor
    increases; Lennard-Jones stays at 1 as long as electrostatics is not 0;
    torsions are 1 and restraints 0 throughout, with the annihilation flags at
    their defaults.  The explicit-solvent protocols for complex and solvent
    are the same 13 states, and the vacuum protocol is the implicit-solvent
    one. *)
Theorem default_protocols_discharge_then_decouple :
  decouplingProtocol defaultComplexProtocolExplicit
  /\ decouplingProtocol defaultSolventProtocolImplicit
  /\ decouplingProtocol defaultVacuumProtocol
  /\ decouplingProtocol defaultSolventProtocolExplicit
  /\ defaultSolventProtocolExplicit = defaultComplexProtocolExplicit
  /\ length defaultComplexProtocolExplicit = 13
  /\ defaultVacuumProtocol = defaultSolventProtocolImplicit
  /\ length defaultSolventProtocolImplicit = 3.
Proof.
  split; [|split; [|split; [|split]]];
    try (apply decouplingProtocolb_sound;
         [reflexivity|reflexivity|repeat constructor|vm_compute; reflexivity]).
  repeat split.
Qed.

(** ** The thresholds [!= 1.0] (lines 613, 634, 638) *)

(** X14.  At ligandElectrostatics = 1 the electrostatics step is skipped
    altogether: in every built system a nonbonded force of the reference keeps
    the charge and sigma of every particle -- ligand atoms included -- and the
    atoms, charge product and sigma of every exception, and a GB force of the
    reference is carried over unchanged rather than replaced. *)
Theorem unit_electrostatics_leaves_charges_and_GB_unchanged (float_sqr : squaring)
    (h : heap) (self : loc)
    (R : System Force) (ligand : list Z) (alchemical_state : AlchemicalState)
    (h2 : heap) (system : loc) (force_index : nat) (f : Force) :
  factoryAt h self R ligand ->
  createPerturbedSystem float_sqr self alchemical_state h = (h2, Ok system) ->
  float_ne (ligandElectrostatics alchemical_state) 1.0 = false ->
  forces R !! force_index = Some f ->
  exists (built : System Force) (pre post : list Force),
    snapshot h2 system = Some built
    /\ builtForces float_sqr ligand (list_to_set ligand) alchemical_state
         (length (particleMasses R)) (take force_index (forces R)) = Ok pre
    /\ builtForces float_sqr ligand (list_to_set ligand) alchemical_state
         (length (particleMasses R)) (drop (S force_index) (forces R)) = Ok post
    /\ (forall gb, f = GBSAOBCForce gb -> forces built = pre ++ GBSAOBCForce gb :: post)
    /\ (forall nb, f = NonbondedForce nb ->
        exists nb' extra,
          forces built = pre ++ NonbondedForce nb' :: extra ++ post
          /\ (forall i charge sigma epsilon,
                nb_particles nb !! i = Some (charge, sigma, epsilon) ->
                exists epsilon',
                  nb_particles nb' !! i = Some (charge, sigma, epsilon'))
          /\ (forall k iatom jatom chargeprod sigma epsilon,
                nb_exceptions nb !! k = Some (iatom, jatom, chargeprod, sigma, epsilon) ->
                exists epsilon',
                  nb_exceptions nb' !! k
                  = Some (iatom, jatom, chargeprod, sigma, epsilon'))).
Proof.
  intros Hfac Hbuild Hle Hforce.
  destruct (createPerturbedSystem_Ok float_sqr _ _ _ _ _ _ _ Hfac Hbuild)
    as (F & HF & _ & _ & Hsnap).
  destruct (builtForces_lookup float_sqr _ _ _ _ _ _ _ _ Hforce HF)
    as (pre & out & post & Hpre & Hmid & Hpost & ->).
  exists (builtSystem R (pre ++ out ++ post)), pre, post.
  split; [exact Hsnap|]. split; [exact Hpre|]. split; [exact Hpost|]. split.
  - intros gb ->. simpl in Hmid. rewrite Hle in Hmid. by injection Hmid as <-.
  - intros nb ->.
    pose proof (perturbedForces_nonbonded float_sqr ligand alchemical_state
                  (length (particleMasses R)) nb) as Hnb.
    unfold scaleElectrostatics in Hnb. rewrite Hle in Hnb.
    destruct Hnb as (nb' & extra & Hout & Hp & He).
    rewrite Hout in Hmid. injection Hmid as <-.
    exists nb', extra. split; [done|]. split.
    + intros i charge sigma epsilon Hi. rewrite Hp.
      destruct (float_ne (ligandLennardJones alchemical_state) 1.0);
        [|by exists epsilon].
      rewrite list_lookup_imap, Hi. simpl.
      destruct (bool_decide (Z.of_nat i ∈ ligand)); by eexists.
    + intros k iatom jatom chargeprod sigma epsilon Hk. rewrite He.
      destruct (float_ne (ligandLennardJones alchemical_state) 1.0);
        [|by exists epsilon].
      rewrite list_lookup_fmap, Hk. simpl.
      destruct (annihilateLennardJones alchemical_state && bool_decide (iatom ∈ ligand)
                && bool_decide (jatom ∈ ligand)); by eexists.
Qed.

(** ** Negative ligand indices *)

Lemma numpy_hit_negative (n : nat) (indices : list Z) (i : Z) :
  i ∈ indices -> (- Z.of_nat n <= i < 0)%Z ->
  numpy_hit n indices (Z.to_nat (Z.of_nat n + i)) = true.
Proof.
  intros Hi Hrange. unfold numpy_hit. apply existsb_exists.
  exists i. split; [by apply list_elem_of_In|].
  apply orb_true_iff. right. apply Z.eqb_eq. lia.
Qed.

(** X15.  A negative ligand index i is treated differently by the two
    electrostatics paths of one build.  The numpy array of GB lambdas counts
    it from the end, so the custom GB force scales particle N + i; the
    nonbonded step tests membership of the particle index in the ligand set,
    so -- unless N + i is itself listed -- particle N + i of the nonbonded
    force keeps its charge and its epsilon. *)
Theorem negative_ligand_index_scales_GB_but_not_nonbonded (float_sqr : squaring)
    (h : heap) (self : loc)
    (R : System Force) (ligand : list Z) (alchemical_state : AlchemicalState)
    (h2 : heap) (system : loc) (nb : NonbondedForce_t) (gb : GBSAOBCForce_t)
    (i : Z) (charge sigma epsilon q radius scaling_factor : float) :
  factoryAt h self R ligand ->
  createPerturbedSystem float_sqr self alchemical_state h = (h2, Ok system) ->
  float_ne (ligandElectrostatics alchemical_state) 1.0 = true ->
  In (NonbondedForce nb) (forces R) ->
  In (GBSAOBCForce gb) (forces R) ->
  i ∈ ligand -> (i < 0)%Z ->
  Z.of_nat (Z.to_nat (Z.of_nat (length (particleMasses R)) + i)) ∉ ligand ->
  nb_particles nb !! Z.to_nat (Z.of_nat (length (particleMasses R)) + i)
  = Some (charge, sigma, epsilon) ->
  gb_particles gb !! Z.to_nat (Z.of_nat (length (particleMasses R)) + i)
  = Some (q, radius, scaling_factor) ->
  exists (built : System Force) (nb' : NonbondedForce_t) (extra : list Force)
         (custom : CustomGBForce_t),
    snapshot h2 system = Some built
    /\ perturbedForces float_sqr ligand (list_to_set ligand) alchemical_state
         (length (particleMasses R)) (NonbondedForce nb)
       = Ok (NonbondedForce nb' :: extra)
    /\ perturbedForces float_sqr ligand (list_to_set ligand) alchemical_state
         (length (particleMasses R)) (GBSAOBCForce gb)
       = Ok [CustomGBForce custom]
    /\ In (NonbondedForce nb') (forces built)
    /\ In (CustomGBForce custom) (forces built)
    /\ nb_particles nb' !! Z.to_nat (Z.of_nat (length (particleMasses R)) + i)
       = Some (charge, sigma, epsilon)
    /\ cgb_particles custom !! Z.to_nat (Z.of_nat (length (particleMasses R)) + i)
       = Some [q * Float64.to_float32 (ligandElectrostatics alchemical_state);
               radius; scaling_factor;
               Float64.to_float32 (ligandElectrostatics alchemical_state)]%float.
Proof.
  intros Hfac Hbuild Hne Hnb Hgb Hi Hneg Hnot Hp Hq.
  destruct (createPerturbedSystem_Ok float_sqr _ _ _ _ _ _ _ Hfac Hbuild)
    as (F & HF & _ & _ & Hsnap).
  set (N := length (particleMasses R)) in *.
  set (k := Z.to_nat (Z.of_nat N + i)) in *.
  pose proof (perturbedForces_nonbonded float_sqr ligand alchemical_state N nb) as Hnbout.
  destruct (scaleElectrostatics float_sqr (list_to_set ligand) alchemical_state nb)
    as [scaled|e] eqn:Hscaled.
  2:{ apply list_elem_of_In, list_elem_of_lookup in Hnb as [force_index Hforce].
      destruct (builtForces_lookup float_sqr _ _ _ _ _ _ _ _ Hforce HF)
        as (pre & out & post & _ & Hmid & _).
      by rewrite Hnbout in Hmid. }
  destruct Hnbout as (nb' & extra & Hout & Hps & _).
  pose proof (builtForces_buildable float_sqr ligand alchemical_state N (forces R)) as Hbuildable.
  rewrite HF in Hbuildable.
  rewrite Forall_forall in Hbuildable.
  pose proof (Hbuildable _ (proj2 (list_elem_of_In _ _) Hgb) Hne) as [Hrange _].
  rewrite Forall_forall in Hrange. specialize (Hrange i Hi).
  pose proof (softcoreGB_spec ligand alchemical_state N gb) as Hspec.
  assert (Hgbout : exists custom,
             softcoreGB ligand alchemical_state N gb = Ok custom).
  { destruct (softcoreGB ligand alchemical_state N gb) as [custom|e]; [by exists custom|].
    destruct Hspec as [_ Hbad]. exfalso. apply Hbad.
    exact (Hbuildable _ (proj2 (list_elem_of_In _ _) Hgb) Hne). }
  destruct Hgbout as [custom Hcustom]. rewrite Hcustom in Hspec.
  destruct Hspec as (_ & _ & Hlook).
  assert (Hgbforces : perturbedForces float_sqr ligand (list_to_set ligand) alchemical_state N
                        (GBSAOBCForce gb) = Ok [CustomGBForce custom]).
  { simpl. by rewrite Hne, Hcustom. }
  exists (builtSystem R F), nb', extra, custom.
  split; [exact Hsnap|]. split; [exact Hout|]. split; [exact Hgbforces|].
  split; [|split; [|split]].
  - apply (builtForces_incl float_sqr _ _ _ _ _ _ _ _ HF Hnb Hout). by left.
  - apply (builtForces_incl float_sqr _ _ _ _ _ _ _ _ HF Hgb Hgbforces). by left.
  - rewrite Hps, (scaleElectrostatics_particles float_sqr _ _ _ _ Hne Hscaled).
    destruct (float_ne (ligandLennardJones alchemical_state) 1.0);
      rewrite ?list_lookup_imap, Hp; simpl;
      rewrite ?bool_decide_ligand_atomset, !bool_decide_eq_false_2 by done;
      reflexivity.
  - rewrite (Hlook _ _ _ _ Hq). unfold k.
    rewrite (numpy_hit_negative N ligand i); [done|done|].
    unfold in_numpy_range in Hrange. lia.
Qed.

(** * Worked instances *)

(** ** A squaring function for the instances

    Python evaluates [x ** 2] on floats with the C library's [pow] and raises
    OverflowError when a finite [x] gives an infinite result; the last bit of
    [pow] depends on the platform.  [example_sqr] is the function a correctly
    rounded [pow] gives.  The instances below square 0.0, 0.25, 0.5, 0.75 and
    1.0 only; their squares are binary64 numbers, which every [pow] that is
    accurate to less than one unit in the last place returns exactly. *)
Definition example_sqr : squaring := fun x =>
  let square := (x * x)%float in
  if PrimFloat.is_infinity square && negb (PrimFloat.is_infinity x)
  then Raise OverflowError
  else Ok square.

Lemma C1_fully_interacting_build_witness :
  snapshot Example.heap0 Example.reference_loc = Some Example.reference
  /\ exists (h1 : heap) (self : loc) (h2 : heap) (system : loc),
       AbsoluteAlchemicalFactory_init Example.reference_loc Example.ligand Example.heap0
       = (h1, Ok self)
       /\ createPerturbedSystem example_sqr self (AlchemicalState_init 0.0 1.0 1.0 1.0) h1
          = (h2, Ok system)
       /\ snapshot h2 system = Some Example.reference
       /\ forall (Coordinates Energy : Type)
                 (potential : System Force -> Coordinates -> Energy) (x : Coordinates),
            (fun S => potential S x) <$> snapshot h2 system
            = (fun S => potential S x) <$> snapshot Example.heap0 Example.reference_loc.
Proof.
  split; [reflexivity|].
  apply (C1_fully_interacting_build_is_reference example_sqr Example.heap0 Example.reference_loc
           Example.reference Example.ligand true false).
  reflexivity.
Defined.

(** C2, as stated, fails: the example reference holds a force of a class the
    module does not handle, and the build at a half-coupled state returns a
    system that contains this force. *)
Lemma C2_counterexample_unhandled_force_copied :
  handledKind Example.harmonic = false
  /\ In Example.harmonic (forces Example.reference)
  /\ exists (h2 : heap) (system : loc) (S : System Force),
       createPerturbedSystem example_sqr example_self (AlchemicalState_init 0.0 0.5 0.5 0.5)
         example_heap1 = (h2, Ok system)
       /\ snapshot h2 system = Some S
       /\ In Example.harmonic (forces S).
Proof.
  assert (Hin : In Example.harmonic (forces Example.reference)) by (simpl; tauto).
  split; [reflexivity|]. split; [exact Hin|].
  pose proof (createPerturbedSystem_run example_sqr _ _ _ _ (AlchemicalState_init 0.0 0.5 0.5 0.5)
                example_factoryAt) as Hrun.
  destruct (builtForces example_sqr _ _ _ _ _) as [F|e] eqn:HF.
  - exists (example_heap1 ++ builtObjects example_heap1 Example.reference F),
      (length example_heap1), (builtSystem Example.reference F).
    split; [exact Hrun|]. split.
    + pose proof (snapshot_built example_heap1 Example.reference F []) as Hs.
      by rewrite app_nil_r in Hs.
    + eapply (builtForces_incl example_sqr);
        [exact HF|exact Hin|by apply (perturbedForces_unhandled example_sqr)|].
      by left.
  - vm_compute in HF. discriminate HF.
Qed.

(** A reference system made of two bonded-only force objects of classes the
    module does not handle. *)
Definition example_unhandled_reference : System Force :=
  mkSystem (boxVectors Example.reference) (particleMasses Example.reference)
    (constraints Example.reference)
    [Example.harmonic; OtherForce "HarmonicAngleForce" "<Angle p1=0 p2=1 p3=2 a=1.9 k=100/>"].

Definition example_unhandled_heap : heap :=
  [OForce Example.harmonic;
   OForce (OtherForce "HarmonicAngleForce" "<Angle p1=0 p2=1 p3=2 a=1.9 k=100/>");
   OSystem (mkSystem (boxVectors Example.reference) (particleMasses Example.reference)
              (constraints Example.reference) [0; 1]);
   OList Example.ligand;
   OSet (list_to_set Example.ligand);
   OFactory (mkFactory 2 3 4)].

Lemma example_unhandled_factoryAt :
  factoryAt example_unhandled_heap 5 example_unhandled_reference Example.ligand.
Proof. exists (mkFactory 2 3 4). repeat split; reflexivity. Qed.

Lemma C2_unhandled_force_witness :
  factoryAt example_unhandled_heap 5 example_unhandled_reference Example.ligand
  /\ In Example.harmonic (forces example_unhandled_reference)
  /\ handledKind Example.harmonic = false
  /\ Forall (fun g => handledKind g = false) (forces example_unhandled_reference)
  /\ exists (h2 : heap) (system : loc),
       createPerturbedSystem example_sqr 5 (AlchemicalState_init 0.0 0.5 0.5 0.5)
         example_unhandled_heap = (h2, Ok system)
       /\ snapshot h2 system = Some example_unhandled_reference.
Proof.
  assert (Hin : In Example.harmonic (forces example_unhandled_reference))
    by (simpl; tauto).
  assert (Hall : Forall (fun g => handledKind g = false)
                   (forces example_unhandled_reference))
    by (repeat constructor).
  split; [exact example_unhandled_factoryAt|].
  split; [exact Hin|]. split; [reflexivity|]. split; [exact Hall|].
  exact (proj2 (proj2 (C2_unhandled_force_is_copied example_sqr example_unhandled_heap 5
                         example_unhandled_reference Example.ligand
                         (AlchemicalState_init 0.0 0.5 0.5 0.5) Example.harmonic
                         example_unhandled_factoryAt Hin eq_refl)) Hall).
Defined.

Lemma C10_build_ignores_relativeRestraints_witness :
  createPerturbedSystem example_sqr example_self (AlchemicalState_init 0.0 0.5 0.5 0.5) example_heap1
  = createPerturbedSystem example_sqr example_self (AlchemicalState_init 0.7 0.5 0.5 0.5) example_heap1
  /\ forall system1 system2 h1 h2,
       createPerturbedSystem example_sqr example_self (AlchemicalState_init 0.0 0.5 0.5 0.5)
         example_heap1 = (h1, Ok system1) ->
       createPerturbedSystem example_sqr example_self (AlchemicalState_init 0.7 0.5 0.5 0.5)
         example_heap1 = (h2, Ok system2) ->
       snapshot h1 system1 = snapshot h2 system2.
Proof.
  apply (C10_build_ignores_relativeRestraints example_sqr example_self example_heap1
           (AlchemicalState_init 0.0 0.5 0.5 0.5) (AlchemicalState_init 0.7 0.5 0.5 0.5));
    reflexivity.
Defined.

(** The build of the example at the half-coupled state. *)
Definition example_half_heap : heap :=
  fst (createPerturbedSystem example_sqr example_self example_half_state example_heap1).

Lemma example_half_build :
  createPerturbedSystem example_sqr example_self example_half_state example_heap1
  = (example_half_heap, Ok 13).
Proof. vm_compute. reflexivity. Qed.

Lemma C7_torsion_scaled_witness :
  factoryAt example_heap1 example_self Example.reference Example.ligand
  /\ createPerturbedSystem example_sqr example_self example_half_state example_heap1
     = (example_half_heap, Ok 13)
  /\ forces Example.reference !! 0 = Some (PeriodicTorsionForce Example.torsions)
  /\ Example.torsions !! 0 = Some (0%Z, 1%Z, 1%Z, 0%Z, 2%Z, 3.14%float, 10.0%float)
  /\ exists (ts' : list Torsion),
       (forall (h0 X : heap) (s : System loc),
           perturbForce example_sqr (length h0) Example.ligand (list_to_set Example.ligand)
             example_half_state (PeriodicTorsionForce Example.torsions)
             (h0 ++ OSystem s :: X)
           = (h0 ++ OSystem (withForces s (length h0 + S (length X)) 1)
                 :: (X ++ [OForce (PeriodicTorsionForce ts')]),
              Ok tt))
       /\ (exists (built : System Force) (pre post : list Force),
             snapshot example_half_heap 13 = Some built
             /\ forces built = pre ++ PeriodicTorsionForce ts' :: post
             /\ builtForces example_sqr Example.ligand (list_to_set Example.ligand) example_half_state
                  (length (particleMasses Example.reference))
                  (take 0 (forces Example.reference)) = Ok pre
             /\ builtForces example_sqr Example.ligand (list_to_set Example.ligand) example_half_state
                  (length (particleMasses Example.reference))
                  (drop 1 (forces Example.reference)) = Ok post)
       /\ length ts' = length Example.torsions
       /\ (0%Z ∈ Example.ligand /\ 1%Z ∈ Example.ligand
           /\ 1%Z ∈ Example.ligand /\ 0%Z ∈ Example.ligand ->
           ts' !! 0
           = Some (0%Z, 1%Z, 1%Z, 0%Z, 2%Z, 3.14%float,
                   (10.0 * ligandTorsions example_half_state)%float))
       /\ (~ (0%Z ∈ Example.ligand /\ 1%Z ∈ Example.ligand
              /\ 1%Z ∈ Example.ligand /\ 0%Z ∈ Example.ligand) ->
           ts' !! 0 = Some (0%Z, 1%Z, 1%Z, 0%Z, 2%Z, 3.14%float, 10.0%float)).
Proof.
  split; [exact example_factoryAt|]. split; [exact example_half_build|].
  split; [reflexivity|]. split; [reflexivity|].
  apply (C7_torsion_scaled_iff_all_atoms_in_ligand example_sqr example_heap1 example_self
           Example.reference Example.ligand example_half_state example_half_heap 13
           0 Example.torsions 0 0%Z 1%Z 1%Z 0%Z 2%Z 3.14%float 10.0%float
           example_factoryAt example_half_build eq_refl eq_refl).
Defined.


Lemma C8_builds_share_nothing_witness :
  factoryAt example_heap1 example_self Example.reference Example.ligand
  /\ exists G,
       fst (createPerturbedSystems example_sqr example_self defaultComplexProtocolImplicit example_heap1)
       = example_heap1 ++ G
       /\ (forall l o, example_heap1 !! l = Some o -> (example_heap1 ++ G) !! l = Some o)
       /\ factoryAt (example_heap1 ++ G) example_self Example.reference Example.ligand
       /\ forall systems,
            snd (createPerturbedSystems example_sqr example_self defaultComplexProtocolImplicit
                   example_heap1) = Ok systems ->
            length systems = length defaultComplexProtocolImplicit
            /\ (forall i l,
                  systems !! i = Some l ->
                  l ∈ ownedLocs (example_heap1 ++ G) l
                  /\ (exists alchemical_state F,
                         defaultComplexProtocolImplicit !! i = Some alchemical_state
                         /\ builtForces example_sqr Example.ligand (list_to_set Example.ligand)
                              alchemical_state
                              (length (particleMasses Example.reference))
                              (forces Example.reference) = Ok F
                         /\ snapshot (example_heap1 ++ G) l
                            = Some (builtSystem Example.reference F))
                  /\ (forall x, x ∈ ownedLocs (example_heap1 ++ G) l ->
                                length example_heap1 <= x < length (example_heap1 ++ G))
                  /\ (forall fac x,
                         example_heap1 !! example_self = Some (OFactory fac) ->
                         x ∈ ownedLocs (example_heap1 ++ G) l ->
                         (x ∉ ownedLocs (example_heap1 ++ G) (reference_system fac))
                         /\ x <> ligand_atoms fac /\ x <> ligand_atomset fac
                         /\ x <> example_self))
            /\ (forall i j li lj x,
                  i <> j -> systems !! i = Some li -> systems !! j = Some lj ->
                  x ∈ ownedLocs (example_heap1 ++ G) li ->
                  x ∉ ownedLocs (example_heap1 ++ G) lj).
Proof.
  split; [exact example_factoryAt|].
  apply (C8_builds_leave_reference_unchanged_and_share_nothing example_sqr example_heap1 example_self
           Example.reference Example.ligand defaultComplexProtocolImplicit
           example_factoryAt).
Defined.

Lemma createPerturbedSystem_succeeds_iff_buildable_witness :
  factoryAt (Example.heap0 ++ factoryObjects Example.heap0 Example.reference [7; -5]%Z)
    12 Example.reference [7; -5]%Z
  /\ (exists G,
        createPerturbedSystem example_sqr 12 example_half_state
          (Example.heap0 ++ factoryObjects Example.heap0 Example.reference [7; -5]%Z)
        = ((Example.heap0 ++ factoryObjects Example.heap0 Example.reference [7; -5]%Z) ++ G,
           Raise IndexError))
  /\ factoryAt example_heap1 example_self Example.reference Example.ligand
  /\ example_sqr 1e200%float = Raise OverflowError
  /\ (exists G,
        createPerturbedSystem example_sqr example_self
          (AlchemicalState_init 0.0 1e200 1.0 1.0)%float example_heap1
        = (example_heap1 ++ G, Raise OverflowError)).
Proof.
  assert (Hfac : factoryAt
                   (Example.heap0
                    ++ factoryObjects Example.heap0 Example.reference [7; -5]%Z)
                   12 Example.reference [7; -5]%Z).
  { pose proof (factoryAt_init Example.heap0 Example.reference [7; -5]%Z []) as H.
    rewrite app_nil_r in H. exact H. }
  split; [exact Hfac|]. split.
  { destruct (createPerturbedSystem_succeeds_iff_buildable example_sqr _ _ _ _
                example_half_state Hfac) as (_ & Hfail & _).
    destruct Hfail as (G & e & Hrun & [->|Hsquare]).
    - intros Hall.
      apply Forall_inv_tail, Forall_inv_tail, Forall_inv in Hall.
      destruct (Hall eq_refl) as [Hrange _].
      apply Forall_inv in Hrange. unfold in_numpy_range in Hrange. simpl in Hrange. lia.
    - by exists G.
    - discriminate Hsquare. }
  split; [exact example_factoryAt|]. split; [reflexivity|].
  destruct (createPerturbedSystem_succeeds_iff_buildable example_sqr _ _ _ _
              (AlchemicalState_init 0.0 1e200 1.0 1.0)%float example_factoryAt)
    as (_ & Hfail & _).
  destruct Hfail as (G & e & Hrun & [->|Hsquare]).
  - intros Hall.
    apply Forall_inv_tail, Forall_inv in Hall.
    destruct (Hall eq_refl eq_refl 0%Z 1%Z 0.1%float 0.3%float 0.05%float) as [square Hsquare].
    + by left.
    + by left.
    + by right; left.
    + discriminate Hsquare.
  - assert (snd (createPerturbedSystem example_sqr example_self
                   (AlchemicalState_init 0.0 1e200 1.0 1.0)%float example_heap1)
            = Raise OverflowError) as Hsnd by (vm_compute; reflexivity).
    rewrite Hrun in Hsnd. discriminate Hsnd.
  - injection Hsquare as <-. by exists G.
Defined.

Lemma build_replaces_GB_force_witness :
  factoryAt example_heap1 example_self Example.reference Example.ligand
  /\ createPerturbedSystem example_sqr example_self example_half_state example_heap1
     = (example_half_heap, Ok 13)
  /\ forces Example.reference !! 2 = Some (GBSAOBCForce Example.gbsa)
  /\ float_ne (ligandElectrostatics example_half_state) 1.0 = true
  /\ exists (custom : CustomGBForce_t),
       length (cgb_particles custom) = 3
       /\ cgb_particles custom !! 0
          = Some [0.5 * Float64.to_float32 0.5; 0.15; 0.8; Float64.to_float32 0.5]%float
       /\ cgb_particles custom !! 2 = Some [0.25; 0.1; 0.7; 1.0]%float.
Proof.
  split; [exact example_factoryAt|]. split; [exact example_half_build|].
  split; [reflexivity|]. split; [reflexivity|].
  destruct (build_replaces_GB_force_with_float32_lambdas example_sqr example_heap1 example_self
              Example.reference Example.ligand example_half_state example_half_heap 13
              2 Example.gbsa example_factoryAt example_half_build eq_refl eq_refl)
    as (custom & _ & Hlen & Hp).
  exists custom. split; [exact Hlen|]. split.
  - exact (proj1 (Hp 0 _ _ _ eq_refl) eq_refl).
  - exact (proj2 (Hp 2 _ _ _ eq_refl) eq_refl).
Defined.

Lemma built_system_keeps_particles_witness :
  factoryAt example_heap1 example_self Example.reference Example.ligand
  /\ createPerturbedSystem example_sqr example_self example_half_state example_heap1
     = (example_half_heap, Ok 13)
  /\ exists built : System Force,
       snapshot example_half_heap 13 = Some built
       /\ boxVectors built = boxVectors Example.reference
       /\ particleMasses built = particleMasses Example.reference
       /\ constraints built = constraints Example.reference
       /\ length (forces built) = 5
       /\ length (forces Example.reference) <= length (forces built).
Proof.
  split; [exact example_factoryAt|]. split; [exact example_half_build|].
  apply (built_system_keeps_particles_and_counts_forces example_sqr example_heap1 example_self
           Example.reference Example.ligand example_half_state example_half_heap 13
           example_factoryAt example_half_build).
Defined.

Definition example_restraint : CustomBondForce_t :=
  mkCustomBond "0.5*K*(r-r0)^2" [("K", 100.0%float)] ["r0"]
    [(0%Z, 2%Z, [0.3%float]); (1%Z, 2%Z, [0.35%float])].

Lemma custom_forces_are_rebuilt_unchanged_witness :
  ((exists c, CustomBondForce example_restraint = CustomExternalForce c)
   \/ (exists c, CustomBondForce example_restraint = CustomBondForce c))
  /\ perturbForce example_sqr 0 Example.ligand (list_to_set Example.ligand) example_half_state
       (CustomBondForce example_restraint) [OSystem new_System]
     = ([OSystem (withForces new_System 1 1); OForce (CustomBondForce example_restraint)],
        Ok tt).
Proof.
  assert (Hkind : (exists c, CustomBondForce example_restraint = CustomExternalForce c)
                  \/ (exists c, CustomBondForce example_restraint = CustomBondForce c))
    by (right; by exists example_restraint).
  split; [exact Hkind|].
  exact (proj1 (custom_forces_are_rebuilt_unchanged example_sqr Example.ligand example_half_state
                  (CustomBondForce example_restraint) [] [] new_System Hkind)).
Defined.

Lemma example_states_buildable :
  Forall (stateBuildable example_sqr Example.reference Example.ligand) defaultComplexProtocolImplicit.
Proof.
  assert (Hsquares : Forall (fun st => exists square,
                                 example_sqr (ligandElectrostatics st) = Ok square)
                       defaultComplexProtocolImplicit)
    by (repeat (constructor; [by eexists|]); constructor).
  apply Forall_forall. intros st Hst.
  rewrite Forall_forall in Hsquares. specialize (Hsquares st Hst).
  unfold stateBuildable. simpl forces.
  repeat constructor.
  - intros _ _ iatom jatom chargeprod sigma epsilon _ _ _. exact Hsquares.
  - simpl. lia.
  - simpl. lia.
Qed.

Lemma createPerturbedSystems_builds_in_order_witness :
  factoryAt example_heap1 example_self Example.reference Example.ligand
  /\ Forall (stateBuildable example_sqr Example.reference Example.ligand) defaultComplexProtocolImplicit
  /\ exists G systems,
       createPerturbedSystems example_sqr example_self defaultComplexProtocolImplicit example_heap1
       = (example_heap1 ++ G, Ok systems)
       /\ length systems = length defaultComplexProtocolImplicit.
Proof.
  split; [exact example_factoryAt|]. split; [exact example_states_buildable|].
  exact (proj1 (proj2 (createPerturbedSystems_builds_in_order_or_raises example_sqr example_heap1
                         example_self Example.reference Example.ligand
                         example_factoryAt))
           defaultComplexProtocolImplicit example_states_buildable).
Defined.

Lemma factory_is_isolated_witness :
  snapshot Example.heap0 Example.reference_loc = Some Example.reference
  /\ exists (h1 : heap) (self : loc),
       AbsoluteAlchemicalFactory_init Example.reference_loc Example.ligand Example.heap0
       = (h1, Ok self)
       /\ factoryAt (<[1 := OForce (NonbondedForce
                                      (mkNonbonded [] [] NoCutoff 0%float false))]> h1)
            self Example.reference Example.ligand.
Proof.
  split; [reflexivity|].
  destruct (factory_is_isolated_from_later_changes_of_the_original example_sqr Example.heap0
              Example.reference_loc Example.reference Example.ligand eq_refl)
    as (h1 & self & fac & Hinit & _ & _ & _ & _ & _ & Hmut & _).
  exists h1, self. split; [exact Hinit|].
  apply Hmut. simpl. lia.
Defined.

Definition example_discharged_only : AlchemicalState := AlchemicalState_init 0.0 1.0 0.5 1.0.

Definition example_lj_heap : heap :=
  fst (createPerturbedSystem example_sqr example_self example_discharged_only example_heap1).

Lemma example_lj_build :
  createPerturbedSystem example_sqr example_self example_discharged_only example_heap1
  = (example_lj_heap, Ok 13).
Proof. vm_compute. reflexivity. Qed.

Lemma unit_electrostatics_witness :
  factoryAt example_heap1 example_self Example.reference Example.ligand
  /\ createPerturbedSystem example_sqr example_self example_discharged_only example_heap1
     = (example_lj_heap, Ok 13)
  /\ float_ne (ligandElectrostatics example_discharged_only) 1.0 = false
  /\ forces Example.reference !! 2 = Some (GBSAOBCForce Example.gbsa)
  /\ exists (built : System Force) (pre post : list Force),
       snapshot example_lj_heap 13 = Some built
       /\ forces built = pre ++ GBSAOBCForce Example.gbsa :: post.
Proof.
  split; [exact example_factoryAt|]. split; [exact example_lj_build|].
  split; [reflexivity|]. split; [reflexivity|].
  destruct (unit_electrostatics_leaves_charges_and_GB_unchanged example_sqr example_heap1 example_self
              Example.reference Example.ligand example_discharged_only example_lj_heap 13
              2 (GBSAOBCForce Example.gbsa) example_factoryAt example_lj_build
              eq_refl eq_refl)
    as (built & pre & post & Hsnap & _ & _ & Hgb & _).
  exists built, pre, post. split; [exact Hsnap|]. by apply Hgb.
Defined.

Definition example_negative_heap1 : heap :=
  Example.heap0 ++ factoryObjects Example.heap0 Example.reference [-1]%Z.

Lemma example_negative_factoryAt :
  factoryAt example_negative_heap1 12 Example.reference [-1]%Z.
Proof.
  pose proof (factoryAt_init Example.heap0 Example.reference [-1]%Z []) as H.
  rewrite app_nil_r in H. exact H.
Qed.

Definition example_negative_heap2 : heap :=
  fst (createPerturbedSystem example_sqr 12 example_half_state example_negative_heap1).

Lemma example_negative_build :
  createPerturbedSystem example_sqr 12 example_half_state example_negative_heap1
  = (example_negative_heap2, Ok 13).
Proof. vm_compute. reflexivity. Qed.

Lemma negative_ligand_index_witness :
  factoryAt example_negative_heap1 12 Example.reference [-1]%Z
  /\ createPerturbedSystem example_sqr 12 example_half_state example_negative_heap1
     = (example_negative_heap2, Ok 13)
  /\ exists (built : System Force) (nb' : NonbondedForce_t) (custom : CustomGBForce_t),
       snapshot example_negative_heap2 13 = Some built
       /\ In (NonbondedForce nb') (forces built)
       /\ In (CustomGBForce custom) (forces built)
       /\ nb_particles nb' !! 2 = Some (0.25, 0.2, 0.4)%float
       /\ cgb_particles custom !! 2
          = Some [0.25 * Float64.to_float32 0.5; 0.1; 0.7; Float64.to_float32 0.5]%float.
Proof.
  split; [exact example_negative_factoryAt|]. split; [exact example_negative_build|].
  assert (H1 : In (NonbondedForce Example.nonbonded) (forces Example.reference))
    by (simpl; tauto).
  assert (H2 : In (GBSAOBCForce Example.gbsa) (forces Example.reference))
    by (simpl; tauto).
  assert (H3 : (-1)%Z ∈ [-1]%Z) by (by apply list_elem_of_singleton).
  assert (H4 : Z.of_nat (Z.to_nat (Z.of_nat (length (particleMasses Example.reference))
                                   + -1)) ∉ [-1]%Z).
  { intros ?%list_elem_of_singleton. simpl in *. lia. }
  pose proof (negative_ligand_index_scales_GB_but_not_nonbonded example_sqr example_negative_heap1 12
                Example.reference [-1]%Z example_half_state example_negative_heap2 13
                Example.nonbonded Example.gbsa (-1)%Z
                0.25%float 0.2%float 0.4%float 0.25%float 0.1%float 0.7%float
                example_negative_factoryAt example_negative_build eq_refl
                H1 H2 H3 ltac:(lia) H4 eq_refl eq_refl) as H.
  destruct H as (built & nb' & extra & custom & Hsnap & _ & _ & Hnb & Hgb & Hp & Hq).
  exists built, nb', custom.
  split; [exact Hsnap|]. split; [exact Hnb|]. split; [exact Hgb|].
  split; [exact Hp|exact Hq].
Defined.
